(** * A shallow embedding of the L4 virtio-net switch fabric

    The development follows the C++ sources file by file:

    - [Mac_table]            mac_table.h   (the learning table)
    - [Vlan], [Mac_addr]     what the sources use of vlan.h and mac_addr.h
    - [Virtqueue]            what the sources use of L4virtio's queues
    - [Virtio_net_request]   request.h     (one parsed descriptor chain)
    - [Virtio_net_transfer]  transfer.h    (one delivery into a receive ring)
    - [Virtio_port]          port.h        (VLAN configuration of a port)
    - [Virtio_switch]        switch.cc     (the forwarding decision)

    Pointers to ports are natural numbers, [None] is the null pointer, and
    the port objects live in a store indexed by these numbers.  The
    definitions come first; the properties proved about them follow in the
    modules whose names end in [_facts]. *)

From Stdlib Require Import ZArith Lia List Bool.
From stdpp Require Import gmap list sorting.

Open Scope Z_scope.

(** ** Ethernet addresses (mac_addr.h) *)

Module Mac_addr.

(** Modelled from the spec: mac_addr.h is not among the sources.  A MAC
    address is a six-octet identifier; here the six octets are kept as one
    48-bit number, first octet most significant. *)
Definition Addr_length : nat := 6.

(** Modelled from the spec: the distinguished unknown value is all-zero. *)
Definition Addr_unknown : Z := 0.

(** The value of a byte. *)
Definition octet (b : Byte.byte) : Z := Z.of_N (Byte.to_N b).

(** Modelled from the spec: the number made of the octets [bs], after
    those already in [acc]. *)
Fixpoint of_octets (acc : Z) (bs : list Byte.byte) : Z :=
  match bs with
  | [] => acc
  | b :: bs' => of_octets (Z.lor (Z.shiftl acc 8) (octet b)) bs'
  end.

(** Modelled from the spec: the constructor of [Mac_addr] from a byte
    pointer, the address made of the six octets at the given position. *)
Definition of_bytes (bs : list Byte.byte) : Z := of_octets 0 (take 6%nat bs).

(** Modelled from the spec: the broadcast predicate is all-ones. *)
Definition is_broadcast (m : Z) : bool := m =? 0xffffffffffff.

(** Modelled from the spec: the test for the unknown value. *)
Definition is_unknown (m : Z) : bool := m =? Addr_unknown.

End Mac_addr.

(** ** The MAC table (mac_table.h) *)

Module Mac_table.

(** [struct Entry]: a slot of the backing array.  [entry_port] is the port
    pointer, null in a slot that is not occupied. *)
Record Entry := {
  entry_port : option nat;
  entry_addr : Z
}.

(** [Entry()] *)
Definition Entry_new : Entry :=
  {| entry_port := None; entry_addr := Mac_addr.Addr_unknown |}.

(** [class Mac_table<Size>]: [_mac_table] is the lookup index, a [std::map]
    from address to a pointer into [_entries]; the pointer is the index of
    the slot, so that a write to the slot is seen through every index
    entry that points to it. *)
Record t := {
  _mac_table : gmap Z nat;
  _entries : list Entry;
  _rr_index : nat
}.

Section WithSize.

(** The template parameter [Size], 1024 unless stated otherwise. *)
Variable Size : nat.

(** [Mac_table()] *)
Definition create : t :=
  {| _mac_table := ∅;
     _entries := replicate Size Entry_new;
     _rr_index := 0%nat |}.

(** [_entries[i]]; the index is below [Size] in every table built by the
    operations below. *)
Definition entry_at (tbl : t) (i : nat) : Entry :=
  default Entry_new (_entries tbl !! i).

(** [lookup]: the port of the slot the index points to, null when the
    address is not in the index. *)
Definition lookup (tbl : t) (dst : Z) : option nat :=
  match _mac_table tbl !! dst with
  | Some i => entry_port (entry_at tbl i)
  | None => None
  end.

(** [learn].  [emplace] inserts [src -> &_entries[_rr_index]] unless [src]
    is a key already, and tells which of the two happened.  The debug
    output at the head of the function reads the table only. *)
Definition learn (tbl : t) (src : Z) (port : option nat) : t :=
  match _mac_table tbl !! src with
  | None =>
      (* status.second: the address was inserted *)
      let emplaced := <[src := _rr_index tbl]> (_mac_table tbl) in
      let old := entry_at tbl (_rr_index tbl) in
      let index :=
        match entry_port old with
        | Some _ => delete (entry_addr old) emplaced
        | None => emplaced
        end in
      {| _mac_table := index;
         _entries := <[_rr_index tbl :=
                         {| entry_port := port; entry_addr := src |}]>
                       (_entries tbl);
         _rr_index := ((_rr_index tbl + 1) mod Size)%nat |}
  | Some i =>
      (* status.first->second->port = port *)
      {| _mac_table := _mac_table tbl;
         _entries := <[i := {| entry_port := port;
                               entry_addr := entry_addr (entry_at tbl i) |}]>
                       (_entries tbl);
         _rr_index := _rr_index tbl |}
  end.

(** [flush]: the loop visits the entries of the index in the order of the
    map ([keys], the keys of the index in that order); an entry whose slot
    holds [port] at that moment has the slot cleared and is erased. *)
Fixpoint flush (keys : list Z) (tbl : t) (port : option nat) : t :=
  match keys with
  | [] => tbl
  | k :: keys' =>
      match _mac_table tbl !! k with
      | Some i =>
          if decide (entry_port (entry_at tbl i) = port)
          then flush keys'
                 {| _mac_table := delete k (_mac_table tbl);
                    _entries := <[i := Entry_new]> (_entries tbl);
                    _rr_index := _rr_index tbl |} port
          else flush keys' tbl port
      | None => flush keys' tbl port
      end
  end.

(** The wording of the specification, for comparison with [learn]: if the
    address is present, update its port pointer; else, if the slot at the
    cursor is occupied, remove its address from the index; write the pair
    into the slot, insert it into the index and advance the cursor modulo
    [Size]. *)
Definition learn_spec (tbl : t) (src : Z) (port : option nat) : t :=
  match _mac_table tbl !! src with
  | Some i =>
      {| _mac_table := _mac_table tbl;
         _entries := <[i := {| entry_port := port;
                               entry_addr := entry_addr (entry_at tbl i) |}]>
                       (_entries tbl);
         _rr_index := _rr_index tbl |}
  | None =>
      let old := entry_at tbl (_rr_index tbl) in
      let removed :=
        if decide (is_Some (entry_port old))
        then delete (entry_addr old) (_mac_table tbl)
        else _mac_table tbl in
      {| _mac_table := <[src := _rr_index tbl]> removed;
         _entries := <[_rr_index tbl :=
                         {| entry_port := port; entry_addr := src |}]>
                       (_entries tbl);
         _rr_index := ((_rr_index tbl + 1) mod Size)%nat |}
  end.

(** Learning a sequence of (address, port) pairs, first pair first; the
    ports are not null. *)
Definition learn_all (tbl : t) (l : list (Z * nat)) : t :=
  fold_left (fun acc mp => learn acc (fst mp) (Some (snd mp))) l tbl.

(** The tables the switch can hold: built from the empty table by [learn],
    which the switch calls with the address of a port and never with
    null, and by [flush], whatever the order of the map is. *)
Inductive reachable : t -> Prop :=
| reach_create : reachable create
| reach_learn tbl src (port : nat) :
    reachable tbl -> reachable (learn tbl src (Some port))
| reach_flush tbl port keys :
    reachable tbl ->
    keys ≡ₚ (map_to_list (_mac_table tbl)).*1 ->
    reachable (flush keys tbl port).

(** The invariant of these tables: the array has [Size] slots, the cursor
    is inside it, an occupied slot is the one the index gives for its
    address, and the index points to occupied slots only, each under the
    address the slot holds. *)
Record table_inv (tbl : t) : Prop := {
  inv_length : length (_entries tbl) = Size;
  inv_cursor : (_rr_index tbl < Size)%nat;
  inv_slot : forall i p a,
    _entries tbl !! i = Some {| entry_port := Some p; entry_addr := a |} ->
    _mac_table tbl !! a = Some i;
  inv_index : forall a i,
    _mac_table tbl !! a = Some i ->
    exists p, _entries tbl !! i = Some {| entry_port := Some p; entry_addr := a |}
}.

(** The table after the pairs of [l] have been learned, none of them
    twice: the pair learned as [j]-th is in slot [j mod Size] as long as
    fewer than [Size] pairs were learned after it, and after that its
    address is not in the index any more. *)
Record learned (l : list (Z * nat)) (tbl : t) : Prop := {
  ld_length : length (_entries tbl) = Size;
  ld_cursor : _rr_index tbl = (length l mod Size)%nat;
  ld_recent : forall j m p,
    l !! j = Some (m, p) -> (length l <= j + Size)%nat ->
    _mac_table tbl !! m = Some (j mod Size)%nat
    /\ _entries tbl !! (j mod Size)%nat
       = Some {| entry_port := Some p; entry_addr := m |};
  ld_old : forall m,
    (forall j p, l !! j = Some (m, p) -> (j + Size < length l)%nat) ->
    _mac_table tbl !! m = None;
  ld_free : forall i,
    (length l <= i < Size)%nat -> _entries tbl !! i = Some Entry_new
}.

End WithSize.

End Mac_table.

(** ** Outcomes of fallible code *)

(** The exceptions of the sources ([L4virtio::Svr::Bad_descriptor],
    [L4::Runtime_error]), a failed [assert], the use of a pointer that does
    not point to an object, and [Cut_off], which is not an exception: a
    loop of the model was cut off after the number of rounds it was given,
    and the state reported with it has no meaning. *)
Inductive Exn :=
| Bad_descriptor
| Runtime_error
| Assertion_failed
| Bad_pointer
| Cut_off.

(** The exceptions that unwind the stack and run the destructors of the
    local objects on the way. *)
Definition unwinds (e : Exn) : bool :=
  match e with
  | Bad_descriptor | Runtime_error => true
  | _ => false
  end.

Inductive Res (A : Type) :=
| Ok (a : A)
| Throw (e : Exn).
Arguments Ok {A} a.
Arguments Throw {A} e.

(** [assert(c)]: nothing when the program is built with [NDEBUG]. *)
Definition assert (NDEBUG c : bool) : Res unit :=
  if NDEBUG || c then Ok tt else Throw Assertion_failed.

(** ** Data buffers (virtio_net_buffer.h) *)

Module Buffer.

(** Modelled from the spec: virtio_net_buffer.h is not among the sources.
    A [Buffer] is a position in guest memory and the number of bytes left
    there; the model keeps the bytes themselves.  [pos = None] is the null
    position of a default-constructed buffer. *)
Record t := { pos : option (list Byte.byte) }.

(** Modelled from the spec: [Buffer()]. *)
Definition empty : t := {| pos := None |}.

(** Modelled from the spec: the member [left], the number of bytes left. *)
Definition left (b : t) : nat :=
  match pos b with
  | Some bs => length bs
  | None => 0%nat
  end.

(** Modelled from the spec: [done()], nothing is left. *)
Definition done (b : t) : bool := Nat.eqb (left b) 0.

(** Modelled from the spec: [skip(n)] advances by at most [n] bytes and
    returns the number of bytes skipped. *)
Definition skip (n : nat) (b : t) : nat * t :=
  match pos b with
  | Some bs => (Nat.min n (length bs), {| pos := Some (drop n bs) |})
  | None => (0%nat, b)
  end.

(** [p[i]] for a byte position [p] inside the buffer. *)
Definition byte_at (b : t) (i : nat) : Z :=
  match pos b with
  | Some bs => Mac_addr.octet (default Byte.x00 (bs !! i))
  | None => 0
  end.

End Buffer.

(** ** Virtqueues (L4virtio::Svr) *)

Module Virtqueue.

(** Modelled from the spec: the L4virtio server library is not among the
    sources.  A descriptor either refers to valid guest memory, given by
    its bytes, or fails validation when it is loaded ([None]). *)
Definition Desc : Type := option (list Byte.byte).

(** Modelled from the spec: a descriptor chain is a head descriptor and
    the descriptors linked to it. *)
Definition Chain : Type := Desc * list Desc.

(** Modelled from the spec: [Head_desc] is the handle of a chain that was
    taken from the available ring, here its position in the ring; [None]
    is the invalid handle of a default-constructed [Head_desc]. *)
Definition Head_desc : Type := option nat.

(** Modelled from the spec: a call of [finish], for one head with the
    number of bytes written, or for a sequence of (head, length) pairs. *)
Inductive Finish :=
| Finish_head (head : Head_desc) (len : Z)
| Finish_range (entries : list (Head_desc * Z)).

(** Modelled from the spec: the queue is the chains the driver has made
    available so far, the position of the next chain to take, and the
    calls of [finish] seen by the used ring (each one notifies the
    client). *)
Record t := {
  is_ready : bool;
  ring : list Chain;
  current_avail : nat;
  used : list Finish
}.

(** Modelled from the spec: [ready()]. *)
Definition ready (q : t) : bool := is_ready q.

(** Modelled from the spec: [desc_avail()], a chain is available. *)
Definition desc_avail (q : t) : bool :=
  Nat.ltb (current_avail q) (length (ring q)).

(** Modelled from the spec: [next_avail()] gives the next available chain
    with its position, if any, and the position advances. *)
Definition next_avail (q : t) : option (nat * Chain) * t :=
  match ring q !! current_avail q with
  | Some c =>
      (Some (current_avail q, c),
       {| is_ready := is_ready q; ring := ring q;
          current_avail := S (current_avail q); used := used q |})
  | None => (None, q)
  end.

(** Modelled from the spec: [rewind_avail(head)] moves the position back
    to the chain of [head], which is then the next one to be taken again
    (the ring's position is restored to the state before that chain was
    taken). *)
Definition rewind_avail (q : t) (head : Head_desc) : t :=
  match head with
  | Some i =>
      {| is_ready := is_ready q; ring := ring q;
         current_avail := i; used := used q |}
  | None => q
  end.

(** Modelled from the spec: [finish(head, dev, len)]. *)
Definition finish (q : t) (head : Head_desc) (len : Z) : t :=
  {| is_ready := is_ready q; ring := ring q;
     current_avail := current_avail q;
     used := used q ++ [Finish_head head len] |}.

(** Modelled from the spec: [finish(begin, end, dev)]. *)
Definition finish_range (q : t) (entries : list (Head_desc * Z)) : t :=
  {| is_ready := is_ready q; ring := ring q;
     current_avail := current_avail q;
     used := used q ++ [Finish_range entries] |}.

End Virtqueue.

Module Request_processor.

(** Modelled from the spec: [L4virtio::Svr::Request_processor] walks one
    descriptor chain; its state is the descriptors still to be loaded. *)
Record t := { pending : list Virtqueue.Desc }.

(** Modelled from the spec: [Request_processor()]. *)
Definition empty : t := {| pending := [] |}.

(** Modelled from the spec: [start(mem, request, &buf)] loads the head
    descriptor into [buf] and returns the head handle; [Bad_descriptor]
    if the descriptor fails validation. *)
Definition start (r : nat * Virtqueue.Chain)
  : Res (Virtqueue.Head_desc * t * Buffer.t) :=
  match fst (snd r) with
  | Some bs =>
      Ok (Some (fst r), {| pending := snd (snd r) |},
          {| Buffer.pos := Some bs |})
  | None => Throw Bad_descriptor
  end.

(** Modelled from the spec: [next(mem, &buf)] is false at the end of the
    chain, where [buf] is left as it is; otherwise it loads the next
    descriptor into [buf]. *)
Definition next (p : t) (buf : Buffer.t) : Res (bool * t * Buffer.t) :=
  match pending p with
  | [] => Ok (false, p, buf)
  | Some bs :: rest =>
      Ok (true, {| pending := rest |}, {| Buffer.pos := Some bs |})
  | None :: _ => Throw Bad_descriptor
  end.

End Request_processor.

(** ** The virtio-net header (virtio_net.h) *)

Module Virtio_net.

(** Modelled from the spec: virtio_net.h is not among the sources.  The
    header is the first twelve bytes of a frame: flags (u8), gso_type (u8),
    hdr_len, gso_size, csum_start, csum_offset and num_buffers (u16 each).
    The first ten bytes are kept as they are, [num_buffers] as a number. *)
Record Hdr := {
  fields : list Byte.byte;
  num_buffers : Z
}.

(** Modelled from the spec: [sizeof(Virtio_net::Hdr)], the twelve bytes
    of the fields above. *)
Definition Hdr_size : nat := 12.

(** Modelled from the spec: the header a pointer to position [b]
    designates; [num_buffers] is little-endian as in virtio 1.x. *)
Definition Hdr_at (b : Buffer.t) : option Hdr :=
  match Buffer.pos b with
  | Some bs =>
      Some {| fields := take 10%nat bs;
              num_buffers :=
                Z.lor (Buffer.byte_at b 10) (Z.shiftl (Buffer.byte_at b 11) 8) |}
  | None => None
  end.

(** Modelled from the spec: [hdr->num_buffers = n]. *)
Definition set_num_buffers (h : Hdr) (n : Z) : Hdr :=
  {| fields := fields h; num_buffers := n |}.

End Virtio_net.

(** ** VLAN identifiers and tag rewriting (vlan.h) *)

Module Vlan.

(** vlan.h is not among the sources and the specification names the two
    reserved identifiers without giving their values: they are parameters
    of the development. *)
Class Ids := {
  VLAN_ID_NATIVE : Z;
  VLAN_ID_TRUNK : Z
}.

(** Modelled from the spec: valid user-configurable ids are 1..4094 (port.h
    says 0 < id < 0xfff). *)
Definition vlan_valid_id (id : Z) : bool := (0 <? id) && (id <? 0xfff).

(** Modelled from the spec: the tag transform applied while a frame is
    copied is None (verbatim), Insert(vid) or Remove. *)
Inductive Tag_op :=
| Tag_none
| Tag_insert (vid : Z)
| Tag_remove.

(** Modelled from the spec: the mangle is that policy value together with
    a count of the bytes emitted so far. *)
Record Virtio_vlan_mangle := {
  tag_op : Tag_op;
  emitted : nat
}.

(** Modelled from the spec: [Virtio_vlan_mangle()], no transform. *)
Definition none : Virtio_vlan_mangle := {| tag_op := Tag_none; emitted := 0 |}.

(** Modelled from the spec: [Virtio_vlan_mangle::add(vid)]. *)
Definition add (vid : Z) : Virtio_vlan_mangle :=
  {| tag_op := Tag_insert vid; emitted := 0 |}.

(** Modelled from the spec: [Virtio_vlan_mangle::remove()]. *)
Definition remove : Virtio_vlan_mangle := {| tag_op := Tag_remove; emitted := 0 |}.

(** The two member functions that touch frame data are parameters:
    [rewrite_hdr] adjusts the copied header, [copy_pkt m dst src] moves
    bytes from [src] to [dst] and returns the mangle, the two buffers as
    they are afterwards and the number of bytes written to [dst]. *)
Class Copy := {
  rewrite_hdr : Virtio_vlan_mangle -> Virtio_net.Hdr -> Virtio_net.Hdr;
  copy_pkt : Virtio_vlan_mangle -> Buffer.t -> Buffer.t ->
             Virtio_vlan_mangle * Buffer.t * Buffer.t * Z
}.

End Vlan.

(** ** Requests (request.h) *)

Module Virtio_net_request.

Import Vlan.

(** [class Virtio_net_request].  [_queue] is the transmission queue of the
    port [_dev]; [_header] is null in a request that is not valid. *)
Record t := {
  _dev : nat;
  _head : Virtqueue.Head_desc;
  _req_proc : Request_processor.t;
  _header : option Virtio_net.Hdr;
  _pkt : Buffer.t
}.

(** The constructor.  An exception of [start] or [_next_buffer] leaves no
    object behind. *)
Definition create (dev : nat) (req : nat * Virtqueue.Chain) : Res t :=
  match Request_processor.start req with
  | Throw e => Throw e
  | Ok (head, proc, pkt) =>
      let header := Virtio_net.Hdr_at pkt in
      let '(skipped, pkt1) := Buffer.skip Virtio_net.Hdr_size pkt in
      if negb (Nat.eqb skipped Virtio_net.Hdr_size)
      then Ok {| _dev := dev; _head := head; _req_proc := proc;
                 _header := None; _pkt := pkt1 |}
      else if Buffer.done pkt1
      then match Request_processor.next proc pkt1 with
           | Throw e => Throw e
           | Ok (true, proc2, pkt2) =>
               Ok {| _dev := dev; _head := head; _req_proc := proc2;
                     _header := header; _pkt := pkt2 |}
           | Ok (false, proc2, pkt2) =>
               Ok {| _dev := dev; _head := head; _req_proc := proc2;
                     _header := None; _pkt := pkt2 |}
           end
      else Ok {| _dev := dev; _head := head; _req_proc := proc;
                 _header := header; _pkt := pkt1 |}
  end.

Definition valid (r : t) : bool :=
  match _header r with Some _ => true | None => false end.

(** [finish]: [_queue->finish(_head, _dev, 0)], on the queue of the
    request.  The destructor calls it. *)
Definition finish (r : t) (queue : Virtqueue.t) : Virtqueue.t :=
  Virtqueue.finish queue (_head r) 0.

(** [get_request(dev, queue)]: the request and the queue afterwards.  A
    request that is not valid is destroyed before the function returns. *)
Definition get_request (dev : nat) (queue : Virtqueue.t)
  : Res (option t) * Virtqueue.t :=
  if negb (Virtqueue.ready queue) then (Ok None, queue)
  else
    match Virtqueue.next_avail queue with
    | (Some r, queue1) =>
        match create dev r with
        | Throw e => (Throw e, queue1)
        | Ok request =>
            if valid request then (Ok (Some request), queue1)
            else (Ok None, finish request queue1)
        end
    | (None, queue1) => (Ok None, queue1)
    end.

(** The loop of [drop_requests], for at most [n] rounds: each chain taken
    from the ring is started and then finished with no bytes.  An exception
    of [start] leaves the function. *)
Fixpoint drop_loop (n : nat) (queue : Virtqueue.t) : Res unit * Virtqueue.t :=
  match n with
  | O => (Throw Cut_off, queue)
  | S n' =>
      match Virtqueue.next_avail queue with
      | (Some req, queue1) =>
          match Request_processor.start req with
          | Throw e => (Throw e, queue1)
          | Ok (head, _, _) => drop_loop n' (Virtqueue.finish queue1 head 0)
          end
      | (None, queue1) => (Ok tt, queue1)
      end
  end.

(** [drop_requests(dev, queue)], the loop bounded by [fuel] rounds. *)
Definition drop_requests (fuel : nat) (queue : Virtqueue.t)
  : Res unit * Virtqueue.t :=
  if negb (Virtqueue.ready queue) then (Ok tt, queue)
  else drop_loop fuel queue.

Definition first_buffer (r : t) : Buffer.t := _pkt r.

Definition header (r : t) : option Virtio_net.Hdr := _header r.

Definition get_request_processor (r : t) : Request_processor.t := _req_proc r.

Definition dev (r : t) : nat := _dev r.

Definition pos_set (b : Buffer.t) : bool :=
  match Buffer.pos b with Some _ => true | None => false end.

Definition bytes_from (b : Buffer.t) (off : nat) : list Byte.byte :=
  match Buffer.pos b with Some bs => drop off bs | None => [] end.

Definition dst_mac (r : t) : Z :=
  if pos_set (_pkt r) && Nat.leb Mac_addr.Addr_length (Buffer.left (_pkt r))
  then Mac_addr.of_bytes (bytes_from (_pkt r) 0)
  else Mac_addr.Addr_unknown.

Definition src_mac (r : t) : Z :=
  if pos_set (_pkt r)
     && Nat.leb (Mac_addr.Addr_length * 2) (Buffer.left (_pkt r))
  then Mac_addr.of_bytes (bytes_from (_pkt r) Mac_addr.Addr_length)
  else Mac_addr.Addr_unknown.

Definition has_vlan (r : t) : bool :=
  if negb (pos_set (_pkt r)) || Nat.ltb (Buffer.left (_pkt r)) 14
  then false
  else (Buffer.byte_at (_pkt r) 12 =? 0x81)
       && (Buffer.byte_at (_pkt r) 13 =? 0x00).

Definition vlan_id `{Ids} (r : t) : Z :=
  if negb (has_vlan r) || Nat.ltb (Buffer.left (_pkt r)) 16
  then VLAN_ID_NATIVE
  else Z.land (Z.lor (Z.shiftl (Buffer.byte_at (_pkt r) 14) 8)
                     (Buffer.byte_at (_pkt r) 15))
              0xfff.

End Virtio_net_request.

(** ** Transfers (transfer.h) *)

Module Virtio_net_transfer.

Import Vlan.

(** [enum class Result] *)
Inductive Result := Delivered | Exception | Dropped.

(** The local variables of [transfer].  [dst_header] points into the first
    destination buffer; the model keeps the header that is stored there. *)
Record Locals := {
  src_req_proc : Request_processor.t;
  src : Buffer.t;
  dst : Buffer.t;
  total : Z;
  num_merged : Z;
  consumed : list (Virtqueue.Head_desc * Z);
  dst_head : Virtqueue.Head_desc;
  dst_req_proc : Request_processor.t;
  dst_header : option Virtio_net.Hdr;
  mangle : Virtio_vlan_mangle
}.

(** What [transfer] writes to of the destination port: the receive queue
    [dst_queue] and the error state that [dst_dev->device_error()] sets. *)
Record Dst := {
  dst_queue : Virtqueue.t;
  device_error : bool
}.

(** How the function ends: it returns or it throws. *)
Inductive Outcome :=
| Returns (r : Result)
| Throws (e : Exn).

(** How one round of the loop ends. *)
Inductive Step :=
| Continue (l : Locals) (d : Dst)
| Break (l : Locals) (d : Dst)
| Stop (o : Outcome) (l : Locals) (d : Dst).

Definition set_src (l : Locals) (p : Request_processor.t) (b : Buffer.t) : Locals :=
  {| src_req_proc := p; src := b; dst := dst l; total := total l;
     num_merged := num_merged l; consumed := consumed l;
     dst_head := dst_head l; dst_req_proc := dst_req_proc l;
     dst_header := dst_header l; mangle := mangle l |}.

Definition set_dst (l : Locals) (p : Request_processor.t) (b : Buffer.t) : Locals :=
  {| src_req_proc := src_req_proc l; src := src l; dst := b; total := total l;
     num_merged := num_merged l; consumed := consumed l;
     dst_head := dst_head l; dst_req_proc := p;
     dst_header := dst_header l; mangle := mangle l |}.

Definition set_dst_head (l : Locals) (h : Virtqueue.Head_desc) : Locals :=
  {| src_req_proc := src_req_proc l; src := src l; dst := dst l;
     total := total l; num_merged := num_merged l; consumed := consumed l;
     dst_head := h; dst_req_proc := dst_req_proc l;
     dst_header := dst_header l; mangle := mangle l |}.

Definition set_dst_header (l : Locals) (h : Virtio_net.Hdr) (n : Z) : Locals :=
  {| src_req_proc := src_req_proc l; src := src l; dst := dst l;
     total := n; num_merged := num_merged l; consumed := consumed l;
     dst_head := dst_head l; dst_req_proc := dst_req_proc l;
     dst_header := Some h; mangle := mangle l |}.

(** [++num_merged] on a 16-bit counter *)
Definition incr_num_merged (l : Locals) : Locals :=
  {| src_req_proc := src_req_proc l; src := src l; dst := dst l;
     total := total l; num_merged := (num_merged l + 1) mod 65536;
     consumed := consumed l;
     dst_head := dst_head l; dst_req_proc := dst_req_proc l;
     dst_header := dst_header l; mangle := mangle l |}.

Definition set_copied (l : Locals) (m : Virtio_vlan_mangle)
    (d s : Buffer.t) (n : Z) : Locals :=
  {| src_req_proc := src_req_proc l; src := s; dst := d;
     total := total l + n; num_merged := num_merged l; consumed := consumed l;
     dst_head := dst_head l; dst_req_proc := dst_req_proc l;
     dst_header := dst_header l; mangle := m |}.

(** [consumed.push_back(Consumed_entry(dst_head, total))] *)
Definition push_consumed (l : Locals) : Locals :=
  {| src_req_proc := src_req_proc l; src := src l; dst := dst l;
     total := total l; num_merged := num_merged l;
     consumed := consumed l ++ [(dst_head l, total l)];
     dst_head := dst_head l; dst_req_proc := dst_req_proc l;
     dst_header := dst_header l; mangle := mangle l |}.

(** [total = 0; dst_head = Head_desc();] *)
Definition clear_dst_head (l : Locals) : Locals :=
  {| src_req_proc := src_req_proc l; src := src l; dst := dst l;
     total := 0; num_merged := num_merged l; consumed := consumed l;
     dst_head := None; dst_req_proc := dst_req_proc l;
     dst_header := dst_header l; mangle := mangle l |}.

Definition set_queue (d : Dst) (q : Virtqueue.t) : Dst :=
  {| dst_queue := q; device_error := device_error d |}.

(** [dst_dev->device_error()] *)
Definition flag_device_error (d : Dst) : Dst :=
  {| dst_queue := dst_queue d; device_error := true |}.

(** The weight of a descriptor, of a chain and of the work that is left
    for a transfer: every round of the loop makes the latter smaller. *)
Definition desc_weight (x : Virtqueue.Desc) : nat :=
  S (match x with Some bs => length bs | None => 0%nat end).

Definition chain_weight (c : Virtqueue.Chain) : nat :=
  (2 + desc_weight (fst c) + sum_list (desc_weight <$> snd c))%nat.

Definition work_left (l : Locals) (d : Dst) : nat :=
  (Buffer.left (src l)
   + sum_list (desc_weight <$> Request_processor.pending (src_req_proc l))
   + match dst_head l with
     | Some _ =>
         1 + Buffer.left (dst l)
         + sum_list (desc_weight <$> Request_processor.pending (dst_req_proc l))
     | None => 0
     end
   + sum_list (chain_weight
                 <$> drop (Virtqueue.current_avail (dst_queue d))
                       (Virtqueue.ring (dst_queue d))))%nat.

Section Transfer.

Context `{Copy}.

(** True when the program is built without assertions. *)
Variable NDEBUG : bool.

(** The head of the loop: [None] when the request is completely copied
    and the loop is left. *)
Definition next_src (l : Locals) : Res (option Locals) :=
  if Buffer.done (src l)
  then match Request_processor.next (src_req_proc l) (src l) with
       | Throw e => Throw e
       | Ok (true, p, b) => Ok (Some (set_src l p b))
       | Ok (false, _, _) => Ok None
       end
  else Ok (Some l).

(** The handler of a bad source descriptor: rewind a partial transfer. *)
Definition rewind_partial (l : Locals) (q : Virtqueue.t) : Virtqueue.t :=
  match consumed l with
  | c :: _ => Virtqueue.rewind_avail q (fst c)
  | [] =>
      match dst_head l with
      | Some _ => Virtqueue.rewind_avail q (dst_head l)
      | None => q
      end
  end.

(** [if (!dst_head) { ... }]: take the next destination chain and, for the
    first one, fill in the header. *)
Definition next_dst_head (request : Virtio_net_request.t)
    (l : Locals) (d : Dst) : Step :=
  match dst_head l with
  | Some _ => Continue l d
  | None =>
      if negb (Virtqueue.ready (dst_queue d))
      then Stop (Returns Dropped) l d
      else
        match Virtqueue.next_avail (dst_queue d) with
        | (None, q) =>
            Stop (Returns Dropped) l
              (set_queue d match consumed l with
                           | c :: _ => Virtqueue.rewind_avail q (fst c)
                           | [] => q
                           end)
        | (Some r, q) =>
            match Request_processor.start r with
            | Throw _ =>
                Stop (Returns Exception) l (flag_device_error (set_queue d q))
            | Ok (head, proc, buf) =>
                let l1 := set_dst (set_dst_head l head) proc buf in
                match dst_header l1 with
                | Some _ => Continue (incr_num_merged l1) (set_queue d q)
                | None =>
                    if Nat.ltb (Buffer.left buf) Virtio_net.Hdr_size
                    then Stop (Throws Runtime_error) l1 (set_queue d q)
                    else
                      match Virtio_net_request.header request with
                      | None => Stop (Throws Bad_pointer) l1 (set_queue d q)
                      | Some h =>
                          let l2 :=
                            set_dst_header l1 (rewrite_hdr (mangle l1) h)
                              (Z.of_nat Virtio_net.Hdr_size) in
                          let l3 :=
                            set_dst l2 (dst_req_proc l2)
                              (snd (Buffer.skip Virtio_net.Hdr_size (dst l2))) in
                          Continue (incr_num_merged l3) (set_queue d q)
                      end
                end
            end
        end
  end.

(** The rest of the round: advance the destination chain, then copy or
    put the exhausted chain aside. *)
Definition copy_or_save (l : Locals) (d : Dst) : Step :=
  match Request_processor.next (dst_req_proc l) (dst l) with
  | Throw _ => Stop (Returns Exception) l (flag_device_error d)
  | Ok (has_next_dst_buffer, p, b) =>
      let l1 := set_dst l p b in
      if negb (Buffer.done (dst l1)) || has_next_dst_buffer
      then
        let '(m, dst', src', n) := copy_pkt (mangle l1) (dst l1) (src l1) in
        Continue (set_copied l1 m dst' src' n) d
      else Continue (clear_dst_head (push_consumed l1)) d
  end.

(** One round of [for (;;)]. *)
Definition round (request : Virtio_net_request.t) (l : Locals) (d : Dst) : Step :=
  match next_src l with
  | Throw e => Stop (Throws e) l (set_queue d (rewind_partial l (dst_queue d)))
  | Ok None => Break l d
  | Ok (Some l1) =>
      match next_dst_head request l1 d with
      | Continue l2 d2 => copy_or_save l2 d2
      | s => s
      end
  end.

(** After the loop: finalize the delivery. *)
Definition finalize (l : Locals) (d : Dst) : Outcome * Locals * Dst :=
  match dst_header l with
  | None => (Returns Dropped, l, d)
  | Some h =>
      match consumed l with
      | [] =>
          match assert NDEBUG (bool_decide (is_Some (dst_head l))) with
          | Throw e => (Throws e, l, d)
          | Ok _ =>
              match assert NDEBUG (num_merged l =? 1) with
              | Throw e => (Throws e, l, d)
              | Ok _ =>
                  let l1 := set_dst_header l (Virtio_net.set_num_buffers h 1)
                              (total l) in
                  (Returns Delivered, l1,
                   set_queue d (Virtqueue.finish (dst_queue d) (dst_head l) (total l)))
              end
          end
      | _ :: _ =>
          match assert NDEBUG (bool_decide (is_Some (dst_head l))) with
          | Throw e => (Throws e, l, d)
          | Ok _ =>
              let l1 := set_dst_header l
                          (Virtio_net.set_num_buffers h (num_merged l)) (total l) in
              let l2 := push_consumed l1 in
              (Returns Delivered, l2,
               set_queue d (Virtqueue.finish_range (dst_queue d) (consumed l2)))
          end
      end
  end.

(** The loop, for at most [fuel] rounds. *)
Fixpoint loop (fuel : nat) (request : Virtio_net_request.t)
    (l : Locals) (d : Dst) : Outcome * Locals * Dst :=
  match fuel with
  | O => (Throws Cut_off, l, d)
  | S fuel' =>
      match round request l d with
      | Continue l' d' => loop fuel' request l' d'
      | Break l' d' => finalize l' d'
      | Stop o l' d' => (o, l', d')
      end
  end.

(** The locals at the start of the function. *)
Definition start (request : Virtio_net_request.t) (m : Virtio_vlan_mangle) : Locals :=
  {| src_req_proc := Virtio_net_request.get_request_processor request;
     src := Virtio_net_request.first_buffer request;
     dst := Buffer.empty;
     total := 0;
     num_merged := 0;
     consumed := [];
     dst_head := None;
     dst_req_proc := Request_processor.empty;
     dst_header := None;
     mangle := m |}.

(** [transfer(request, dst_dev, dst_queue, mangle)] *)
Definition transfer (fuel : nat) (request : Virtio_net_request.t)
    (d : Dst) (m : Virtio_vlan_mangle) : Outcome * Locals * Dst :=
  loop fuel request (start request m) d.

(** The state after [n] complete rounds, if the loop is still running. *)
Fixpoint rounds (n : nat) (request : Virtio_net_request.t)
    (l : Locals) (d : Dst) : option (Locals * Dst) :=
  match n with
  | O => Some (l, d)
  | S n' =>
      match round request l d with
      | Continue l' d' => rounds n' request l' d'
      | _ => None
      end
  end.

(** What the loop needs of [copy_pkt]: it does not make a buffer longer,
    and it moves on when both buffers have bytes left. *)
Definition copy_progress : Prop :=
  forall m dst src,
    let '(_, dst', src', _) := copy_pkt m dst src in
    (Buffer.left dst' <= Buffer.left dst)%nat
    /\ (Buffer.left src' <= Buffer.left src)%nat
    /\ ((0 < Buffer.left dst)%nat -> (0 < Buffer.left src)%nat ->
        (Buffer.left dst' + Buffer.left src'
         < Buffer.left dst + Buffer.left src)%nat).

(** The number of chains that are available in the queue of [d]. *)
Definition available (d : Dst) : nat :=
  (length (Virtqueue.ring (dst_queue d))
   - Virtqueue.current_avail (dst_queue d))%nat.

(** The number of destination chains taken from the ring so far. *)
Definition has_head (l : Locals) : nat :=
  match dst_head l with Some _ => 1%nat | None => 0%nat end.

Definition chains_taken (l : Locals) : nat :=
  (length (consumed l) + has_head l)%nat.

(** The invariant of the loop, for the destination [d0] the function was
    called with: the chains taken are the ones from the position of [d0]
    on, in order, and nothing else of the destination has changed. *)
Record transfer_inv (d0 : Dst) (l : Locals) (d : Dst) : Prop := {
  ti_error : device_error d = device_error d0;
  ti_ready : Virtqueue.is_ready (dst_queue d) = Virtqueue.is_ready (dst_queue d0);
  ti_ring : Virtqueue.ring (dst_queue d) = Virtqueue.ring (dst_queue d0);
  ti_used : Virtqueue.used (dst_queue d) = Virtqueue.used (dst_queue d0);
  ti_avail : Virtqueue.current_avail (dst_queue d)
             = (Virtqueue.current_avail (dst_queue d0) + chains_taken l)%nat;
  ti_heads : (consumed l).*1
             = Some <$> seq (Virtqueue.current_avail (dst_queue d0))
                            (length (consumed l));
  ti_head : forall h, dst_head l = Some h ->
            h = (Virtqueue.current_avail (dst_queue d0) + length (consumed l))%nat;
  ti_merged : num_merged l = Z.of_nat (chains_taken l) mod 65536;
  ti_count : (chains_taken l
              <= length (Virtqueue.ring (dst_queue d0))
                 - Virtqueue.current_avail (dst_queue d0))%nat;
  ti_header : is_Some (dst_header l) <-> (0 < chains_taken l)%nat;
  ti_started : (0 < chains_taken l)%nat ->
               Virtqueue.is_ready (dst_queue d0) = true
}.

(** What a receiver sees of a delivered frame, when [d0] is the
    destination before the transfer and [l'], [d'] are the locals and the
    destination after it: [n] chains were taken from the ring, the used
    ring got one more call of [finish], and the header in the first chain
    tells [n].  With one chain the call is for that chain and the counter
    of merged chains is 1; with more, the sequence starts with the heads
    of the [n] chains. *)
Definition delivered (d0 : Dst) (l' : Locals) (d' : Dst) : Prop :=
  exists (n : nat) (hdr : Virtio_net.Hdr) (ev : Virtqueue.Finish),
    (1 <= n)%nat
    /\ Virtqueue.current_avail (dst_queue d')
       = (Virtqueue.current_avail (dst_queue d0) + n)%nat
    /\ Virtqueue.used (dst_queue d') = Virtqueue.used (dst_queue d0) ++ [ev]
    /\ dst_header l' = Some hdr
    /\ Virtio_net.num_buffers hdr = Z.of_nat n
    /\ match ev with
       | Virtqueue.Finish_head h _ =>
           n = 1%nat /\ num_merged l' = 1
           /\ h = Some (Virtqueue.current_avail (dst_queue d0))
       | Virtqueue.Finish_range es =>
           take n es.*1
           = Some <$> seq (Virtqueue.current_avail (dst_queue d0)) n
           /\ (NDEBUG = false -> length es = n)
       end.

(** What is left of the destination [d0] after one of its descriptors
    failed validation, with the locals [l'] of that moment: the device
    error is flagged, nothing was finished, and the chains taken for the
    frame were not given back: the position of the queue is behind the
    chains that were put aside and behind the one whose descriptor
    failed. *)
Definition failed (d0 : Dst) (l' : Locals) (d' : Dst) : Prop :=
  device_error d' = true
  /\ Virtqueue.is_ready (dst_queue d') = Virtqueue.is_ready (dst_queue d0)
  /\ Virtqueue.used (dst_queue d') = Virtqueue.used (dst_queue d0)
  /\ Virtqueue.ring (dst_queue d') = Virtqueue.ring (dst_queue d0)
  /\ Virtqueue.current_avail (dst_queue d')
     = (Virtqueue.current_avail (dst_queue d0) + length (consumed l') + 1)%nat.

End Transfer.

End Virtio_net_transfer.

(** ** Ports (port.h) *)

Module Virtio_port.

Import Vlan.

(** [class Virtio_port]: the VLAN configuration, the MAC address, and of
    the base class [Virtio_net] the two queues and the error state. *)
Record t := {
  _vlan_id : Z;
  _vlan_bloom_filter : Z;
  _vlan_ids : gset Z;
  _mac : Z;
  tx_q : Virtqueue.t;
  rx_q : Virtqueue.t;
  device_failed : bool
}.

Definition set_vlan (p : t) (id filter : Z) (ids : gset Z) : t :=
  {| _vlan_id := id; _vlan_bloom_filter := filter; _vlan_ids := ids;
     _mac := _mac p; tx_q := tx_q p; rx_q := rx_q p;
     device_failed := device_failed p |}.

Definition set_tx_q (p : t) (q : Virtqueue.t) : t :=
  {| _vlan_id := _vlan_id p; _vlan_bloom_filter := _vlan_bloom_filter p;
     _vlan_ids := _vlan_ids p; _mac := _mac p; tx_q := q; rx_q := rx_q p;
     device_failed := device_failed p |}.

Definition set_rx (p : t) (d : Virtio_net_transfer.Dst) : t :=
  {| _vlan_id := _vlan_id p; _vlan_bloom_filter := _vlan_bloom_filter p;
     _vlan_ids := _vlan_ids p; _mac := _mac p; tx_q := tx_q p;
     rx_q := Virtio_net_transfer.dst_queue d;
     device_failed := Virtio_net_transfer.device_error d |}.

(** What a delivery to a port leaves as it is: all but the receive queue
    and the error state. *)
Definition same_but_rx (p p' : t) : Prop :=
  _vlan_id p' = _vlan_id p
  /\ _vlan_bloom_filter p' = _vlan_bloom_filter p
  /\ _vlan_ids p' = _vlan_ids p
  /\ _mac p' = _mac p
  /\ tx_q p' = tx_q p.

(** [vlan_bloom_hash]: [1UL << (vid & 31U)] *)
Definition vlan_bloom_hash (vid : Z) : Z := Z.shiftl 1 (Z.land vid 31).

Section Port.

Context `{Ids}.

(** The queues of a port whose driver has not set them up yet. *)
Definition queue_new : Virtqueue.t :=
  {| Virtqueue.is_ready := false; Virtqueue.ring := [];
     Virtqueue.current_avail := 0%nat; Virtqueue.used := [] |}.

(** The constructor: a native port, with the given MAC address if there
    is one. *)
Definition create (mac : option (list Byte.byte)) : t :=
  {| _vlan_id := VLAN_ID_NATIVE;
     _vlan_bloom_filter := 0;
     _vlan_ids := ∅;
     _mac := match mac with
             | Some bs => Mac_addr.of_bytes bs
             | None => Mac_addr.Addr_unknown
             end;
     tx_q := queue_new; rx_q := queue_new; device_failed := false |}.

Definition get_vlan (p : t) : Z := _vlan_id p.

Definition is_trunk (p : t) : bool := _vlan_id p =? VLAN_ID_TRUNK.

Definition is_native (p : t) : bool := _vlan_id p =? VLAN_ID_NATIVE.

Definition is_access (p : t) : bool := negb (is_trunk p) && negb (is_native p).

Definition mac (p : t) : Z := _mac p.

(** True when the program is built without assertions. *)
Variable NDEBUG : bool.

Definition set_vlan_access (p : t) (id : Z) : Res t :=
  match assert NDEBUG (vlan_valid_id id) with
  | Throw e => Throw e
  | Ok _ => Ok (set_vlan p id 0 ∅)
  end.

(** The loop of [set_vlan_trunk] over the given ids. *)
Fixpoint trunk_ids (ids : list Z) (filter : Z) (set : gset Z)
  : Res (Z * gset Z) :=
  match ids with
  | [] => Ok (filter, set)
  | id :: ids' =>
      match assert NDEBUG (vlan_valid_id id) with
      | Throw e => Throw e
      | Ok _ => trunk_ids ids' (Z.lor filter (vlan_bloom_hash id)) ({[id]} ∪ set)
      end
  end.

Definition set_vlan_trunk (p : t) (ids : list Z) : Res t :=
  match trunk_ids ids 0 ∅ with
  | Throw e => Throw e
  | Ok (filter, set) => Ok (set_vlan p VLAN_ID_TRUNK filter set)
  end.

(** [set_monitor]: [_vlan_ids] is left as it is. *)
Definition set_monitor (p : t) : t :=
  set_vlan p VLAN_ID_TRUNK 0 (_vlan_ids p).

Definition match_vlan (p : t) (id : Z) : bool :=
  if id =? _vlan_id p then true
  else if Z.land (_vlan_bloom_filter p) (vlan_bloom_hash id) =? 0 then false
  else bool_decide (id ∈ _vlan_ids p).

Definition tx_work_pending (p : t) : bool :=
  Virtqueue.ready (tx_q p) && Virtqueue.desc_avail (tx_q p).

(** [get_tx_request], for the port at address [self].  A request that is
    fetched and then not returned is destroyed, which finishes it. *)
Definition get_tx_request (self : nat) (p : t)
  : Res (option Virtio_net_request.t) * t :=
  match Virtio_net_request.get_request self (tx_q p) with
  | (Throw e, q) => (Throw e, set_tx_q p q)
  | (Ok None, q) => (Ok None, set_tx_q p q)
  | (Ok (Some ret), q) =>
      if is_trunk p
      then
        if bool_decide (Virtio_net_request.vlan_id ret ∈ _vlan_ids p)
        then (Ok (Some ret), set_tx_q p q)
        else (Ok None, set_tx_q p (Virtio_net_request.finish ret q))
      else if is_access p && Virtio_net_request.has_vlan ret
      then (Ok None, set_tx_q p (Virtio_net_request.finish ret q))
      else (Ok (Some ret), set_tx_q p q)
  end.

(** [drop_requests]: on the transmission queue of the port. *)
Definition drop_requests (fuel : nat) (p : t) : Res unit * t :=
  let '(r, q) := Virtio_net_request.drop_requests fuel (tx_q p) in
  (r, set_tx_q p q).

(** Modelled from the spec: [device_error()] of the base class flags the
    device error of the port. *)
Definition device_error (p : t) : t :=
  {| _vlan_id := _vlan_id p; _vlan_bloom_filter := _vlan_bloom_filter p;
     _vlan_ids := _vlan_ids p; _mac := _mac p; tx_q := tx_q p; rx_q := rx_q p;
     device_failed := true |}.

(** The first part of [handle_request]: the mangle for a request that goes
    from [src_port] to this port. *)
Definition request_mangle (p src_port : t) : Virtio_vlan_mangle :=
  if is_trunk p
  then
    if negb (is_trunk src_port) && negb (is_native src_port)
    then add (_vlan_id src_port)
    else none
  else
    if is_trunk src_port then remove else none.

(** The wording of the specification for that mangle: Insert(source vid)
    when the destination is Trunk and the source is Access; None when the
    destination is Trunk and the source is Trunk or Native; Remove when
    the destination is not Trunk and the source is Trunk; None otherwise. *)
Definition mangle_spec (p src_port : t) : Virtio_vlan_mangle :=
  if is_trunk p && is_access src_port then add (get_vlan src_port)
  else if is_trunk p && (is_trunk src_port || is_native src_port) then none
  else if negb (is_trunk p) && is_trunk src_port then remove
  else none.

Context `{Copy}.

(** [handle_request]: the outcome of the transfer and the port
    afterwards.  The three results of [transfer] all lead to a plain
    return. *)
Definition handle_request (fuel : nat) (p src_port : t)
    (request : Virtio_net_request.t)
  : Virtio_net_transfer.Outcome * t :=
  let mangle := request_mangle p src_port in
  let '(o, _, d) :=
    Virtio_net_transfer.transfer NDEBUG fuel request
      {| Virtio_net_transfer.dst_queue := rx_q p;
         Virtio_net_transfer.device_error := device_failed p |} mangle in
  (o, set_rx p d).

End Port.

End Virtio_port.

(** ** The switch (switch.cc, switch.h) *)

Module Virtio_switch.

Import Vlan.

(** [class Virtio_switch]; the MAC table has the default size. *)
Record t := {
  _ports : list (option nat);
  _monitor : option nat;
  _max_ports : nat;
  _max_used : nat;
  _mac_table : Mac_table.t
}.

Definition Mac_table_size : nat := 1024.

(** The three places where [handle_tx_queue] calls [handle_request]: on the
    target the MAC table gives, in the loop over the port array, and on
    the monitor port. *)
Inductive Call_site := Unicast | Flood | Mirror.

(** One call [target->handle_request(src_port, request)]: where it was
    made and how the transfer ended. *)
Record Call := {
  call_site : Call_site;
  call_target : nat;
  call_src_port : nat;
  call_outcome : Virtio_net_transfer.Outcome
}.

(** The port objects, by address, and the calls of [handle_request] made
    so far, oldest first. *)
Record World := {
  ports : gmap nat Virtio_port.t;
  calls : list Call
}.

Definition set_port (w : World) (a : nat) (p : Virtio_port.t) : World :=
  {| ports := <[a := p]> (ports w); calls := calls w |}.

Definition log_call (w : World) (c : Call) : World :=
  {| ports := ports w; calls := calls w ++ [c] |}.

Definition set_mac_table (sw : t) (tbl : Mac_table.t) : t :=
  {| _ports := _ports sw; _monitor := _monitor sw;
     _max_ports := _max_ports sw; _max_used := _max_used sw;
     _mac_table := tbl |}.

(** [Virtio_switch(max_ports)].  The constructor leaves [_monitor] as it
    is; the model starts without a monitor port. *)
Definition create (max_ports : nat) : t :=
  {| _ports := replicate max_ports None;
     _monitor := None;
     _max_ports := max_ports;
     _max_used := 0%nat;
     _mac_table := Mac_table.create Mac_table_size |}.

(** [lookup_free_slot]: [None] stands for -1. *)
Definition lookup_free_slot (sw : t) : option nat :=
  (list_find (fun s : option nat => s = None) (take (_max_ports sw) (_ports sw)))
    ≫= (fun r => Some (fst r)).

(** [port_available(monitor)]: [None] stands for -1. *)
Definition port_available (sw : t) (monitor : bool) : option nat :=
  if monitor
  then match _monitor sw with
       | None => Some 0%nat
       | Some _ => None
       end
  else lookup_free_slot sw.

(** The test of [add_port] for a MAC address that is in use already. *)
Definition mac_in_use (sw : t) (w : World) (m : Z) : bool :=
  existsb (fun s : option nat =>
             match s with
             | Some a =>
                 match ports w !! a with
                 | Some p => Virtio_port.mac p =? m
                 | None => false
                 end
             | None => false
             end)
          (take (_max_ports sw) (_ports sw)).

(** [add_port(port)]: the result and the switch afterwards. *)
Definition add_port (sw : t) (w : World) (port : nat) : Res (bool * t) :=
  match ports w !! port with
  | None => Throw Bad_pointer
  | Some p =>
      if negb (Mac_addr.is_unknown (Virtio_port.mac p))
         && mac_in_use sw w (Virtio_port.mac p)
      then Ok (false, sw)
      else
        match lookup_free_slot sw with
        | None => Ok (false, sw)
        | Some uidx =>
            Ok (true,
                {| _ports := <[uidx := Some port]> (_ports sw);
                   _monitor := _monitor sw;
                   _max_ports := _max_ports sw;
                   _max_used := if Nat.eqb (_max_used sw) uidx
                                then S (_max_used sw) else _max_used sw;
                   _mac_table := _mac_table sw |})
        end
  end.

(** [add_monitor_port(port)] *)
Definition add_monitor_port (sw : t) (port : nat) : bool * t :=
  match _monitor sw with
  | None =>
      (true,
       {| _ports := _ports sw; _monitor := Some port;
          _max_ports := _max_ports sw; _max_used := _max_used sw;
          _mac_table := _mac_table sw |})
  | Some _ => (false, sw)
  end.

Section Switch.

Context `{Ids} `{Copy}.

(** True when the program is built without assertions. *)
Variable NDEBUG : bool.

(** filter.h is not among the sources: the filter hook is a parameter; it
    is true for a request that must not be mirrored. *)
Variable filter_request : Virtio_net_request.t -> bool.

(** The bound on the rounds of each transfer loop. *)
Variable fuel : nat.

(** The test of [check_ports] for a port whose client has gone (the port
    has a capability and its validation fails); capabilities are not part
    of the model. *)
Variable gone : nat -> bool.

(** The body of the first loop of [check_ports] for the slot [idx]. *)
Definition check_slot (idx : nat) (sw : t) (w : World) : t * World :=
  match _ports sw !! idx with
  | Some (Some port) =>
      if gone port
      then
        ({| _ports := <[idx := None]> (_ports sw);
            _monitor := _monitor sw;
            _max_ports := _max_ports sw;
            _max_used := if Nat.eqb idx (_max_used sw - 1)
                         then (_max_used sw - 1)%nat else _max_used sw;
            _mac_table :=
              Mac_table.flush
                (merge_sort Z.le (map_to_list (Mac_table._mac_table (_mac_table sw))).*1)
                (_mac_table sw) (Some port) |},
         {| ports := delete port (ports w); calls := calls w |})
      else (sw, w)
  | _ => (sw, w)
  end.

Fixpoint check_slots (n idx : nat) (sw : t) (w : World) : t * World :=
  match n with
  | O => (sw, w)
  | S n' =>
      if Nat.ltb idx (_max_used sw)
      then let '(sw', w') := check_slot idx sw w in check_slots n' (S idx) sw' w'
      else (sw, w)
  end.

(** [check_ports] *)
Definition check_ports (sw : t) (w : World) : t * World :=
  let '(sw1, w1) := check_slots (_max_used sw) 0 sw w in
  match _monitor sw1 with
  | Some m =>
      if gone m
      then ({| _ports := _ports sw1; _monitor := None;
               _max_ports := _max_ports sw1; _max_used := _max_used sw1;
               _mac_table := _mac_table sw1 |},
            {| ports := delete m (ports w1); calls := calls w1 |})
      else (sw1, w1)
  | None => (sw1, w1)
  end.

(** [target->handle_request(port, request)] on the store, called at
    [site]: the call is recorded, the target port is updated, an exception
    is passed on. *)
Definition handle_request (site : Call_site) (target port : nat)
    (request : Virtio_net_request.t) (w : World) : Res unit * World :=
  match ports w !! target, ports w !! port with
  | Some p, Some src_port =>
      let '(o, p') := Virtio_port.handle_request NDEBUG fuel p src_port request in
      let w' := log_call (set_port w target p')
                  {| call_site := site; call_target := target;
                     call_src_port := port; call_outcome := o |} in
      match o with
      | Virtio_net_transfer.Returns _ => (Ok tt, w')
      | Virtio_net_transfer.Throws e => (Throw e, w')
      end
  | _, _ =>
      (Throw Bad_pointer,
       log_call w {| call_site := site; call_target := target;
                     call_src_port := port;
                     call_outcome := Virtio_net_transfer.Throws Bad_pointer |})
  end.

(** "Send a copy to the monitor port" *)
Definition mirror (sw : t) (port : nat) (request : Virtio_net_request.t)
    (w : World) : Res unit * World :=
  match _monitor sw with
  | Some m =>
      if negb (filter_request request)
      then handle_request Mirror m port request w
      else (Ok tt, w)
  | None => (Ok tt, w)
  end.

(** The loop over the port array, from the slot the list starts with: it
    ends at the end of the list and at the first empty slot. *)
Fixpoint flood (slots : list (option nat)) (port : nat) (vlan : Z)
    (request : Virtio_net_request.t) (w : World) : Res unit * World :=
  match slots with
  | [] => (Ok tt, w)
  | None :: _ => (Ok tt, w)
  | Some target :: rest =>
      if decide (target = port) then flood rest port vlan request w
      else
        match ports w !! target with
        | None => (Throw Bad_pointer, w)
        | Some p =>
            if Virtio_port.match_vlan p vlan
            then match handle_request Flood target port request w with
                 | (Ok _, w') => flood rest port vlan request w'
                 | (Throw e, w') => (Throw e, w')
                 end
            else flood rest port vlan request w
        end
  end.

(** The forwarding decision of [handle_tx_queue] for a request of [port]
    with destination [dst] in VLAN [vlan]. *)
Definition forward (sw : t) (port : nat) (request : Virtio_net_request.t)
    (dst vlan : Z) (w : World) : Res unit * World :=
  match (if negb (Mac_addr.is_broadcast dst)
         then Mac_table.lookup (_mac_table sw) dst else None) with
  | Some target =>
      if decide (target = port) then (Ok tt, w)
      else
        match ports w !! target with
        | None => (Throw Bad_pointer, w)
        | Some p =>
            if Virtio_port.match_vlan p vlan
            then match handle_request Unicast target port request w with
                 | (Ok _, w') => mirror sw port request w'
                 | (Throw e, w') => (Throw e, w')
                 end
            else (Ok tt, w)
        end
  | None =>
      match flood (take (_max_used sw) (_ports sw)) port vlan request w with
      | (Ok _, w') => mirror sw port request w'
      | (Throw e, w') => (Throw e, w')
      end
  end.

(** The destructor of the request at the end of [handle_tx_queue], also
    when an exception leaves the function. *)
Definition destroy (request : Virtio_net_request.t) (r : Res unit)
    (w : World) : World :=
  let run :=
    match r with
    | Ok _ => true
    | Throw e => unwinds e
    end in
  match ports w !! Virtio_net_request.dev request with
  | Some p =>
      if run
      then set_port w (Virtio_net_request.dev request)
             (Virtio_port.set_tx_q p
                (Virtio_net_request.finish request (Virtio_port.tx_q p)))
      else w
  | None => w
  end.

(** [handle_tx_queue(port)] *)
Definition handle_tx_queue (sw : t) (port : nat) (w : World)
  : Res unit * t * World :=
  match ports w !! port with
  | None => (Throw Bad_pointer, sw, w)
  | Some p =>
      match Virtio_port.get_tx_request port p with
      | (Throw e, p') => (Throw e, sw, set_port w port p')
      | (Ok None, p') => (Ok tt, sw, set_port w port p')
      | (Ok (Some request), p') =>
          let w1 := set_port w port p' in
          let src := Virtio_net_request.src_mac request in
          let sw1 :=
            set_mac_table sw
              (Mac_table.learn Mac_table_size (_mac_table sw) src (Some port)) in
          let dst := Virtio_net_request.dst_mac request in
          let vlan :=
            if Virtio_net_request.has_vlan request
            then Virtio_net_request.vlan_id request
            else Virtio_port.get_vlan p' in
          let '(r, w2) := forward sw1 port request dst vlan w1 in
          (r, sw1, destroy request r w2)
      end
  end.

(** The loop [while (port->tx_work_pending()) handle_tx_queue(port)] of
    [handle_port_irq], for at most [n] rounds. *)
Fixpoint tx_loop (n : nat) (sw : t) (port : nat) (w : World)
  : Res unit * t * World :=
  match n with
  | O => (Throw Cut_off, sw, w)
  | S n' =>
      match ports w !! port with
      | None => (Throw Bad_pointer, sw, w)
      | Some p =>
          if Virtio_port.tx_work_pending p
          then match handle_tx_queue sw port w with
               | (Ok _, sw', w') => tx_loop n' sw' port w'
               | (Throw e, sw', w') => (Throw e, sw', w')
               end
          else (Ok tt, sw, w)
      end
  end.

(** The [try] block of [handle_port_irq] with its handler: a
    [Bad_descriptor] of the source port flags the device error of that
    port, and the function returns; every other exception is passed on.
    The notifications of the queues and of the other ports, which the
    function switches off and on around this block, are not part of the
    model. *)
Definition try_tx (n : nat) (sw : t) (port : nat) (w : World)
  : Res unit * t * World :=
  match tx_loop n sw port w with
  | (Throw Bad_descriptor, sw', w') =>
      match ports w' !! port with
      | Some p => (Ok tt, sw', set_port w' port (Virtio_port.device_error p))
      | None => (Throw Bad_pointer, sw', w')
      end
  | r => r
  end.

End Switch.

(** Two stores with the same ports, which differ in their receive queues
    and error states at most. *)
Definition same_ports (w w' : World) : Prop :=
  forall a, option_Forall2 Virtio_port.same_but_rx (ports w !! a) (ports w' !! a).

(** A queue after one more chain was taken from it and the calls [us] of
    [finish] were made. *)
Definition taken (q : Virtqueue.t) (us : list Virtqueue.Finish) : Virtqueue.t :=
  {| Virtqueue.is_ready := Virtqueue.is_ready q;
     Virtqueue.ring := Virtqueue.ring q;
     Virtqueue.current_avail := S (Virtqueue.current_avail q);
     Virtqueue.used := Virtqueue.used q ++ us |}.

(** The calls of [finish] a source port sees for the chain at position
    [cur] when [get_tx_request] has ended with [got] and [handle_tx_queue]
    ends with [r]: the chain is finished with zero bytes, once, on a return
    and when an exception destroys the request; not when the program
    stops.  [Bad_descriptor] destroys the request, and so finishes the
    chain, unless it comes from [get_tx_request] itself: then the
    constructor of the request has thrown it, there is no request, and
    nothing is finished. *)
Definition returned (got : Res (option Virtio_net_request.t)) (r : Res unit)
    (cur : nat) (us : list Virtqueue.Finish) : Prop :=
  match r with
  | Ok _ | Throw Runtime_error => us = [Virtqueue.Finish_head (Some cur) 0]
  | Throw Bad_descriptor =>
      match got with
      | Ok _ => us = [Virtqueue.Finish_head (Some cur) 0]
      | Throw _ => us = []
      end
  | Throw _ => us = []
  end.

(** The slots of the port array as [add_port] and [check_ports] keep
    them: the array has [_max_ports] slots and every port is in a slot
    below [_max_used]. *)
Record slots_inv (sw : t) : Prop := {
  si_length : length (_ports sw) = _max_ports sw;
  si_max : (_max_used sw <= _max_ports sw)%nat;
  si_used : forall i a, _ports sw !! i = Some (Some a) -> (i < _max_used sw)%nat
}.

(** No two slots hold ports with the same known MAC address. *)
Definition macs_distinct (sw : t) (w : World) : Prop :=
  forall i j a b pa pb,
    i <> j ->
    _ports sw !! i = Some (Some a) -> _ports sw !! j = Some (Some b) ->
    ports w !! a = Some pa -> ports w !! b = Some pb ->
    Mac_addr.is_unknown (Virtio_port.mac pa) = false ->
    Virtio_port.mac pa <> Virtio_port.mac pb.

(** A slot after [check_ports]: a port whose client has gone is removed. *)
Definition checked (gone : nat -> bool) (s : option nat) : option nat :=
  s ≫= fun a => if gone a then None else Some a.

(** The state of the first loop of [check_ports], started on the switch
    [sw0] and the store [w0], when the slots below [idx] are done: these
    slots are checked and their ports destroyed, the other slots are as
    they were. *)
Record check_inv (gone : nat -> bool) (sw0 : t) (w0 : World)
    (idx : nat) (sw : t) (w : World) : Prop := {
  ci_slots : slots_inv sw;
  ci_monitor : _monitor sw = _monitor sw0;
  ci_max_ports : _max_ports sw = _max_ports sw0;
  ci_ports : forall i,
    _ports sw !! i
    = if Nat.ltb i idx then checked gone <$> (_ports sw0 !! i)
      else _ports sw0 !! i;
  ci_world : forall a,
    ports w !! a
    = if gone a && bool_decide (Some a ∈ take idx (_ports sw0))
      then None else ports w0 !! a;
  ci_calls : calls w = calls w0
}.

(** The MAC table at that point: the ports removed so far are flushed. *)
Record check_table (gone : nat -> bool) (sw0 : t)
    (idx : nat) (sw : t) : Prop := {
  ct_reach : Mac_table.reachable Mac_table_size (_mac_table sw);
  ct_table : forall addr,
    Mac_table.lookup (_mac_table sw) addr
    = match Mac_table.lookup (_mac_table sw0) addr with
      | Some q =>
          if gone q && bool_decide (Some q ∈ take idx (_ports sw0))
          then None else Some q
      | None => None
      end
}.

(** What [handle_tx_queue] for [port] may call: any port but [port] where
    the MAC table gives the target and in the loop over the port array,
    the monitor port for the mirror. *)
Definition allowed_call (sw : t) (port : nat) (c : Call) : Prop :=
  call_src_port c = port
  /\ match call_site c with
     | Mirror => _monitor sw = Some (call_target c)
     | _ => call_target c <> port
     end.

End Virtio_switch.

(** ** A small installation

    Concrete values for the parameters and a switch with three native
    ports, used to run the model. *)

Module Scenario.

Import Vlan.

Definition ids : Ids := {| VLAN_ID_NATIVE := 0xffff; VLAN_ID_TRUNK := 0xfffe |}.

(** A [copy_pkt] that copies as many bytes as fit, whatever the mangle. *)
Definition verbatim (m : Virtio_vlan_mangle) (dst src : Buffer.t)
  : Virtio_vlan_mangle * Buffer.t * Buffer.t * Z :=
  let n := Nat.min (Buffer.left dst) (Buffer.left src) in
  (m, snd (Buffer.skip n dst), snd (Buffer.skip n src), Z.of_nat n).

Definition copy : Copy := {| rewrite_hdr := fun _ h => h; copy_pkt := verbatim |}.

Definition zeros (n : nat) : list Byte.byte := replicate n Byte.x00.

(** A descriptor with a virtio-net header and an Ethernet frame: the
    destination and source addresses end in [dst] and [src]. *)
Definition frame (dst src : Byte.byte) (rest : list Byte.byte) : list Byte.byte :=
  zeros 12 ++ zeros 5 ++ [dst] ++ zeros 5 ++ [src] ++ rest.

Definition broadcast_frame (src : Byte.byte) (rest : list Byte.byte)
  : list Byte.byte :=
  zeros 12 ++ replicate 6 Byte.xff ++ zeros 5 ++ [src] ++ rest.

(** The rest of a frame with an 802.1Q tag for VLAN [vid_lo] (below 256). *)
Definition tagged (vid_lo : Byte.byte) (payload : list Byte.byte)
  : list Byte.byte :=
  [Byte.x81; Byte.x00; Byte.x00; vid_lo] ++ payload.

(** A queue that is set up, with the given chains available. *)
Definition queue (chains : list Virtqueue.Chain) : Virtqueue.t :=
  {| Virtqueue.is_ready := true; Virtqueue.ring := chains;
     Virtqueue.current_avail := 0%nat; Virtqueue.used := [] |}.

Definition one (bytes : list Byte.byte) : Virtqueue.Chain := (Some bytes, []).

Definition with_queues (p : Virtio_port.t) (tx rx : list Virtqueue.Chain)
  : Virtio_port.t :=
  Virtio_port.set_tx_q
    (Virtio_port.set_rx p
       {| Virtio_net_transfer.dst_queue := queue rx;
          Virtio_net_transfer.device_error := false |})
    (queue tx).

Definition native_port (tx rx : list Virtqueue.Chain) : Virtio_port.t :=
  with_queues (Virtio_port.create (H := ids) None) tx rx.

(** Port 0 has a broadcast frame to send; ports 1 and 2 have room to
    receive. *)
Definition world : Virtio_switch.World :=
  {| Virtio_switch.ports :=
       <[2%nat := native_port [] [one (zeros 100)]]>
         (<[1%nat := native_port [] [one (zeros 100)]]>
            (<[0%nat := native_port [one (broadcast_frame Byte.x01 (zeros 10))] []]>
               ∅));
     Virtio_switch.calls := [] |}.

Definition add (sw : Virtio_switch.t) (port : nat) : Virtio_switch.t :=
  match Virtio_switch.add_port sw world port with
  | Ok (_, sw') => sw'
  | Throw _ => sw
  end.

(** The three ports added to a switch with four slots. *)
Definition switch : Virtio_switch.t :=
  add (add (add (Virtio_switch.create 4) 0) 1) 2.

(** The client of port 1 has gone. *)
Definition port_1_gone (a : nat) : bool := Nat.eqb a 1.

Definition no_filter (r : Virtio_net_request.t) : bool := false.

(** The request made of one descriptor with the given bytes, taken from
    position 0 of the queue of port 0. *)
Definition request_of (bytes : list Byte.byte) : Virtio_net_request.t :=
  match Virtio_net_request.create 0 (0%nat, one bytes) with
  | Ok r => r
  | Throw _ =>
      {| Virtio_net_request._dev := 0%nat;
         Virtio_net_request._head := None;
         Virtio_net_request._req_proc := Request_processor.empty;
         Virtio_net_request._header := None;
         Virtio_net_request._pkt := Buffer.empty |}
  end.

(** A frame of 22 bytes behind its header. *)
Definition request : Virtio_net_request.t :=
  request_of (broadcast_frame Byte.x01 (zeros 10)).

(** A destination with chains of 20 bytes each. *)
Definition destination (chains : nat) : Virtio_net_transfer.Dst :=
  {| Virtio_net_transfer.dst_queue := queue (replicate chains (one (zeros 20)));
     Virtio_net_transfer.device_error := false |}.

(** The locals and the destination after [n] rounds of the transfer of
    [request] into a destination with one chain. *)
Definition after_rounds (n : nat)
  : Virtio_net_transfer.Locals * Virtio_net_transfer.Dst :=
  default (Virtio_net_transfer.start request none, destination 1)
    (Virtio_net_transfer.rounds (H := copy) n request
       (Virtio_net_transfer.start request none) (destination 1)).

(** The locals after the head of the next round. *)
Definition after_next_src (n : nat) : Virtio_net_transfer.Locals :=
  match Virtio_net_transfer.next_src (fst (after_rounds n)) with
  | Ok (Some l) => l
  | _ => fst (after_rounds n)
  end.

(** The transfer of [request] into a destination with two chains. *)
Definition delivery
  : Virtio_net_transfer.Outcome * Virtio_net_transfer.Locals
    * Virtio_net_transfer.Dst :=
  Virtio_net_transfer.transfer (H := copy) false 10 request (destination 2) none.

(** An access port for VLAN 10 whose client sends a frame that carries a
    tag already. *)
Definition access_port : Virtio_port.t :=
  Virtio_port.set_vlan
    (native_port [one (frame Byte.x02 Byte.x01 (tagged Byte.x0a (zeros 10)))] [])
    10 0 ∅.

(** The same port when the client splits the frame behind the two
    addresses: the tag is in the second descriptor. *)
Definition access_port_split : Virtio_port.t :=
  Virtio_port.set_vlan
    (native_port
       [(Some (zeros 12 ++ zeros 5 ++ [Byte.x02] ++ zeros 5 ++ [Byte.x01]),
         [Some (tagged Byte.x0a (zeros 10))])] [])
    10 0 ∅.

Definition tagged_request : Virtio_net_request.t :=
  request_of (frame Byte.x02 Byte.x01 (tagged Byte.x0a (zeros 10))).

(** A port that sends a frame to its own address. *)
Definition sender : Virtio_port.t :=
  native_port [one (frame Byte.x01 Byte.x01 (zeros 10))] [].

Definition own_request : Virtio_net_request.t :=
  request_of (frame Byte.x01 Byte.x01 (zeros 10)).

(** Port 0 is [sender]; port 3 is the monitor. *)
Definition world_with_monitor : Virtio_switch.World :=
  {| Virtio_switch.ports :=
       <[3%nat := Virtio_port.set_monitor (H := ids)
                    (native_port [] [one (zeros 100)])]>
         (<[1%nat := native_port [] [one (zeros 100)]]>
            (<[0%nat := sender]> ∅));
     Virtio_switch.calls := [] |}.

Definition switch_with_monitor : Virtio_switch.t :=
  snd (Virtio_switch.add_monitor_port (add (add (Virtio_switch.create 4) 0) 1) 3).

(** Three addresses learned into a table of two slots. *)
Definition three_learned : list (Z * nat) := [(10, 1%nat); (20, 2%nat); (30, 3%nat)].

Definition full_table : Mac_table.t :=
  Mac_table.learn 2 (Mac_table.learn 2 (Mac_table.create 2) 10 (Some 1%nat))
    20 (Some 2%nat).

(** A trunk port for the VLANs 10 and 20 whose client sends a frame
    with the tag of VLAN 10. *)
Definition trunk_port : Virtio_port.t :=
  match Virtio_port.set_vlan_trunk (H := ids) false
          (native_port [one (frame Byte.x02 Byte.x01 (tagged Byte.x0a (zeros 10)))] [])
          [10; 20] with
  | Ok p => p
  | Throw _ => native_port [] []
  end.

(** The access port for VLAN 10 as [set_vlan_access] makes it. *)
Definition access_port_10 : Virtio_port.t :=
  match Virtio_port.set_vlan_access false (native_port [] []) 10 with
  | Ok p => p
  | Throw _ => native_port [] []
  end.

(** A chain of two descriptors: the header alone, then the frame. *)
Definition split_chain : Virtqueue.Chain :=
  (Some (zeros 12), [Some (zeros 5 ++ [Byte.x02] ++ zeros 5 ++ [Byte.x01])]).

Definition split_request : Virtio_net_request.t :=
  match Virtio_net_request.create 0 (0%nat, split_chain) with
  | Ok r => r
  | Throw _ => request
  end.

(** A request whose second descriptor fails validation. *)
Definition broken_request : Virtio_net_request.t :=
  match Virtio_net_request.create 0
          (0%nat, (Some (broadcast_frame Byte.x01 (zeros 10)), [None])) with
  | Ok r => r
  | Throw _ => request
  end.

(** A destination whose first buffer is too short for the header. *)
Definition short_destination : Virtio_net_transfer.Dst :=
  {| Virtio_net_transfer.dst_queue := queue [one (zeros 8)];
     Virtio_net_transfer.device_error := false |}.

(** A destination whose first chain is too small for the frame and whose
    second chain has a second descriptor that fails validation. *)
Definition broken_second_destination : Virtio_net_transfer.Dst :=
  {| Virtio_net_transfer.dst_queue :=
       queue [one (zeros 20); (Some (zeros 20), [None])];
     Virtio_net_transfer.device_error := false |}.

(** A monitor port whose client has put two chains into the transmission
    queue. *)
Definition monitor_with_tx : Virtio_port.t :=
  Virtio_port.set_monitor (H := ids)
    (native_port [one (zeros 30); one (zeros 40)] []).

(** A monitor port whose second transmission chain has a head descriptor
    that fails validation. *)
Definition monitor_with_bad_tx : Virtio_port.t :=
  Virtio_port.set_monitor (H := ids)
    (native_port [one (zeros 30); (None, []); one (zeros 40)] []).

(** A port with the address 02:08:0f:2a:00:[b] and room to receive. *)
Definition port_with_mac (b : Byte.byte) : Virtio_port.t :=
  with_queues
    (Virtio_port.create (H := ids)
       (Some [Byte.x02; Byte.x08; Byte.x0f; Byte.x2a; Byte.x00; b]))
    [] [one (zeros 100)].

(** Ports 0 and 1 have addresses of their own; port 2 asks for the address
    of port 0. *)
Definition world_with_macs : Virtio_switch.World :=
  {| Virtio_switch.ports :=
       <[2%nat := port_with_mac Byte.x00]>
         (<[1%nat := port_with_mac Byte.x01]>
            (<[0%nat := port_with_mac Byte.x00]> ∅));
     Virtio_switch.calls := [] |}.

Definition add_with_mac (sw : Virtio_switch.t) (port : nat) : Virtio_switch.t :=
  match Virtio_switch.add_port sw world_with_macs port with
  | Ok (_, sw') => sw'
  | Throw _ => sw
  end.

(** The switch of three ports after it has learned the address 77 from
    port 1. *)
Definition learned_switch : Virtio_switch.t :=
  Virtio_switch.set_mac_table switch
    (Mac_table.learn Virtio_switch.Mac_table_size
       (Virtio_switch._mac_table switch) 77 (Some 1%nat)).

(** Port 0 offers a chain whose head descriptor fails validation. *)
Definition world_bad_tx : Virtio_switch.World :=
  {| Virtio_switch.ports :=
       <[1%nat := native_port [] [one (zeros 100)]]>
         (<[0%nat := native_port [(None, [])] []]> ∅);
     Virtio_switch.calls := [] |}.

(** Port 0 offers a broadcast frame in a chain whose second descriptor
    fails validation. *)
Definition port_bad_second : Virtio_port.t :=
  native_port [(Some (broadcast_frame Byte.x01 (zeros 10)), [None])] [].

Definition world_bad_second : Virtio_switch.World :=
  {| Virtio_switch.ports :=
       <[2%nat := native_port [] [one (zeros 100)]]>
         (<[1%nat := native_port [] [one (zeros 100)]]>
            (<[0%nat := port_bad_second]> ∅));
     Virtio_switch.calls := [] |}.

(** Port 0 sends a frame to the address 00:00:00:00:00:02, which the
    switch has learned from port 1. *)
Definition world_unicast : Virtio_switch.World :=
  {| Virtio_switch.ports :=
       <[2%nat := native_port [] [one (zeros 100)]]>
         (<[1%nat := native_port [] [one (zeros 100)]]>
            (<[0%nat := native_port [one (frame Byte.x02 Byte.x01 (zeros 10))] []]>
               ∅));
     Virtio_switch.calls := [] |}.

Definition unicast_request : Virtio_net_request.t :=
  request_of (frame Byte.x02 Byte.x01 (zeros 10)).

Definition unicast_switch : Virtio_switch.t :=
  Virtio_switch.set_mac_table switch
    (Mac_table.learn Virtio_switch.Mac_table_size
       (Virtio_switch._mac_table switch) 2 (Some 1%nat)).

(** The installation with port 3 as monitor port. *)
Definition world_mirrored : Virtio_switch.World :=
  {| Virtio_switch.ports :=
       <[3%nat := Virtio_port.set_monitor (H := ids)
                    (native_port [] [one (zeros 100)])]>
         (Virtio_switch.ports world);
     Virtio_switch.calls := [] |}.

Definition mirrored_switch : Virtio_switch.t :=
  snd (Virtio_switch.add_monitor_port switch 3).

End Scenario.

(** * Properties of the embedding *)

(** ** The MAC table *)

Module Mac_table_facts.
Import Mac_table.

Section WithSize.

Variable Size : nat.
Hypothesis Size_pos : (0 < Size)%nat.

Local Abbreviation table_inv := (Mac_table.table_inv Size).
Local Abbreviation learned := (Mac_table.learned Size).

Lemma entry_at_lookup (tbl : t) i e :
  _entries tbl !! i = Some e -> entry_at tbl i = e.
Proof. unfold entry_at. by intros ->. Qed.

Lemma table_inv_create : table_inv (create Size).
Proof.
  split; simpl.
  - apply length_replicate.
  - exact Size_pos.
  - intros i p a Hi. apply lookup_replicate in Hi as [Hi _]. discriminate Hi.
  - intros a i Hi. rewrite lookup_empty in Hi. discriminate Hi.
Qed.

Lemma table_inv_learn tbl src port :
  table_inv tbl -> table_inv (learn Size tbl src (Some port)).
Proof.
  intros [Hlen Hrr Hslot Hidx]. unfold learn.
  destruct (_mac_table tbl !! src) as [i|] eqn:Hsrc.
  - (* the address is known: only the port of its slot changes *)
    destruct (Hidx _ _ Hsrc) as [p Hi].
    rewrite (entry_at_lookup _ _ _ Hi). simpl.
    assert (Hlt : (i < length (_entries tbl))%nat) by (eapply lookup_lt_Some; eauto).
    split; simpl.
    + by rewrite length_insert.
    + done.
    + intros j q a Hj. destruct (decide (i = j)) as [<-|Hne].
      * rewrite list_lookup_insert_eq in Hj by done. by inversion Hj; subst.
      * rewrite list_lookup_insert_ne in Hj by done. eauto.
    + intros a j Ha. destruct (decide (i = j)) as [<-|Hne].
      * rewrite list_lookup_insert_eq by done.
        destruct (Hidx _ _ Ha) as [q Hq]. rewrite Hi in Hq.
        inversion Hq; subst. eauto.
      * rewrite list_lookup_insert_ne by done. eauto.
  - (* a new address takes the slot at the cursor *)
    assert (Hlt : (_rr_index tbl < length (_entries tbl))%nat) by lia.
    destruct (lookup_lt_is_Some_2 _ _ Hlt) as [[op oa] Hold].
    rewrite (entry_at_lookup _ _ _ Hold). simpl.
    split; simpl.
    + by rewrite length_insert.
    + apply Nat.mod_upper_bound. lia.
    + intros j q a Hj. destruct (decide (_rr_index tbl = j)) as [<-|Hne].
      * rewrite list_lookup_insert_eq in Hj by done. inversion Hj; subst.
        destruct op as [p0|].
        -- rewrite lookup_delete_ne; [apply lookup_insert_eq|].
           intros ->. apply Hslot in Hold. congruence.
        -- apply lookup_insert_eq.
      * rewrite list_lookup_insert_ne in Hj by done.
        pose proof (Hslot _ _ _ Hj) as Ha.
        assert (a <> src) by congruence.
        destruct op as [p0|].
        -- rewrite lookup_delete_ne; [by rewrite lookup_insert_ne|].
           intros ->. apply Hslot in Hold. congruence.
        -- by rewrite lookup_insert_ne.
    + intros a j Ha.
      assert (Hcases : (a = src /\ j = _rr_index tbl)
                       \/ (a <> src /\ _mac_table tbl !! a = Some j
                           /\ (forall p0, op = Some p0 -> a <> oa))).
      { destruct op as [p0|].
        - destruct (decide (a = oa)) as [->|Hne].
          + rewrite lookup_delete_eq in Ha. discriminate Ha.
          + rewrite lookup_delete_ne in Ha by done.
            destruct (decide (a = src)) as [->|Hne'].
            * rewrite lookup_insert_eq in Ha. left. by inversion Ha.
            * rewrite lookup_insert_ne in Ha by done. right. naive_solver.
        - destruct (decide (a = src)) as [->|Hne'].
          + rewrite lookup_insert_eq in Ha. left. by inversion Ha.
          + rewrite lookup_insert_ne in Ha by done. right. naive_solver. }
      destruct Hcases as [[-> ->]|(Hne & Ha' & Hop)].
      * rewrite list_lookup_insert_eq by done. eauto.
      * destruct (Hidx _ _ Ha') as [q Hq].
        destruct (decide (_rr_index tbl = j)) as [<-|Hnj].
        -- rewrite Hold in Hq. inversion Hq; subst. by destruct (Hop q).
        -- rewrite list_lookup_insert_ne by done. eauto.
Qed.

Lemma table_inv_flush keys : forall tbl port,
  table_inv tbl -> table_inv (flush keys tbl port).
Proof.
  induction keys as [|k keys IH]; intros tbl port Hinv; simpl; [done|].
  destruct (_mac_table tbl !! k) as [i|] eqn:Hk; [|by apply IH].
  case_decide as Hport; [|by apply IH].
  apply IH. destruct Hinv as [Hlen Hrr Hslot Hidx].
  destruct (Hidx _ _ Hk) as [p Hi].
  assert (Hlt : (i < length (_entries tbl))%nat) by (eapply lookup_lt_Some; eauto).
  split; simpl.
  - by rewrite length_insert.
  - done.
  - intros j q a Hj. destruct (decide (i = j)) as [<-|Hne].
    + rewrite list_lookup_insert_eq in Hj by done. discriminate Hj.
    + rewrite list_lookup_insert_ne in Hj by done.
      pose proof (Hslot _ _ _ Hj) as Ha.
      rewrite lookup_delete_ne; [done|]. intros <-. congruence.
  - intros a j Ha. destruct (decide (k = a)) as [<-|Hne].
    + rewrite lookup_delete_eq in Ha. discriminate Ha.
    + rewrite lookup_delete_ne in Ha by done.
      destruct (Hidx _ _ Ha) as [q Hq].
      destruct (decide (i = j)) as [<-|Hnj].
      * rewrite Hi in Hq. by inversion Hq.
      * rewrite list_lookup_insert_ne by done. eauto.
Qed.

Lemma reachable_inv tbl : reachable Size tbl -> table_inv tbl.
Proof.
  induction 1.
  - apply table_inv_create.
  - by apply table_inv_learn.
  - by apply table_inv_flush.
Qed.

(** C2: on every table the switch can hold, [learn] does what the
    specification says: for an address that is in the index only the port
    of its slot changes and the cursor stays; for a new address the
    address of an occupied slot at the cursor is removed from the index,
    the slot is overwritten with the pair, the pair is inserted into the
    index and the cursor advances by one modulo [Size].  The code inserts
    before it removes; the outcome is the same because the address of an
    occupied slot is always in the index, so it is not the new one. *)
Theorem learn_as_specified tbl src port :
  reachable Size tbl ->
  learn Size tbl src port = learn_spec Size tbl src port.
Proof.
  intros Hreach. apply reachable_inv in Hreach as [Hlen Hrr Hslot Hidx].
  unfold learn, learn_spec.
  destruct (_mac_table tbl !! src) as [i|] eqn:Hsrc; [done|].
  assert (Hlt : (_rr_index tbl < length (_entries tbl))%nat) by lia.
  destruct (lookup_lt_is_Some_2 _ _ Hlt) as [[op oa] Hold].
  rewrite (entry_at_lookup _ _ _ Hold). simpl.
  destruct op as [p0|]; simpl.
  - f_equal. apply delete_insert_ne.
    intros ->. apply Hslot in Hold. congruence.
  - done.
Qed.

Lemma learned_create : learned [] (create Size).
Proof.
  split; simpl.
  - apply length_replicate.
  - symmetry. apply Nat.Div0.mod_0_l.
  - intros j m p Hj. rewrite lookup_nil in Hj. discriminate Hj.
  - intros m _. apply lookup_empty.
  - intros i Hi. apply lookup_replicate. split; [done|lia].
Qed.

Lemma mod_differ (j n : nat) :
  (j < n)%nat -> (n < j + Size)%nat -> (j mod Size <> n mod Size)%nat.
Proof.
  intros Hlt Hnear Heq.
  pose proof (Nat.div_mod_eq j Size) as Hj.
  pose proof (Nat.div_mod_eq n Size) as Hn.
  rewrite Heq in Hj.
  assert (Hq : (j / Size < n / Size)%nat) by nia.
  nia.
Qed.

Lemma learned_snoc l tbl m p :
  learned l tbl -> m ∉ l.*1 -> NoDup l.*1 ->
  learned (l ++ [(m, p)]) (learn Size tbl m (Some p)).
Proof.
  intros [Hlen Hrr Hrecent Hold Hfree] Hm Hnd.
  assert (Hfresh : _mac_table tbl !! m = None).
  { apply Hold. intros j q Hj. destruct Hm.
    apply list_elem_of_fmap. exists (m, q). split; [done|].
    by eapply list_elem_of_lookup_2. }
  assert (Hocc : forall j q, l !! j = Some (m, q) -> False).
  { intros j q Hj. destruct Hm.
    apply list_elem_of_fmap. exists (m, q). split; [done|].
    by eapply list_elem_of_lookup_2. }
  assert (Hmodlt : (length l mod Size < Size)%nat)
    by (apply Nat.mod_upper_bound; lia).
  unfold learn. rewrite Hfresh, Hrr.
  destruct (decide (length l < Size)%nat) as [Hsmall|Hfull].
  - (* the slot at the cursor is free *)
    rewrite (Nat.mod_small _ _ Hsmall).
    rewrite (entry_at_lookup _ _ _ (Hfree _ (conj (le_n _) Hsmall))). simpl.
    split; simpl.
    + by rewrite length_insert.
    + rewrite length_app. simpl. done.
    + intros j m' p' Hj Hnear. rewrite length_app in Hnear. simpl in Hnear.
      destruct (decide (j = length l)) as [->|Hne].
      * rewrite lookup_app_r, Nat.sub_diag in Hj by lia. inversion Hj; subst.
        rewrite (Nat.mod_small _ _ Hsmall).
        rewrite lookup_insert_eq, list_lookup_insert_eq by lia. done.
      * assert (Hjl : (j < length l)%nat).
        { apply lookup_lt_Some in Hj. rewrite length_app in Hj. simpl in Hj. lia. }
        rewrite lookup_app_l in Hj by done.
        destruct (Hrecent _ _ _ Hj ltac:(lia)) as [Hi He].
        rewrite (Nat.mod_small j) in * by lia.
        rewrite lookup_insert_ne by (intros <-; eauto).
        rewrite list_lookup_insert_ne by lia. done.
    + intros m' Hall.
      assert (m' <> m).
      { intros ->. specialize (Hall (length l) p).
        rewrite lookup_app_r, Nat.sub_diag in Hall by lia.
        specialize (Hall eq_refl). rewrite length_app in Hall. simpl in Hall. lia. }
      rewrite lookup_insert_ne by done. apply Hold.
      intros j q Hj. specialize (Hall j q).
      rewrite lookup_app_l in Hall by (by eapply lookup_lt_Some).
      specialize (Hall Hj). rewrite length_app in Hall. simpl in Hall. lia.
    + intros i Hi. rewrite length_app in Hi. simpl in Hi.
      rewrite list_lookup_insert_ne by lia. apply Hfree. lia.
  - (* the slot at the cursor holds the pair learned [Size] pairs ago *)
    assert (Hj0 : (length l - Size < length l)%nat) by lia.
    destruct (lookup_lt_is_Some_2 _ _ Hj0) as [[m0 p0] Hl0].
    destruct (Hrecent _ _ _ Hl0 ltac:(lia)) as [Hi0 He0].
    assert (Hmod0 : ((length l - Size) mod Size = length l mod Size)%nat).
    { replace (length l) with ((length l - Size) + 1 * Size)%nat at 2 by lia.
      by rewrite Nat.Div0.mod_add. }
    rewrite Hmod0 in Hi0, He0.
    rewrite (entry_at_lookup _ _ _ He0). simpl.
    assert (Hm0 : m0 <> m) by (intros ->; eauto).
    split; simpl.
    + by rewrite length_insert.
    + rewrite length_app. simpl. by rewrite Nat.Div0.add_mod_idemp_l.
    + intros j m' p' Hj Hnear. rewrite length_app in Hnear. simpl in Hnear.
      destruct (decide (j = length l)) as [->|Hne].
      * rewrite lookup_app_r, Nat.sub_diag in Hj by lia. inversion Hj; subst.
        rewrite lookup_delete_ne by done.
        rewrite lookup_insert_eq, list_lookup_insert_eq by lia. done.
      * assert (Hjl : (j < length l)%nat).
        { apply lookup_lt_Some in Hj. rewrite length_app in Hj. simpl in Hj. lia. }
        rewrite lookup_app_l in Hj by done.
        destruct (Hrecent _ _ _ Hj ltac:(lia)) as [Hi He].
        assert (m' <> m0).
        { intros ->.
          assert (j = (length l - Size)%nat); [|lia].
          eapply NoDup_lookup; [exact Hnd| |].
          - rewrite list_lookup_fmap, Hj. done.
          - rewrite list_lookup_fmap, Hl0. done. }
        rewrite lookup_delete_ne by done.
        rewrite lookup_insert_ne by (intros <-; eauto).
        rewrite list_lookup_insert_ne; [done|].
        apply not_eq_sym, mod_differ; lia.
    + intros m' Hall.
      destruct (decide (m0 = m')) as [<-|Hne0]; [apply lookup_delete_eq|].
      rewrite lookup_delete_ne by done.
      assert (m' <> m).
      { intros ->. specialize (Hall (length l) p).
        rewrite lookup_app_r, Nat.sub_diag in Hall by lia.
        specialize (Hall eq_refl). rewrite length_app in Hall. simpl in Hall. lia. }
      rewrite lookup_insert_ne by done. apply Hold.
      intros j q Hj. specialize (Hall j q).
      rewrite lookup_app_l in Hall by (by eapply lookup_lt_Some).
      specialize (Hall Hj). rewrite length_app in Hall. simpl in Hall.
      destruct (decide (j = (length l - Size)%nat)) as [->|]; [|lia].
      rewrite Hl0 in Hj. by inversion Hj.
    + intros i Hi. rewrite length_app in Hi. simpl in Hi. lia.
Qed.

Lemma learn_all_snoc tbl l x :
  learn_all Size tbl (l ++ [x]) = learn Size (learn_all Size tbl l) (fst x) (Some (snd x)).
Proof. unfold learn_all. by rewrite fold_left_app. Qed.

Lemma learned_learn_all l :
  NoDup l.*1 -> learned l (learn_all Size (create Size) l).
Proof.
  induction l as [|[m p] l IH] using rev_ind; intros Hnd.
  - apply learned_create.
  - rewrite learn_all_snoc. simpl.
    rewrite fmap_app in Hnd. apply NoDup_app in Hnd as (Hl & Hdisj & _).
    apply learned_snoc; [by apply IH| |done].
    intros Hin. apply (Hdisj _ Hin). simpl. apply list_elem_of_here.
Qed.

(** C8: after [Size + k] pairs with distinct addresses have been learned
    into the empty table, the address of the [j]-th pair is absent when
    [j < k] (the first [k] pairs) and is found with its port otherwise (the
    last [Size] pairs). *)
Theorem round_robin_eviction l k :
  NoDup l.*1 -> length l = (Size + k)%nat ->
  forall j m p, l !! j = Some (m, p) ->
    lookup (learn_all Size (create Size) l) m
    = if Nat.ltb j k then None else Some p.
Proof.
  intros Hnd Hlen j m p Hj.
  destruct (learned_learn_all l Hnd) as [_ _ Hrecent Hold _].
  unfold lookup. destruct (Nat.ltb_spec j k) as [Hjk|Hjk].
  - rewrite Hold; [done|]. intros j' q Hj'.
    assert (j' = j); [|lia].
    eapply NoDup_lookup; [exact Hnd| |].
    + rewrite list_lookup_fmap, Hj'. done.
    + rewrite list_lookup_fmap, Hj. done.
  - destruct (Hrecent _ _ _ Hj ltac:(lia)) as [-> He].
    by rewrite (entry_at_lookup _ _ _ He).
Qed.

(** *** Lookups after [learn] and [flush] *)

Lemma lookup_learn_same tbl src port :
  table_inv tbl -> lookup (learn Size tbl src (Some port)) src = Some port.
Proof.
  intros [Hlen Hrr Hslot Hidx]. unfold learn, lookup.
  destruct (_mac_table tbl !! src) as [i|] eqn:Hsrc; simpl.
  - rewrite Hsrc. destruct (Hidx _ _ Hsrc) as [p Hi].
    unfold entry_at. simpl.
    rewrite list_lookup_insert_eq by (by eapply lookup_lt_Some). done.
  - assert (Hlt : (_rr_index tbl < length (_entries tbl))%nat) by lia.
    destruct (lookup_lt_is_Some_2 _ _ Hlt) as [[op oa] Hold].
    rewrite (entry_at_lookup _ _ _ Hold). simpl.
    assert (Hsrc' : match op with
                    | Some _ => delete oa (<[src := _rr_index tbl]> (_mac_table tbl))
                    | None => <[src := _rr_index tbl]> (_mac_table tbl)
                    end !! src = Some (_rr_index tbl)).
    { destruct op as [p0|]; [|apply lookup_insert_eq].
      rewrite lookup_delete_ne; [apply lookup_insert_eq|].
      intros ->. apply Hslot in Hold. congruence. }
    rewrite Hsrc'. unfold entry_at. simpl.
    by rewrite list_lookup_insert_eq.
Qed.

Lemma lookup_learn_other tbl src port a :
  table_inv tbl -> a <> src ->
  lookup (learn Size tbl src (Some port)) a
  = if bool_decide (_mac_table tbl !! src = None
                    /\ _mac_table tbl !! a = Some (_rr_index tbl))
    then None else lookup tbl a.
Proof.
  intros [Hlen Hrr Hslot Hidx] Hne. unfold learn.
  destruct (_mac_table tbl !! src) as [i|] eqn:Hsrc.
  - rewrite bool_decide_eq_false_2 by (by intros [? _]).
    unfold lookup. simpl.
    destruct (_mac_table tbl !! a) as [j|] eqn:Ha; [|done].
    destruct (Hidx _ _ Hsrc) as [p Hi]. destruct (Hidx _ _ Ha) as [q Hj].
    assert (i <> j) by (intros ->; congruence).
    unfold entry_at. simpl. by rewrite list_lookup_insert_ne.
  - assert (Hlt : (_rr_index tbl < length (_entries tbl))%nat) by lia.
    destruct (lookup_lt_is_Some_2 _ _ Hlt) as [[op oa] Hold].
    rewrite (entry_at_lookup _ _ _ Hold). simpl.
    unfold lookup. simpl.
    destruct (_mac_table tbl !! a) as [j|] eqn:Ha.
    + destruct (Hidx _ _ Ha) as [q Hj].
      case_bool_decide as Hcur.
      * destruct Hcur as [_ [= ->]]. rewrite Hold in Hj. inversion Hj; subst.
        by rewrite lookup_delete_eq.
      * assert (j <> _rr_index tbl) by (intros ->; by apply Hcur).
        assert (Ha' : match op with
                      | Some _ => delete oa (<[src := _rr_index tbl]> (_mac_table tbl))
                      | None => <[src := _rr_index tbl]> (_mac_table tbl)
                      end !! a = Some j).
        { destruct op as [p0|].
          - rewrite lookup_delete_ne; [by rewrite lookup_insert_ne|].
            intros ->. apply Hslot in Hold. congruence.
          - by rewrite lookup_insert_ne. }
        rewrite Ha'. unfold entry_at. simpl.
        by rewrite list_lookup_insert_ne.
    + rewrite bool_decide_eq_false_2 by (by intros [_ ?]).
      assert (Ha' : match op with
                    | Some _ => delete oa (<[src := _rr_index tbl]> (_mac_table tbl))
                    | None => <[src := _rr_index tbl]> (_mac_table tbl)
                    end !! a = None).
      { destruct op as [p0|].
        - destruct (decide (oa = a)) as [->|]; [apply lookup_delete_eq|].
          rewrite lookup_delete_ne by done. by rewrite lookup_insert_ne.
        - by rewrite lookup_insert_ne. }
      by rewrite Ha'.
Qed.

(** X1: on every table the switch can hold, after [learn] the learned
    address is found with the learned port; any other address is found
    as before, except the one whose slot was taken: when the learned
    address is new, the address in the slot at the cursor is forgotten.
    Learning a known address forgets nothing. *)
Theorem lookup_after_learn tbl src port a :
  reachable Size tbl ->
  lookup (learn Size tbl src (Some port)) a
  = if decide (a = src) then Some port
    else if bool_decide (_mac_table tbl !! src = None
                         /\ _mac_table tbl !! a = Some (_rr_index tbl))
         then None
         else lookup tbl a.
Proof.
  intros Hinv%reachable_inv. destruct (decide (a = src)) as [->|Hne].
  - by apply lookup_learn_same.
  - by apply lookup_learn_other.
Qed.

Lemma flush_one_inv tbl k i :
  table_inv tbl -> _mac_table tbl !! k = Some i ->
  table_inv {| _mac_table := delete k (_mac_table tbl);
               _entries := <[i := Entry_new]> (_entries tbl);
               _rr_index := _rr_index tbl |}.
Proof.
  intros Hinv Hk.
  pose proof (table_inv_flush [k] tbl (entry_port (entry_at tbl i)) Hinv) as Hone.
  simpl in Hone. rewrite Hk in Hone. by rewrite decide_True in Hone.
Qed.

(** After [flush] over the keys [keys], an address among them that
    pointed to the port is forgotten; every other lookup is as before. *)
Lemma flush_lookup keys (p : nat) : forall tbl a,
  table_inv tbl ->
  lookup (flush keys tbl (Some p)) a
  = if bool_decide (a ∈ keys /\ lookup tbl a = Some p) then None else lookup tbl a.
Proof.
  induction keys as [|k keys IH]; intros tbl a Hinv; cbn [flush].
  { case_bool_decide as Hin; [|done]. destruct Hin as [Hin _].
    by apply elem_of_nil in Hin. }
  assert (Hskip : lookup tbl k <> Some p ->
            lookup (flush keys tbl (Some p)) a
            = if bool_decide (a ∈ k :: keys /\ lookup tbl a = Some p) then None
              else lookup tbl a).
  { intros Hk. rewrite IH by done.
    rewrite (bool_decide_ext (a ∈ keys /\ lookup tbl a = Some p)
               (a ∈ k :: keys /\ lookup tbl a = Some p)); [done|].
    rewrite elem_of_cons. intuition congruence. }
  destruct (_mac_table tbl !! k) as [i|] eqn:Hk.
  2:{ apply Hskip. unfold lookup. by rewrite Hk. }
  destruct (decide (entry_port (entry_at tbl i) = Some p)) as [Hport|Hport].
  2:{ apply Hskip. unfold lookup. by rewrite Hk. }
  rewrite IH by (by apply flush_one_inv).
  destruct Hinv as [Hlen Hrr Hslot Hidx].
  assert (Hone : lookup {| _mac_table := delete k (_mac_table tbl);
                           _entries := <[i := Entry_new]> (_entries tbl);
                           _rr_index := _rr_index tbl |} a
                 = if decide (a = k) then None else lookup tbl a).
  { unfold lookup. simpl. destruct (decide (a = k)) as [->|Hak].
    - by rewrite lookup_delete_eq.
    - rewrite lookup_delete_ne by done.
      destruct (_mac_table tbl !! a) as [j|] eqn:Ha; [|done].
      destruct (Hidx _ _ Hk) as [q Hi]. destruct (Hidx _ _ Ha) as [q' Hj].
      assert (i <> j) by (intros ->; congruence).
      unfold entry_at. simpl. by rewrite list_lookup_insert_ne. }
  rewrite Hone.
  assert (Hkp : lookup tbl k = Some p).
  { unfold lookup. by rewrite Hk. }
  destruct (decide (a = k)) as [->|Hak].
  - rewrite bool_decide_eq_false_2 by (by intros [_ ?]).
    rewrite bool_decide_eq_true_2; [done|]. split; [apply list_elem_of_here|done].
  - rewrite (bool_decide_ext (a ∈ keys /\ lookup tbl a = Some p)
               (a ∈ k :: keys /\ lookup tbl a = Some p)); [done|].
    rewrite elem_of_cons. intuition congruence.
Qed.

Lemma flush_lookup_all tbl (p : nat) keys a :
  table_inv tbl ->
  keys ≡ₚ (map_to_list (_mac_table tbl)).*1 ->
  lookup (flush keys tbl (Some p)) a
  = if bool_decide (lookup tbl a = Some p) then None else lookup tbl a.
Proof.
  intros Hinv Hkeys. rewrite flush_lookup by done.
  rewrite (bool_decide_ext (a ∈ keys /\ lookup tbl a = Some p)
             (lookup tbl a = Some p)); [done|].
  split; [by intros [_ ?]|]. intros Ha. split; [|done].
  rewrite Hkeys. unfold lookup in Ha.
  destruct (_mac_table tbl !! a) as [i|] eqn:Hi; [|done].
  apply list_elem_of_fmap. exists (a, i). split; [done|].
  by apply elem_of_map_to_list.
Qed.

(** X2: on every table the switch can hold, after [flush(port)] no
    address is found with that port any more: the addresses that pointed
    to it are forgotten, and every other address is found as before,
    whatever the order in which the loop visits the index. *)
Theorem flush_forgets_port tbl (port : nat) keys a :
  reachable Size tbl ->
  keys ≡ₚ (map_to_list (_mac_table tbl)).*1 ->
  lookup (flush keys tbl (Some port)) a <> Some port
  /\ lookup (flush keys tbl (Some port)) a
     = if bool_decide (lookup tbl a = Some port) then None else lookup tbl a.
Proof.
  intros Hinv%reachable_inv Hkeys.
  rewrite flush_lookup_all by done.
  split; [|done]. by case_bool_decide.
Qed.

(** X3: the index of a table the switch can hold never has more than
    [Size] addresses: different addresses of the index point to
    different slots of the array. *)
Theorem index_within_capacity tbl :
  reachable Size tbl -> (size (_mac_table tbl) <= Size)%nat.
Proof.
  intros [Hlen Hrr Hslot Hidx]%reachable_inv.
  rewrite <- length_map_to_list, <- (length_fmap snd).
  rewrite <- (length_seq Size 0%nat) at 1.
  apply submseteq_length, NoDup_submseteq.
  - apply NoDup_fmap_2_strong; [|apply NoDup_map_to_list].
    intros [a i] [b j] Ha Hb Hij. simpl in Hij. subst j.
    apply elem_of_map_to_list in Ha, Hb.
    destruct (Hidx _ _ Ha) as [p Hp]. destruct (Hidx _ _ Hb) as [q Hq].
    congruence.
  - intros i Hi. apply list_elem_of_fmap in Hi as ([a j] & -> & Ha).
    apply elem_of_map_to_list in Ha. simpl.
    destruct (Hidx _ _ Ha) as [p Hp]. apply lookup_lt_Some in Hp.
    apply elem_of_seq. lia.
Qed.

End WithSize.

(** A new address learned into a full table of two slots. *)
Lemma learn_as_specified_witness :
  learn 2 Scenario.full_table 30 (Some 3%nat)
  = learn_spec 2 Scenario.full_table 30 (Some 3%nat).
Proof.
  apply learn_as_specified; [lia|].
  unfold Scenario.full_table. repeat constructor.
Defined.

(** Three addresses and two slots: the first address is gone, the last
    one is found. *)
Lemma round_robin_eviction_witness :
  lookup (learn_all 2 (create 2) Scenario.three_learned) 10 = None
  /\ lookup (learn_all 2 (create 2) Scenario.three_learned) 30 = Some 3%nat.
Proof.
  assert (Hnd : NoDup Scenario.three_learned.*1).
  { apply (bool_decide_unpack _). vm_compute. exact I. }
  split.
  - exact (round_robin_eviction 2 ltac:(lia) Scenario.three_learned 1 Hnd
             eq_refl 0%nat 10 1%nat eq_refl).
  - exact (round_robin_eviction 2 ltac:(lia) Scenario.three_learned 1 Hnd
             eq_refl 2%nat 30 3%nat eq_refl).
Defined.

(** The third address takes the slot of the first one, which is
    forgotten; the second one stays. *)
Lemma lookup_after_learn_witness :
  lookup (learn 2 Scenario.full_table 30 (Some 3%nat)) 10 = None
  /\ lookup (learn 2 Scenario.full_table 30 (Some 3%nat)) 20 = Some 2%nat
  /\ lookup (learn 2 Scenario.full_table 30 (Some 3%nat)) 30 = Some 3%nat.
Proof.
  assert (Hreach : reachable 2 Scenario.full_table).
  { unfold Scenario.full_table. repeat constructor. }
  split_and!.
  - exact (lookup_after_learn 2 ltac:(lia) Scenario.full_table 30 3%nat 10 Hreach).
  - exact (lookup_after_learn 2 ltac:(lia) Scenario.full_table 30 3%nat 20 Hreach).
  - exact (lookup_after_learn 2 ltac:(lia) Scenario.full_table 30 3%nat 30 Hreach).
Defined.

(** Port 1 is flushed from the table of two slots. *)
Lemma flush_forgets_port_witness :
  lookup (flush [10; 20] Scenario.full_table (Some 1%nat)) 10 <> Some 1%nat
  /\ lookup (flush [10; 20] Scenario.full_table (Some 1%nat)) 10
     = if bool_decide (lookup Scenario.full_table 10 = Some 1%nat) then None
       else lookup Scenario.full_table 10.
Proof.
  apply (flush_forgets_port 2 ltac:(lia) Scenario.full_table 1%nat [10; 20] 10).
  - unfold Scenario.full_table. repeat constructor.
  - vm_compute. reflexivity.
Defined.

Lemma index_within_capacity_witness :
  (size (_mac_table (learn 2 Scenario.full_table 30 (Some 3%nat))) <= 2)%nat.
Proof.
  apply (index_within_capacity 2 ltac:(lia)).
  unfold Scenario.full_table. repeat constructor.
Defined.

End Mac_table_facts.

(** ** Requests *)

Module Virtio_net_request_facts.
Import Vlan Virtio_net_request.

Lemma create_head dev req r :
  create dev req = Ok r ->
  _head r = Some (fst req) /\ Virtio_net_request.dev r = dev.
Proof.
  unfold create, Request_processor.start.
  destruct (fst (snd req)); [|done].
  destruct (Buffer.skip _ _) as [skipped pkt1].
  destruct (negb _); [by intros [= <-]|].
  destruct (Buffer.done pkt1).
  - destruct (Request_processor.next _ _) as [[[[] ?] ?]|]; [| |done];
      by intros [= <-].
  - by intros [= <-].
Qed.

Lemma create_throws dev req e :
  create dev req = Throw e -> e = Bad_descriptor.
Proof.
  unfold create, Request_processor.start, Request_processor.next.
  repeat case_match; congruence.
Qed.

(** A request that [get_request] returns is valid, it is made of the
    chain at the position of the queue, and that chain is taken. *)
Lemma get_request_some self q ret q' :
  get_request self q = (Ok (Some ret), q') ->
  Virtqueue.ready q = true
  /\ valid ret = true
  /\ _head ret = Some (Virtqueue.current_avail q)
  /\ Virtio_net_request.dev ret = self
  /\ is_Some (Virtqueue.ring q !! Virtqueue.current_avail q)
  /\ q' = {| Virtqueue.is_ready := Virtqueue.is_ready q;
             Virtqueue.ring := Virtqueue.ring q;
             Virtqueue.current_avail := S (Virtqueue.current_avail q);
             Virtqueue.used := Virtqueue.used q |}.
Proof.
  unfold get_request.
  destruct (Virtqueue.ready q) eqn:Hready; [|done]. simpl.
  unfold Virtqueue.next_avail.
  destruct (Virtqueue.ring q !! Virtqueue.current_avail q) as [c|] eqn:Hc; [|done].
  destruct (create self _) as [request|] eqn:Hcreate; [|done].
  destruct (valid request) eqn:Hvalid; [|done].
  intros [= <- <-]. apply create_head in Hcreate as [Hhead Hdev].
  by eauto 10.
Qed.

(** The queue after [get_request], case by case. *)
Lemma get_request_cases dev q :
  let '(r, q') := get_request dev q in
  let cur := Virtqueue.current_avail q in
  let taken :=
    {| Virtqueue.is_ready := Virtqueue.is_ready q;
       Virtqueue.ring := Virtqueue.ring q;
       Virtqueue.current_avail := S cur;
       Virtqueue.used := Virtqueue.used q |} in
  if Virtqueue.ready q && Virtqueue.desc_avail q
  then match r with
       | Ok (Some req) =>
           valid req = true /\ _head req = Some cur
           /\ Virtio_net_request.dev req = dev /\ q' = taken
       | Ok None => q' = Virtqueue.finish taken (Some cur) 0
       | Throw e => e = Bad_descriptor /\ q' = taken
       end
  else r = Ok None /\ q' = q.
Proof.
  unfold get_request, Virtqueue.desc_avail, Virtqueue.next_avail.
  destruct (Virtqueue.ready q); simpl; [|done].
  destruct (Nat.ltb_spec (Virtqueue.current_avail q) (length (Virtqueue.ring q)))
    as [Hlt|Hge].
  - destruct (lookup_lt_is_Some_2 _ _ Hlt) as [c ->].
    destruct (create dev _) as [req|e] eqn:Hcreate.
    + apply create_head in Hcreate as [Hhead Hdev]. simpl in Hhead.
      destruct (valid req) eqn:Hvalid; [done|].
      unfold finish. by rewrite Hhead.
    + by apply create_throws in Hcreate.
  - by rewrite lookup_ge_None_2 by lia.
Qed.

(** X4: what [get_request] does to the queue.  Without a ready queue
    or without an available chain it returns none and leaves the queue
    as it is.  Otherwise it takes exactly one chain, the one at the
    position of the queue: a valid request is returned with that chain as
    its head and nothing finished; a request that is not valid is
    finished at once with zero bytes and none is returned; and when a
    descriptor fails validation the exception is [Bad_descriptor], and
    the chain is taken and not finished. *)
Theorem get_request_takes_one_chain dev q :
  let '(r, q') := get_request dev q in
  let cur := Virtqueue.current_avail q in
  let taken :=
    {| Virtqueue.is_ready := Virtqueue.is_ready q;
       Virtqueue.ring := Virtqueue.ring q;
       Virtqueue.current_avail := S cur;
       Virtqueue.used := Virtqueue.used q |} in
  if Virtqueue.ready q && Virtqueue.desc_avail q
  then match r with
       | Ok (Some req) =>
           valid req = true /\ _head req = Some cur
           /\ Virtio_net_request.dev req = dev /\ q' = taken
       | Ok None => q' = Virtqueue.finish taken (Some cur) 0
       | Throw e => e = Bad_descriptor /\ q' = taken
       end
  else r = Ok None /\ q' = q.
Proof. apply get_request_cases. Qed.

(** X5: a request made of a chain whose head descriptor loads is valid
    exactly when the virtio-net header fits into the first descriptor and
    something follows it: either the first descriptor has more than the
    twelve bytes of the header, or it has exactly twelve and a second
    descriptor follows (and loads).  A header that is split over two
    descriptors makes the request invalid. *)
Theorem valid_iff_header_fits dev i bs rest r :
  create dev (i, (Some bs, rest)) = Ok r ->
  valid r = true
  <-> (12 < length bs)%nat
      \/ (length bs = 12%nat /\ exists b rest', rest = Some b :: rest').
Proof.
  unfold create, Request_processor.start, Buffer.skip, Buffer.done, Buffer.left,
    Virtio_net.Hdr_at, valid, Virtio_net.Hdr_size.
  cbn -[Nat.min Nat.eqb drop take].
  destruct (Nat.eqb_spec (Nat.min 12 (length bs)) 12) as [Hmin|Hmin];
    cbn -[Nat.min Nat.eqb drop take].
  - rewrite length_drop.
    destruct (Nat.eqb_spec (length bs - 12) 0) as [Hzero|Hmore].
    + unfold Request_processor.next. cbn -[Nat.min Nat.eqb drop take].
      destruct rest as [|[b|] rest']; [| |done]; intros [= <-];
        cbn -[Nat.min Nat.eqb drop take].
      * split; [done|]. intros [?|(_ & ? & ? & ?)]; [lia|done].
      * split; [|done]. intros _. right. split; [lia|eauto].
    + intros [= <-]. cbn -[Nat.min Nat.eqb drop take].
      split; [|done]. intros _. left. lia.
  - intros [= <-]. cbn -[Nat.min Nat.eqb drop take].
    split; [done|]. intros [?|[? _]]; lia.
Qed.

(** X6: a valid request presents the frame and nothing else: the bytes
    of its first buffer followed by the bytes of the descriptors that are
    still to be loaded are the bytes of the chain without the first
    twelve, the virtio-net header. *)
Theorem valid_request_is_the_frame dev i bs bss r :
  create dev (i, (Some bs, Some <$> bss)) = Ok r ->
  valid r = true ->
  exists rest,
    Request_processor.pending (get_request_processor r) = Some <$> rest
    /\ bytes_from (first_buffer r) 0 ++ concat rest = drop 12 (bs ++ concat bss).
Proof.
  unfold create, Request_processor.start, Buffer.skip, Buffer.done, Buffer.left,
    Virtio_net.Hdr_at, valid, bytes_from, first_buffer, get_request_processor,
    Virtio_net.Hdr_size.
  cbn -[Nat.min Nat.eqb drop take].
  destruct (Nat.eqb_spec (Nat.min 12 (length bs)) 12) as [Hmin|Hmin];
    cbn -[Nat.min Nat.eqb drop take].
  - rewrite length_drop.
    destruct (Nat.eqb_spec (length bs - 12) 0) as [Hzero|Hmore].
    + unfold Request_processor.next. cbn -[Nat.min Nat.eqb drop take].
      destruct bss as [|b bss']; cbn -[Nat.min Nat.eqb drop take];
        intros [= <-]; cbn -[Nat.min Nat.eqb drop take]; [done|].
      intros _. exists bss'. split; [done|].
      rewrite drop_app_ge by lia. replace (12 - length bs)%nat with 0%nat by lia.
      done.
    + intros [= <-]. cbn -[Nat.min Nat.eqb drop take].
      intros _. exists bss. split; [done|].
      rewrite drop_app_le by lia. done.
  - intros [= <-]. done.
Qed.

(** X7: the VLAN of a request is the id of untagged traffic or a
    twelve-bit number; a request without a tag always has the former. *)
Theorem vlan_id_range `{Ids} r :
  (has_vlan r = false -> vlan_id r = VLAN_ID_NATIVE)
  /\ (vlan_id r = VLAN_ID_NATIVE \/ 0 <= vlan_id r < 4096).
Proof.
  unfold vlan_id. split.
  - by intros ->.
  - destruct (negb (has_vlan r) || _); [by left|]. right.
    change 4095 with (Z.ones 12). rewrite Z.land_ones by lia.
    apply Z.mod_pos_bound. lia.
Qed.

Lemma drop_loop_all n : forall q,
  (forall i c, (Virtqueue.current_avail q <= i)%nat ->
               Virtqueue.ring q !! i = Some c -> is_Some (fst c)) ->
  (Virtqueue.current_avail q <= length (Virtqueue.ring q))%nat ->
  (length (Virtqueue.ring q) - Virtqueue.current_avail q < n)%nat ->
  drop_loop n q
  = (Ok tt,
     {| Virtqueue.is_ready := Virtqueue.is_ready q;
        Virtqueue.ring := Virtqueue.ring q;
        Virtqueue.current_avail := length (Virtqueue.ring q);
        Virtqueue.used :=
          Virtqueue.used q
          ++ ((fun i => Virtqueue.Finish_head (Some i) 0)
                <$> seq (Virtqueue.current_avail q)
                        (length (Virtqueue.ring q) - Virtqueue.current_avail q)) |}).
Proof.
  induction n as [|n IH]; intros q Hgood Hle Hfuel; [lia|].
  cbn [drop_loop]. unfold Virtqueue.next_avail.
  destruct (Virtqueue.ring q !! Virtqueue.current_avail q) as [c|] eqn:Hc.
  - pose proof (lookup_lt_Some _ _ _ Hc) as Hlt.
    destruct (Hgood _ _ (le_n _) Hc) as [bs Hbs].
    destruct c as [hd more]. cbn [fst] in Hbs. subst hd.
    unfold Request_processor.start. cbn [fst snd].
    rewrite IH; cbn [Virtqueue.finish Virtqueue.ring Virtqueue.current_avail
                     Virtqueue.is_ready Virtqueue.used].
    + f_equal. f_equal. rewrite <- app_assoc. f_equal.
      replace (length (Virtqueue.ring q) - Virtqueue.current_avail q)%nat
        with (S (length (Virtqueue.ring q) - S (Virtqueue.current_avail q)))
        by lia.
      done.
    + intros i c' Hi. apply Hgood. lia.
    + lia.
    + lia.
  - apply lookup_ge_None in Hc.
    replace (length (Virtqueue.ring q) - Virtqueue.current_avail q)%nat
      with 0%nat by lia.
    cbn [seq fmap list_fmap]. rewrite app_nil_r.
    f_equal. destruct q. cbn in *. f_equal. lia.
Qed.

Lemma drop_loop_bad n : forall q k (c : Virtqueue.Chain),
  (Virtqueue.current_avail q <= k)%nat ->
  Virtqueue.ring q !! k = Some c -> fst c = None ->
  (forall i c', (Virtqueue.current_avail q <= i < k)%nat ->
                Virtqueue.ring q !! i = Some c' -> is_Some (fst c')) ->
  (k - Virtqueue.current_avail q < n)%nat ->
  drop_loop n q
  = (Throw Bad_descriptor,
     {| Virtqueue.is_ready := Virtqueue.is_ready q;
        Virtqueue.ring := Virtqueue.ring q;
        Virtqueue.current_avail := S k;
        Virtqueue.used :=
          Virtqueue.used q
          ++ ((fun i => Virtqueue.Finish_head (Some i) 0)
                <$> seq (Virtqueue.current_avail q)
                        (k - Virtqueue.current_avail q)) |}).
Proof.
  induction n as [|n IH]; intros q k c Hle Hk Hbad Hgood Hfuel; [lia|].
  cbn [drop_loop]. unfold Virtqueue.next_avail.
  destruct (decide (Virtqueue.current_avail q = k)) as [Heq|Hne].
  - rewrite Heq, Hk. unfold Request_processor.start. cbn [fst snd].
    rewrite Hbad, Nat.sub_diag. cbn [seq fmap list_fmap].
    by rewrite app_nil_r.
  - pose proof (lookup_lt_Some _ _ _ Hk) as Hlt.
    destruct (lookup_lt_is_Some_2 (Virtqueue.ring q) (Virtqueue.current_avail q))
      as [c0 Hc0]; [lia|].
    rewrite Hc0.
    destruct (Hgood (Virtqueue.current_avail q) c0 ltac:(lia) Hc0) as [bs Hbs].
    destruct c0 as [hd more]. cbn [fst] in Hbs. subst hd.
    unfold Request_processor.start. cbn [fst snd].
    rewrite (IH _ k c); cbn [Virtqueue.finish Virtqueue.ring
                             Virtqueue.current_avail Virtqueue.is_ready
                             Virtqueue.used]; try done; try lia.
    + f_equal. f_equal. rewrite <- app_assoc. f_equal.
      replace (k - Virtqueue.current_avail q)%nat
        with (S (k - S (Virtqueue.current_avail q))) by lia.
      done.
    + intros i c' Hi. apply Hgood. lia.
Qed.

(** The header alone in the first descriptor, the frame in the second. *)
Lemma valid_iff_header_fits_witness :
  valid Scenario.split_request = true
  <-> (12 < length (Scenario.zeros 12))%nat
      \/ (length (Scenario.zeros 12) = 12%nat
          /\ exists b rest',
               snd Scenario.split_chain = Some b :: rest').
Proof.
  apply (valid_iff_header_fits 0 0 (Scenario.zeros 12)
           (snd Scenario.split_chain) Scenario.split_request).
  vm_compute. reflexivity.
Defined.

Lemma valid_request_is_the_frame_witness :
  exists rest,
    Request_processor.pending (get_request_processor Scenario.split_request)
    = Some <$> rest
    /\ bytes_from (first_buffer Scenario.split_request) 0 ++ concat rest
       = drop 12 (Scenario.zeros 12
                  ++ concat [Scenario.zeros 5 ++ [Byte.x02]
                             ++ Scenario.zeros 5 ++ [Byte.x01]]).
Proof.
  apply (valid_request_is_the_frame 0 0 (Scenario.zeros 12)
           [Scenario.zeros 5 ++ [Byte.x02] ++ Scenario.zeros 5 ++ [Byte.x01]]
           Scenario.split_request).
  - vm_compute. reflexivity.
  - vm_compute. reflexivity.
Defined.

End Virtio_net_request_facts.

(** ** Transfers *)

Module Virtio_net_transfer_facts.
Import Vlan Virtio_net_transfer.

Section Transfer.

Context `{Copy}.
Variable NDEBUG : bool.
Variable request : Virtio_net_request.t.

(** The destination as it is when [transfer] is called. *)
Variable d0 : Dst.

Local Abbreviation transfer_inv := (Virtio_net_transfer.transfer_inv d0).
Local Abbreviation delivered := (Virtio_net_transfer.delivered NDEBUG d0).

Lemma transfer_inv_start m : transfer_inv (start request m) d0.
Proof.
  split; unfold chains_taken, has_head; simpl; try done; try lia.
  split; [by intros [? ?]|lia].
Qed.

Lemma queue_eq (q q' : Virtqueue.t) :
  Virtqueue.is_ready q = Virtqueue.is_ready q' ->
  Virtqueue.ring q = Virtqueue.ring q' ->
  Virtqueue.current_avail q = Virtqueue.current_avail q' ->
  Virtqueue.used q = Virtqueue.used q' -> q = q'.
Proof. destruct q, q'. simpl. by intros -> -> -> ->. Qed.

Lemma dst_eq (d d' : Dst) :
  dst_queue d = dst_queue d' -> device_error d = device_error d' -> d = d'.
Proof. destruct d, d'. simpl. by intros -> ->. Qed.

Lemma next_src_keeps l l1 :
  next_src l = Ok (Some l1) ->
  consumed l1 = consumed l /\ dst_head l1 = dst_head l
  /\ num_merged l1 = num_merged l /\ dst_header l1 = dst_header l.
Proof.
  unfold next_src. destruct (Buffer.done (src l)).
  - destruct (Request_processor.next _ _) as [[[[] p] b]|]; intros [=]; by subst.
  - intros [=]; by subst.
Qed.

Lemma transfer_inv_same l l1 d :
  consumed l1 = consumed l -> dst_head l1 = dst_head l ->
  num_merged l1 = num_merged l -> dst_header l1 = dst_header l ->
  transfer_inv l d -> transfer_inv l1 d.
Proof.
  intros Hc Hh Hn Hd [].
  split; unfold chains_taken, has_head in *; rewrite ?Hc, ?Hh, ?Hn, ?Hd; done.
Qed.

(** Without a head and without a chain to take, the round returns
    [Dropped] and the destination is as it was before the transfer. *)
Lemma next_dst_head_dropped l d :
  transfer_inv l d -> dst_head l = None ->
  Virtqueue.ready (dst_queue d) = false
  \/ fst (Virtqueue.next_avail (dst_queue d)) = None ->
  next_dst_head request l d = Stop (Returns Dropped) l d0.
Proof.
  intros Hinv Hhead Hno. unfold next_dst_head. rewrite Hhead.
  destruct Hinv. unfold chains_taken, has_head in *. rewrite Hhead in *.
  unfold Virtqueue.ready in *.
  remember (consumed l) as cs eqn:Hcs.
  destruct (Virtqueue.is_ready (dst_queue d)) eqn:Hready; simpl.
  - destruct Hno as [Hno|Hno]; [done|].
    unfold Virtqueue.next_avail in *.
    destruct (Virtqueue.ring (dst_queue d) !! _); [done|].
    f_equal. apply dst_eq; simpl; [|done].
    destruct cs as [|[h0 t0] cs]; simpl in *.
    + apply queue_eq; simpl; [congruence|congruence|lia|congruence].
    + inversion ti_heads0; subst. apply queue_eq; simpl; congruence.
  - f_equal. apply dst_eq; [|done].
    assert (length cs = 0%nat) as Hlen.
    { destruct (length cs); [done|].
      rewrite ti_started0 in ti_ready0 by lia. done. }
    apply queue_eq; [congruence|congruence|lia|congruence].
Qed.

Lemma next_dst_head_cases l d :
  transfer_inv l d ->
  match next_dst_head request l d with
  | Continue l' d' => transfer_inv l' d' /\ is_Some (dst_head l')
  | Break _ _ => False
  | Stop (Returns Delivered) _ _ => False
  | Stop (Returns Dropped) l' d' => d' = d0
  | Stop _ _ _ => True
  end.
Proof.
  intros Hinv. unfold next_dst_head.
  destruct (dst_head l) as [h|] eqn:Hhead; [by eauto|].
  pose proof (next_dst_head_dropped l d Hinv Hhead) as Hdrop.
  unfold next_dst_head in Hdrop. rewrite Hhead in Hdrop.
  destruct (negb (Virtqueue.ready (dst_queue d))) eqn:Hready.
  { specialize (Hdrop (or_introl (proj1 (negb_true_iff _) Hready))).
    by inversion Hdrop. }
  destruct (Virtqueue.next_avail (dst_queue d)) as [[r|] q] eqn:Hnext.
  2:{ specialize (Hdrop (or_intror eq_refl)). by inversion Hdrop. }
  clear Hdrop.
  unfold Virtqueue.next_avail in Hnext.
  destruct (Virtqueue.ring (dst_queue d) !! Virtqueue.current_avail (dst_queue d))
    as [c|] eqn:Hc; [|done].
  inversion Hnext; subst; clear Hnext.
  apply lookup_lt_Some in Hc.
  apply negb_false_iff in Hready. unfold Virtqueue.ready in Hready.
  destruct Hinv. unfold chains_taken, has_head in *. rewrite Hhead in *.
  rewrite ti_ring0, ti_avail0 in Hc.
  unfold Request_processor.start. simpl.
  destruct (fst c) as [bs|]; [|done].
  assert (Hnew : forall l',
             consumed l' = consumed l ->
             dst_head l' = Some (Virtqueue.current_avail (dst_queue d)) ->
             num_merged l' = (num_merged l + 1) mod 65536 ->
             is_Some (dst_header l') ->
             transfer_inv l'
               (set_queue d
                  {| Virtqueue.is_ready := Virtqueue.is_ready (dst_queue d);
                     Virtqueue.ring := Virtqueue.ring (dst_queue d);
                     Virtqueue.current_avail := S (Virtqueue.current_avail (dst_queue d));
                     Virtqueue.used := Virtqueue.used (dst_queue d) |})
             /\ is_Some (dst_head l')).
  { intros l' Hc' Hh' Hn' Hd'. split; [|by rewrite Hh'].
    split; unfold chains_taken, has_head; simpl; rewrite ?Hc', ?Hh'; try done.
    - lia.
    - intros h [= <-]. lia.
    - rewrite Hn', ti_merged0. rewrite Zplus_mod_idemp_l. f_equal. lia.
    - lia.
    - split; [lia|done].
    - intros _. by rewrite <- ti_ready0. }
  simpl. destruct (dst_header l) as [h|] eqn:Hhdr.
  - apply Hnew; simpl; eauto.
  - destruct (Nat.ltb _ _); [done|].
    destruct (Virtio_net_request.header request); [|done].
    apply Hnew; simpl; eauto.
Qed.

Lemma copy_or_save_cases l d :
  transfer_inv l d -> is_Some (dst_head l) ->
  match copy_or_save l d with
  | Continue l' d' => transfer_inv l' d'
  | Break _ _ => False
  | Stop (Returns Exception) _ _ => True
  | Stop _ _ _ => False
  end.
Proof.
  intros Hinv [h Hh]. unfold copy_or_save.
  destruct (Request_processor.next _ _) as [[[has_next p] b]|]; [|done].
  destruct (negb _ || has_next).
  - destruct (copy_pkt _ _ _) as [[[m dst'] src'] n].
    eapply transfer_inv_same; [..|exact Hinv]; done.
  - destruct Hinv. unfold chains_taken, has_head in *. rewrite Hh in *.
    split; unfold chains_taken, has_head; simpl; try done.
    + rewrite length_app. simpl. lia.
    + rewrite fmap_app, length_app, seq_app, fmap_app. simpl.
      rewrite ti_heads0. f_equal. f_equal. f_equal.
      rewrite Hh. f_equal. by apply ti_head0.
    + rewrite ti_merged0. f_equal. rewrite length_app. simpl. lia.
    + rewrite length_app. simpl. lia.
    + rewrite ti_header0. rewrite length_app. simpl. lia.
    + intros _. apply ti_started0. lia.
Qed.

Lemma round_cases l d :
  transfer_inv l d ->
  match round request l d with
  | Continue l' d' => transfer_inv l' d'
  | Break l' d' => l' = l /\ d' = d
  | Stop (Returns Delivered) _ _ => False
  | Stop (Returns Dropped) l' d' => d' = d0
  | Stop _ _ _ => True
  end.
Proof.
  intros Hinv. unfold round.
  destruct (next_src l) as [[l1|]|e] eqn:Hsrc; [|done|done].
  apply next_src_keeps in Hsrc as (Hc & Hh & Hn & Hd).
  assert (Hinv1 : transfer_inv l1 d) by (by eapply transfer_inv_same).
  pose proof (next_dst_head_cases l1 d Hinv1) as Hcase.
  destruct (next_dst_head request l1 d) as [l2 d2| |o l2 d2]; [|done|done].
  destruct Hcase as [Hinv2 Hhead2].
  pose proof (copy_or_save_cases l2 d2 Hinv2 Hhead2) as Hcase.
  destruct (copy_or_save l2 d2) as [l3 d3| |[[]|] l3 d3]; done.
Qed.

Lemma rounds_inv n : forall l d l' d',
  transfer_inv l d -> rounds n request l d = Some (l', d') ->
  transfer_inv l' d'.
Proof.
  induction n as [|n IH]; intros l d l' d' Hinv; simpl.
  - by intros [= <- <-].
  - pose proof (round_cases l d Hinv) as Hcase.
    destruct (round request l d) as [l1 d1| |]; [|done|done].
    by apply IH.
Qed.

Lemma loop_rounds n k : forall l d l' d',
  rounds n request l d = Some (l', d') ->
  loop NDEBUG (n + k) request l d = loop NDEBUG k request l' d'.
Proof.
  induction n as [|n IH]; intros l d l' d'; simpl.
  - by intros [= <- <-].
  - destruct (round request l d) as [l1 d1| |]; [|done|done]. apply IH.
Qed.

Lemma finalize_cases l d :
  Z.of_nat (Virtio_net_transfer.available d0) < 65536 ->
  transfer_inv l d ->
  match finalize NDEBUG l d with
  | (Returns Delivered, l', d') => delivered l' d'
  | (Returns Dropped, l', d') => d' = d0
  | _ => True
  end.
Proof.
  intros Hring Hinv. unfold finalize. unfold available in Hring.
  destruct Hinv. unfold chains_taken, has_head in *.
  destruct (dst_header l) as [hdr|] eqn:Hhdr.
  2:{ assert (Hnone : ~ (0 < length (consumed l)
                         + match dst_head l with Some _ => 1 | None => 0 end)%nat).
      { rewrite <- ti_header0. by intros [? ?]. }
      apply dst_eq; [|done].
      apply queue_eq; [congruence|congruence|lia|congruence]. }
  assert (Hpos : (0 < length (consumed l)
                  + match dst_head l with Some _ => 1 | None => 0 end)%nat).
  { apply ti_header0. eauto. }
  destruct (consumed l) as [|c cs] eqn:Hc.
  - destruct (dst_head l) as [h|] eqn:Hh; simpl in Hpos; [|lia].
    destruct (assert NDEBUG (bool_decide _)); [|done].
    destruct (assert NDEBUG (num_merged l =? 1)); [|done].
    exists 1%nat, (Virtio_net.set_num_buffers hdr 1),
      (Virtqueue.Finish_head (Some h) (total l)). simpl in *.
    split_and!; try done.
    + by rewrite ti_used0.
    + f_equal. rewrite (ti_head0 h eq_refl). lia.
  - remember (c :: cs) as ccs eqn:Hccs.
    destruct (assert NDEBUG (bool_decide (is_Some (dst_head l)))) eqn:Hassert;
      [|done].
    set (n := (length ccs + match dst_head l with Some _ => 1 | None => 0 end)%nat)
      in *.
    exists n, (Virtio_net.set_num_buffers hdr (num_merged l)),
      (Virtqueue.Finish_range (ccs ++ [(dst_head l, total l)])). simpl.
    rewrite Hc.
    split_and!; try done.
    + by rewrite ti_used0.
    + rewrite ti_merged0. apply Z.mod_small. lia.
    + rewrite fmap_app, ti_heads0. simpl.
      destruct (dst_head l) as [h|] eqn:Hh.
      * rewrite (ti_head0 h eq_refl).
        replace n with (length ccs + 1)%nat by (unfold n; lia).
        rewrite seq_app, fmap_app. simpl.
        apply take_ge. rewrite length_app, length_fmap, length_seq. simpl. lia.
      * replace n with (length ccs + 0)%nat by (unfold n; lia).
        rewrite Nat.add_0_r.
        rewrite take_app_length'; [done|].
        by rewrite length_fmap, length_seq.
    + intros ->. rewrite length_app. simpl. unfold n.
      destruct (dst_head l); [done|]. discriminate Hassert.
Qed.

Lemma loop_cases fuel : forall l d,
  Z.of_nat (Virtio_net_transfer.available d0) < 65536 ->
  transfer_inv l d ->
  match loop NDEBUG fuel request l d with
  | (Returns Delivered, l', d') => delivered l' d'
  | (Returns Dropped, l', d') => d' = d0
  | _ => True
  end.
Proof.
  induction fuel as [|fuel IH]; intros l d Hring Hinv; simpl; [done|].
  pose proof (round_cases l d Hinv) as Hcase.
  destruct (round request l d) as [l1 d1|l1 d1|[[]|] l1 d1]; try done.
  - by apply IH.
  - destruct Hcase as [-> ->]. by apply finalize_cases.
Qed.

(** C3: a transfer that returns [Delivered] has called [finish] exactly
    once on the destination queue, and the [num_buffers] field of the
    header in the first destination chain is the number of chains taken
    from the ring for the frame; when no chain was put aside, that is 1,
    and so is the counter of merged chains.  (Fewer than 2^16 chains are
    available in a queue; the counter has 16 bits.) *)
Theorem delivered_finishes_once fuel m l' d' :
  Z.of_nat (Virtio_net_transfer.available d0) < 65536 ->
  transfer NDEBUG fuel request d0 m = (Returns Delivered, l', d') ->
  delivered l' d'.
Proof.
  intros Hring Hrun.
  pose proof (loop_cases fuel _ _ Hring (transfer_inv_start m)) as Hcase.
  unfold transfer in Hrun. by rewrite Hrun in Hcase.
Qed.

Lemma dropped_restores fuel m l' d' :
  Z.of_nat (Virtio_net_transfer.available d0) < 65536 ->
  transfer NDEBUG fuel request d0 m = (Returns Dropped, l', d') -> d' = d0.
Proof.
  intros Hring Hrun.
  pose proof (loop_cases fuel _ _ Hring (transfer_inv_start m)) as Hcase.
  unfold transfer in Hrun. by rewrite Hrun in Hcase.
Qed.

(** C4: when, after [n] rounds, there is source data left, no
    destination chain is held and the destination queue is not ready or
    has no chain available, the transfer returns [Dropped], and the
    destination is as it was before the transfer: the chains taken for
    the frame are available again and nothing was finished. *)
Theorem no_head_dropped_rewound m n l d l1 fuel :
  rounds n request (start request m) d0 = Some (l, d) ->
  next_src l = Ok (Some l1) ->
  dst_head l = None ->
  Virtqueue.ready (dst_queue d) = false
  \/ fst (Virtqueue.next_avail (dst_queue d)) = None ->
  (n < fuel)%nat ->
  transfer NDEBUG fuel request d0 m = (Returns Dropped, l1, d0).
Proof.
  intros Hrounds Hsrc Hhead Hno Hfuel.
  pose proof (rounds_inv _ _ _ _ _ (transfer_inv_start m) Hrounds) as Hinv.
  unfold transfer.
  replace fuel with (n + S (fuel - S n))%nat by lia.
  rewrite (loop_rounds _ _ _ _ _ _ Hrounds). simpl.
  unfold round. rewrite Hsrc.
  pose proof (next_src_keeps _ _ Hsrc) as (Hc & Hh & Hn & Hd).
  rewrite (next_dst_head_dropped l1 d); [done| |congruence|done].
  by eapply transfer_inv_same.
Qed.

Lemma weight_cons x xs :
  sum_list (desc_weight <$> x :: xs)
  = (desc_weight x + sum_list (desc_weight <$> xs))%nat.
Proof. reflexivity. Qed.

Lemma done_left b : Buffer.done b = true <-> Buffer.left b = 0%nat.
Proof. unfold Buffer.done. apply Nat.eqb_eq. Qed.

Lemma skip_left n b : (Buffer.left (snd (Buffer.skip n b)) <= Buffer.left b)%nat.
Proof.
  unfold Buffer.skip, Buffer.left.
  destruct (Buffer.pos b) as [bs|] eqn:Hpos; simpl; [|by rewrite Hpos].
  rewrite length_drop. lia.
Qed.

(** The head of the round: a source descriptor is used up, or the source
    buffer has bytes left. *)
Lemma next_src_work_left l l1 d :
  next_src l = Ok (Some l1) ->
  dst_head l1 = dst_head l
  /\ ((work_left l1 d < work_left l d)%nat
      \/ (work_left l1 d = work_left l d /\ (0 < Buffer.left (src l1))%nat)).
Proof.
  unfold next_src. destruct (Buffer.done (src l)) eqn:Hdone.
  - apply done_left in Hdone. unfold Request_processor.next.
    destruct (Request_processor.pending (src_req_proc l)) as [|[bs|] rest] eqn:Hpend;
      [done| |done].
    intros [= <-]. split; [done|]. left.
    unfold work_left.
    cbn [set_src src src_req_proc dst_head dst dst_req_proc
         Request_processor.pending].
    rewrite Hpend, Hdone, weight_cons.
    change (desc_weight (Some bs)) with (S (length bs)).
    change (Buffer.left {| Buffer.pos := Some bs |}) with (length bs). lia.
  - intros [= <-]. split; [done|]. right. split; [done|].
    destruct (Buffer.left (src l)) eqn:Hleft; [|lia].
    apply done_left in Hleft. congruence.
Qed.

(** Taking a destination chain uses up the chain. *)
Lemma next_dst_head_work_left l d l' d' :
  next_dst_head request l d = Continue l' d' ->
  src l' = src l /\ is_Some (dst_head l')
  /\ (work_left l' d' <= work_left l d)%nat.
Proof.
  unfold next_dst_head. destruct (dst_head l) as [h|] eqn:Hhead.
  { intros [= <- <-]. rewrite Hhead. eauto. }
  destruct (negb _); [done|].
  unfold Virtqueue.next_avail.
  destruct (Virtqueue.ring (dst_queue d) !! Virtqueue.current_avail (dst_queue d))
    as [c|] eqn:Hc; [|done].
  unfold Request_processor.start. simpl.
  destruct c as [[bs|] more]; [|done]. simpl.
  assert (Hwork : forall l2 b,
             src l2 = src l -> src_req_proc l2 = src_req_proc l ->
             dst_head l2 = Some (Virtqueue.current_avail (dst_queue d)) ->
             dst l2 = b -> (Buffer.left b <= length bs)%nat ->
             Request_processor.pending (dst_req_proc l2) = more ->
             (work_left l2
                (set_queue d
                   {| Virtqueue.is_ready := Virtqueue.is_ready (dst_queue d);
                      Virtqueue.ring := Virtqueue.ring (dst_queue d);
                      Virtqueue.current_avail := S (Virtqueue.current_avail (dst_queue d));
                      Virtqueue.used := Virtqueue.used (dst_queue d) |})
              <= work_left l d)%nat).
  { intros l2 b Hs Hp Hh Hd Hb Hm. unfold work_left.
    cbn [set_queue dst_queue Virtqueue.current_avail Virtqueue.ring].
    rewrite Hs, Hp, Hh, Hd, Hm, Hhead.
    rewrite (drop_S _ _ _ Hc), fmap_cons.
    change (sum_list (chain_weight (Some bs, more) :: ?xs))
      with (chain_weight (Some bs, more) + sum_list xs)%nat.
    unfold chain_weight. cbn [fst snd].
    change (desc_weight (Some bs)) with (S (length bs)). lia. }
  destruct (dst_header l) as [hdr|] eqn:Hhdr.
  - intros [= <- <-]. simpl. split; [done|]. split; [by eauto|].
    eapply Hwork; simpl; done.
  - destruct (Nat.ltb _ _); [done|].
    destruct (Virtio_net_request.header request); [|done].
    intros [= <- <-]. simpl. split; [done|]. split; [by eauto|].
    eapply Hwork; simpl; try done.
    pose proof (skip_left Virtio_net.Hdr_size {| Buffer.pos := Some bs |}) as Hskip.
    simpl in Hskip. exact Hskip.
Qed.

(** The rest of the round uses up a destination descriptor, bytes of the
    buffers, or the destination chain. *)
Lemma copy_or_save_work_left l d l' d' :
  copy_progress ->
  copy_or_save l d = Continue l' d' -> is_Some (dst_head l) ->
  (work_left l' d' <= work_left l d)%nat
  /\ ((0 < Buffer.left (src l))%nat -> (work_left l' d' < work_left l d)%nat).
Proof.
  intros Hcopy Hrun [h Hh]. revert Hrun.
  unfold copy_or_save, Request_processor.next.
  destruct (Request_processor.pending (dst_req_proc l)) as [|[bs|] rest] eqn:Hpend;
    [| |done]; simpl.
  - (* no further descriptor in the chain *)
    destruct (Buffer.done (dst l)) eqn:Hdone; simpl.
    + apply done_left in Hdone. intros [= <- <-].
      unfold work_left.
      cbn [clear_dst_head push_consumed set_dst src src_req_proc dst_head dst
           dst_req_proc].
      rewrite Hh, Hpend, Hdone. cbn [fmap list_fmap sum_list sum_list_with]. lia.
    + specialize (Hcopy (mangle l) (dst l) (src l)).
      destruct (copy_pkt _ _ _) as [[[m dst'] src'] n].
      destruct Hcopy as (Hd & Hs & Hprogress).
      intros [= <- <-]. unfold work_left.
      cbn [set_copied set_dst src src_req_proc dst_head dst dst_req_proc].
      rewrite Hh, Hpend.
      assert (0 < Buffer.left (dst l))%nat.
      { destruct (Buffer.left (dst l)) eqn:Hleft; [|lia].
        apply done_left in Hleft. congruence. }
      split; [lia|]. intros Hsrc. specialize (Hprogress ltac:(done) Hsrc). lia.
  - (* the next descriptor of the chain is loaded *)
    set (b := {| Buffer.pos := Some bs |}).
    assert (Hb : Buffer.left b = length bs) by done.
    destruct (negb _ || true) eqn:Hor.
    2:{ rewrite orb_true_r in Hor. done. }
    specialize (Hcopy (mangle l) b (src l)).
    destruct (copy_pkt _ _ _) as [[[m dst'] src'] n].
    destruct Hcopy as (Hd & Hs & _).
    intros [= <- <-]. unfold work_left.
    cbn [set_copied set_dst src src_req_proc dst_head dst dst_req_proc
         Request_processor.pending].
    rewrite Hh, Hpend, weight_cons.
    change (desc_weight (Some bs)) with (S (length bs)). lia.
Qed.

Lemma round_work_left l d l' d' :
  copy_progress ->
  round request l d = Continue l' d' ->
  (work_left l' d' < work_left l d)%nat.
Proof.
  intros Hcopy. unfold round.
  destruct (next_src l) as [[l1|]|e] eqn:Hsrc; [|done|done].
  destruct (next_src_work_left _ _ d Hsrc) as [Hhead Hsrc_work].
  destruct (next_dst_head request l1 d) as [l2 d2| |] eqn:Hdst; [|done|done].
  destruct (next_dst_head_work_left _ _ _ _ Hdst) as (Hsame & Hhead2 & Hdst_work).
  intros Hrest.
  destruct (copy_or_save_work_left _ _ _ _ Hcopy Hrest Hhead2) as [Hle Hlt].
  rewrite Hsame in Hlt.
  destruct Hsrc_work as [?|[? Hleft]]; [lia|].
  specialize (Hlt Hleft). lia.
Qed.

Lemma round_not_cut_off l d l' d' :
  round request l d <> Stop (Throws Cut_off) l' d'.
Proof.
  unfold round, next_src, next_dst_head, copy_or_save,
    Request_processor.next, Request_processor.start.
  repeat case_match; congruence.
Qed.

Lemma finalize_not_cut_off l d :
  fst (fst (finalize NDEBUG l d)) <> Throws Cut_off.
Proof.
  unfold finalize, assert. repeat case_match; simpl; congruence.
Qed.

(** With [copy_pkt] moving on, the loop ends by itself when it is given
    more rounds than there is work. *)
Lemma loop_ends fuel : forall l d,
  copy_progress ->
  (work_left l d < fuel)%nat ->
  fst (fst (loop NDEBUG fuel request l d)) <> Throws Cut_off.
Proof.
  induction fuel as [|fuel IH]; intros l d Hcopy Hfuel; [lia|]. simpl.
  destruct (round request l d) as [l' d'|l' d'|o l' d'] eqn:Hround.
  - apply IH; [done|]. apply (round_work_left _ _ _ _ Hcopy) in Hround. lia.
  - apply finalize_not_cut_off.
  - simpl. intros ->. by apply round_not_cut_off in Hround.
Qed.

(** *** How a transfer ends *)

Lemma rewind_partial_start l d :
  transfer_inv l d -> set_queue d (rewind_partial l (dst_queue d)) = d0.
Proof.
  intros []. unfold chains_taken, has_head in *.
  apply dst_eq; [|done]. unfold rewind_partial. simpl.
  destruct (consumed l) as [|[h0 t0] cs] eqn:Hc; simpl in *.
  - destruct (dst_head l) as [h|] eqn:Hh; simpl.
    + rewrite (ti_head0 h eq_refl).
      apply queue_eq; simpl; [congruence|congruence|lia|congruence].
    + apply queue_eq; simpl; [congruence|congruence|lia|congruence].
  - inversion ti_heads0; subst. apply queue_eq; simpl; congruence.
Qed.

Lemma next_src_throws l e : next_src l = Throw e -> e = Bad_descriptor.
Proof.
  unfold next_src, Request_processor.next. repeat case_match; congruence.
Qed.

Lemma inv_failed l d :
  transfer_inv l d -> is_Some (dst_head l) ->
  Virtio_net_transfer.failed d0 l (flag_device_error d).
Proof.
  intros [] [h Hh]. unfold failed, chains_taken, has_head in *.
  rewrite Hh in *. simpl. split_and!; try done. lia.
Qed.

Lemma next_dst_head_stops l d :
  transfer_inv l d ->
  match next_dst_head request l d with
  | Stop (Returns Exception) l' d' => Virtio_net_transfer.failed d0 l' d'
  | Stop (Throws Bad_descriptor) _ _ => False
  | _ => True
  end.
Proof.
  intros Hinv. unfold next_dst_head.
  destruct (dst_head l) eqn:Hhead; [done|].
  destruct (negb _); [done|].
  unfold Virtqueue.next_avail.
  destruct (Virtqueue.ring (dst_queue d) !! _) as [c|]; [|done].
  destruct (Request_processor.start _) as [[[head proc] buf]|e].
  - simpl. destruct (dst_header l); [done|].
    destruct (Nat.ltb _ _); [done|].
    by destruct (Virtio_net_request.header request).
  - destruct Hinv. unfold failed, chains_taken, has_head in *.
    rewrite Hhead in *. simpl. split_and!; try done. lia.
Qed.

Lemma copy_or_save_stops l d :
  transfer_inv l d -> is_Some (dst_head l) ->
  match copy_or_save l d with
  | Stop (Returns Exception) l' d' => Virtio_net_transfer.failed d0 l' d'
  | Stop (Throws Bad_descriptor) _ _ => False
  | _ => True
  end.
Proof.
  intros Hinv Hhead. unfold copy_or_save.
  destruct (Request_processor.next _ _) as [[[has_next p] b]|];
    [|by apply inv_failed].
  destruct (negb _ || has_next); [|done].
  by destruct (copy_pkt _ _ _) as [[[m dst'] src'] n].
Qed.

Lemma round_stops l d :
  transfer_inv l d ->
  match round request l d with
  | Stop (Returns Exception) l' d' => Virtio_net_transfer.failed d0 l' d'
  | Stop (Throws Bad_descriptor) _ d' => d' = d0
  | _ => True
  end.
Proof.
  intros Hinv. unfold round.
  destruct (next_src l) as [[l1|]|e] eqn:Hsrc; [|done|].
  - apply next_src_keeps in Hsrc as (Hc & Hh & Hn & Hd).
    assert (Hinv1 : transfer_inv l1 d)
      by (eapply transfer_inv_same; [..|exact Hinv]; done).
    pose proof (next_dst_head_cases l1 d Hinv1) as Hcase.
    pose proof (next_dst_head_stops l1 d Hinv1) as Hstop.
    destruct (next_dst_head request l1 d) as [l2 d2| |[[]|[]] l2 d2]; try done.
    destruct Hcase as [Hinv2 Hhead2].
    pose proof (copy_or_save_stops l2 d2 Hinv2 Hhead2) as Hstop2.
    by destruct (copy_or_save l2 d2) as [l3 d3| |[[]|[]] l3 d3].
  - apply next_src_throws in Hsrc as ->. by apply rewind_partial_start.
Qed.

Lemma finalize_stops l d :
  match fst (fst (finalize NDEBUG l d)) with
  | Returns Exception | Throws Bad_descriptor => False
  | _ => True
  end.
Proof.
  unfold finalize, assert.
  destruct (dst_header l); [|done].
  destruct (consumed l), NDEBUG, (bool_decide (is_Some (dst_head l)));
    simpl; try done.
  all: by destruct (num_merged l =? 1).
Qed.

Lemma loop_stops fuel : forall l d,
  transfer_inv l d ->
  match loop NDEBUG fuel request l d with
  | (Returns Exception, l', d') => Virtio_net_transfer.failed d0 l' d'
  | (Throws Bad_descriptor, _, d') => d' = d0
  | _ => True
  end.
Proof.
  induction fuel as [|fuel IH]; intros l d Hinv; simpl; [done|].
  pose proof (round_cases l d Hinv) as Hcase.
  pose proof (round_stops l d Hinv) as Hstop.
  destruct (round request l d) as [l1 d1|l1 d1|o l1 d1].
  - by apply IH.
  - pose proof (finalize_stops l1 d1) as Hfin.
    by destruct (finalize NDEBUG l1 d1) as [[[[]|[]] ?] ?].
  - by destruct o as [[]|[]].
Qed.

(** X8: a transfer that returns [Exception] has flagged the device
    error of the destination and has not touched its queue after that:
    nothing was finished, and the chains taken for the frame were not
    given back.  The position of the queue stays behind all of them: the
    chains that were filled and put aside, and the one whose descriptor
    failed validation. *)
Theorem exception_flags_destination fuel m l' d' :
  transfer NDEBUG fuel request d0 m = (Returns Exception, l', d') ->
  device_error d' = true
  /\ Virtqueue.is_ready (dst_queue d') = Virtqueue.is_ready (dst_queue d0)
  /\ Virtqueue.used (dst_queue d') = Virtqueue.used (dst_queue d0)
  /\ Virtqueue.ring (dst_queue d') = Virtqueue.ring (dst_queue d0)
  /\ Virtqueue.current_avail (dst_queue d')
     = (Virtqueue.current_avail (dst_queue d0) + length (consumed l') + 1)%nat.
Proof.
  intros Hrun.
  pose proof (loop_stops fuel _ _ (transfer_inv_start m)) as Hcase.
  unfold transfer in Hrun. by rewrite Hrun in Hcase.
Qed.

(** X9: when a descriptor of the source fails validation, the
    transfer passes [Bad_descriptor] on and the destination is as it was
    before the transfer: the chains taken for the frame are available
    again, nothing was finished and no error is flagged. *)
Theorem bad_source_restores_destination fuel m l' d' :
  transfer NDEBUG fuel request d0 m = (Throws Bad_descriptor, l', d') ->
  d' = d0.
Proof.
  intros Hrun.
  pose proof (loop_stops fuel _ _ (transfer_inv_start m)) as Hcase.
  unfold transfer in Hrun. by rewrite Hrun in Hcase.
Qed.

Lemma loop_dropped fuel : forall l d,
  transfer_inv l d ->
  match loop NDEBUG fuel request l d with
  | (Returns Dropped, _, d') => d' = d0
  | _ => True
  end.
Proof.
  induction fuel as [|fuel IH]; intros l d Hinv; simpl; [done|].
  pose proof (round_cases l d Hinv) as Hcase.
  destruct (round request l d) as [l1 d1|l1 d1|[[]|] l1 d1]; try done.
  - by apply IH.
  - destruct Hcase as [-> ->]. unfold finalize.
    destruct Hinv. unfold chains_taken, has_head in *.
    destruct (dst_header l) as [hdr|] eqn:Hhdr.
    + destruct (consumed l); unfold assert; repeat case_match; done.
    + assert (Hnone : ~ (0 < length (consumed l)
                         + match dst_head l with Some _ => 1 | None => 0 end)%nat).
      { rewrite <- ti_header0. by intros [? ?]. }
      apply dst_eq; [|done].
      apply queue_eq; [congruence|congruence|lia|congruence].
Qed.

(** X10: whenever a transfer returns [Dropped], for whatever reason,
    the destination is as it was before the transfer. *)
Theorem dropped_leaves_destination fuel m l' d' :
  transfer NDEBUG fuel request d0 m = (Returns Dropped, l', d') -> d' = d0.
Proof.
  intros Hrun.
  pose proof (loop_dropped fuel _ _ (transfer_inv_start m)) as Hcase.
  unfold transfer in Hrun. by rewrite Hrun in Hcase.
Qed.

Lemma round_break l d l' d' :
  round request l d = Break l' d' ->
  l' = l /\ Buffer.done (src l) = true
  /\ Request_processor.pending (src_req_proc l) = [].
Proof.
  unfold round.
  destruct (next_src l) as [[l1|]|e] eqn:Hsrc; [| |done].
  - destruct (next_dst_head request l1 d) as [l2 d2|l2 d2|o l2 d2] eqn:Hdst;
      [| |done].
    + unfold copy_or_save. repeat case_match; congruence.
    + unfold next_dst_head, Request_processor.start in Hdst.
      repeat case_match; congruence.
  - intros [= <- <-]. split; [done|]. revert Hsrc. unfold next_src.
    destruct (Buffer.done (src l)); [|done].
    unfold Request_processor.next.
    by destruct (Request_processor.pending (src_req_proc l)) as [|[bs|] rest].
Qed.

Lemma finalize_src l d :
  src (snd (fst (finalize NDEBUG l d))) = src l
  /\ src_req_proc (snd (fst (finalize NDEBUG l d))) = src_req_proc l.
Proof.
  unfold finalize, assert. repeat case_match; done.
Qed.

Lemma loop_delivered_src fuel : forall l d l' d',
  loop NDEBUG fuel request l d = (Returns Delivered, l', d') ->
  Buffer.done (src l') = true
  /\ Request_processor.pending (src_req_proc l') = [].
Proof.
  induction fuel as [|fuel IH]; intros l d l' d'; simpl; [done|].
  destruct (round request l d) as [l1 d1|l1 d1|o l1 d1] eqn:Hround.
  - apply IH.
  - apply round_break in Hround as (-> & Hdone & Hpend).
    destruct (finalize_src l d1) as [Hsrc Hproc].
    destruct (finalize NDEBUG l d1) as [[o l2] d2]. simpl in *.
    intros [= -> <- <-]. by rewrite Hsrc, Hproc.
  - intros [= -> <- <-]. revert Hround.
    unfold round, next_src, next_dst_head, copy_or_save,
      Request_processor.start, Request_processor.next.
    repeat case_match; congruence.
Qed.

(** X11: a frame that is delivered was read to its end: when a
    transfer returns [Delivered], the last buffer of the request is used
    up and no descriptor of the request is left. *)
Theorem delivered_consumes_source fuel m l' d' :
  transfer NDEBUG fuel request d0 m = (Returns Delivered, l', d') ->
  Buffer.done (src l') = true
  /\ Request_processor.pending (src_req_proc l') = [].
Proof. apply loop_delivered_src. Qed.

Lemma loop_more_fuel fuel k : forall l d,
  fst (fst (loop NDEBUG fuel request l d)) <> Throws Cut_off ->
  loop NDEBUG (fuel + k) request l d = loop NDEBUG fuel request l d.
Proof.
  induction fuel as [|fuel IH]; intros l d; simpl; [done|].
  destruct (round request l d) as [l1 d1|l1 d1|o l1 d1]; [apply IH|done|done].
Qed.

(** X12: the loop of [transfer] ends.  When [copy_pkt] moves on, a
    bound above the work that is left at the start (the bytes and
    descriptors of the request and of the available destination chains)
    is enough for the loop to end by itself, and every larger bound gives
    the same outcome, locals and destination. *)
Theorem transfer_ends_whatever_the_bound fuel fuel' m :
  copy_progress ->
  (work_left (start request m) d0 < fuel)%nat -> (fuel <= fuel')%nat ->
  fst (fst (transfer NDEBUG fuel request d0 m)) <> Throws Cut_off
  /\ transfer NDEBUG fuel' request d0 m = transfer NDEBUG fuel request d0 m.
Proof.
  intros Hcopy Hfuel Hmore. unfold transfer.
  pose proof (loop_ends fuel _ _ Hcopy Hfuel) as Hend.
  split; [done|].
  replace fuel' with (fuel + (fuel' - fuel))%nat by lia.
  by apply loop_more_fuel.
Qed.

(** X13: when the request has data and the first buffer of the
    destination chain is shorter than the virtio-net header, the transfer
    throws [Runtime_error]; the chain stays taken: it is neither finished
    nor given back, and no device error is flagged. *)
Theorem short_first_buffer_raises fuel m l1 (c : Virtqueue.Chain) bs :
  next_src (start request m) = Ok (Some l1) ->
  Virtqueue.ready (dst_queue d0) = true ->
  Virtqueue.ring (dst_queue d0) !! Virtqueue.current_avail (dst_queue d0)
  = Some c ->
  fst c = Some bs ->
  (length bs < Virtio_net.Hdr_size)%nat ->
  exists l',
    transfer NDEBUG (S fuel) request d0 m
    = (Throws Runtime_error, l',
       set_queue d0
         {| Virtqueue.is_ready := Virtqueue.is_ready (dst_queue d0);
            Virtqueue.ring := Virtqueue.ring (dst_queue d0);
            Virtqueue.current_avail := S (Virtqueue.current_avail (dst_queue d0));
            Virtqueue.used := Virtqueue.used (dst_queue d0) |}).
Proof.
  intros Hsrc Hready Hring Hbs Hshort.
  unfold transfer. cbn [loop]. unfold round. rewrite Hsrc.
  apply next_src_keeps in Hsrc as (_ & Hh & _ & Hd).
  unfold next_dst_head. rewrite Hh. cbn [start dst_head].
  rewrite Hready. cbn [negb]. unfold Virtqueue.next_avail. rewrite Hring.
  unfold Request_processor.start. cbn [fst snd]. rewrite Hbs.
  cbn [set_dst set_dst_head dst_header]. rewrite Hd. cbn [start dst_header].
  cbn [Buffer.left Buffer.pos].
  apply Nat.ltb_lt in Hshort. rewrite Hshort. eauto.
Qed.

End Transfer.

(** The [copy_pkt] of the small installation moves on. *)
Lemma verbatim_progress : copy_progress (H := Scenario.copy).
Proof.
  intros m dst src. simpl. unfold Scenario.verbatim.
  assert (Hskip : forall n b,
             Buffer.left (snd (Buffer.skip n b)) = (Buffer.left b - n)%nat).
  { intros n b. unfold Buffer.skip, Buffer.left.
    destruct (Buffer.pos b) as [bs|] eqn:Hpos; simpl; [|by rewrite Hpos].
    apply length_drop. }
  rewrite !Hskip. lia.
Qed.

(** A frame that takes two chains. *)
Lemma delivered_finishes_once_witness :
  Virtio_net_transfer.delivered false (Scenario.destination 2)
    (snd (fst Scenario.delivery)) (snd Scenario.delivery).
Proof.
  apply (delivered_finishes_once (H := Scenario.copy) false Scenario.request
           (Scenario.destination 2) 10 none).
  - vm_compute. reflexivity.
  - vm_compute. reflexivity.
Defined.

(** A frame that needs two chains where one is available: the third
    round finds no chain, and the first chain is given back. *)
Lemma no_head_dropped_rewound_witness :
  transfer (H := Scenario.copy) false 10 Scenario.request
    (Scenario.destination 1) none
  = (Returns Dropped, Scenario.after_next_src 2, Scenario.destination 1).
Proof.
  apply (no_head_dropped_rewound (H := Scenario.copy) false Scenario.request
           (Scenario.destination 1) none 2
           (fst (Scenario.after_rounds 2)) (snd (Scenario.after_rounds 2))).
  - vm_compute. reflexivity.
  - vm_compute. reflexivity.
  - vm_compute. reflexivity.
  - right. vm_compute. reflexivity.
  - lia.
Defined.

(** The frame that takes two chains. *)
Lemma delivered_consumes_source_witness :
  Buffer.done (src (snd (fst Scenario.delivery))) = true
  /\ Request_processor.pending (src_req_proc (snd (fst Scenario.delivery))) = [].
Proof.
  apply (delivered_consumes_source (H := Scenario.copy) false Scenario.request
           (Scenario.destination 2) 10 none
           (snd (fst Scenario.delivery)) (snd Scenario.delivery)).
  vm_compute. reflexivity.
Defined.

(** The second destination chain fails validation after the first one
    was filled and put aside: both chains stay taken. *)
Lemma exception_flags_destination_witness :
  device_error
    (snd (transfer (H := Scenario.copy) false 10 Scenario.request
            Scenario.broken_second_destination none)) = true
  /\ Virtqueue.used
       (dst_queue
          (snd (transfer (H := Scenario.copy) false 10 Scenario.request
                  Scenario.broken_second_destination none)))
     = []
  /\ Virtqueue.current_avail
       (dst_queue
          (snd (transfer (H := Scenario.copy) false 10 Scenario.request
                  Scenario.broken_second_destination none)))
     = 2%nat.
Proof.
  destruct (exception_flags_destination (H := Scenario.copy) false
              Scenario.request Scenario.broken_second_destination 10 none
              (snd (fst (transfer (H := Scenario.copy) false 10 Scenario.request
                           Scenario.broken_second_destination none)))
              (snd (transfer (H := Scenario.copy) false 10 Scenario.request
                      Scenario.broken_second_destination none)))
    as (Herr & _ & Hused & _ & Hpos).
  - vm_compute. reflexivity.
  - split; [exact Herr|]. split; [exact Hused|exact Hpos].
Defined.

(** The second descriptor of the request fails validation after the
    first destination chain was filled. *)
Lemma bad_source_restores_destination_witness :
  snd (transfer (H := Scenario.copy) false 10 Scenario.broken_request
         (Scenario.destination 2) none)
  = Scenario.destination 2.
Proof.
  apply (bad_source_restores_destination (H := Scenario.copy) false
           Scenario.broken_request (Scenario.destination 2) 10 none
           (snd (fst (transfer (H := Scenario.copy) false 10
                        Scenario.broken_request (Scenario.destination 2) none)))).
  vm_compute. reflexivity.
Defined.

(** A frame that needs two chains where one is available. *)
Lemma dropped_leaves_destination_witness :
  snd (transfer (H := Scenario.copy) false 10 Scenario.request
         (Scenario.destination 1) none)
  = Scenario.destination 1.
Proof.
  apply (dropped_leaves_destination (H := Scenario.copy) false
           Scenario.request (Scenario.destination 1) 10 none
           (snd (fst (transfer (H := Scenario.copy) false 10
                        Scenario.request (Scenario.destination 1) none)))).
  vm_compute. reflexivity.
Defined.

Lemma transfer_ends_whatever_the_bound_witness :
  fst (fst (transfer (H := Scenario.copy) false 100 Scenario.request
              (Scenario.destination 2) none)) <> Throws Cut_off
  /\ transfer (H := Scenario.copy) false 200 Scenario.request
       (Scenario.destination 2) none
     = transfer (H := Scenario.copy) false 100 Scenario.request
         (Scenario.destination 2) none.
Proof.
  apply (transfer_ends_whatever_the_bound (H := Scenario.copy) false
           Scenario.request (Scenario.destination 2) 100 200 none).
  - exact verbatim_progress.
  - vm_compute. lia.
  - lia.
Defined.

(** A destination whose first buffer has eight bytes. *)
Lemma short_first_buffer_raises_witness :
  exists l',
    transfer (H := Scenario.copy) false 10 Scenario.request
      Scenario.short_destination none
    = (Throws Runtime_error, l',
       set_queue Scenario.short_destination
         {| Virtqueue.is_ready := true;
            Virtqueue.ring := [Scenario.one (Scenario.zeros 8)];
            Virtqueue.current_avail := 1;
            Virtqueue.used := [] |}).
Proof.
  apply (short_first_buffer_raises (H := Scenario.copy) false Scenario.request
           Scenario.short_destination 9 none
           (Virtio_net_transfer.start Scenario.request none)
           (Scenario.one (Scenario.zeros 8)) (Scenario.zeros 8)).
  - vm_compute. reflexivity.
  - reflexivity.
  - reflexivity.
  - reflexivity.
  - vm_compute. lia.
Defined.

End Virtio_net_transfer_facts.

(** ** Ports *)

Module Virtio_port_facts.
Import Vlan Virtio_port.

Section Port.

Context `{Ids}.
Variable NDEBUG : bool.

Lemma request_mangle_spec p src_port :
  request_mangle p src_port = mangle_spec p src_port.
Proof.
  unfold request_mangle, mangle_spec, is_access, get_vlan.
  destruct (is_trunk p), (is_trunk src_port), (is_native src_port); done.
Qed.

(** C6: [handle_request] runs the transfer with the mangle of the
    specification: Insert(source vid) when the destination is Trunk and
    the source is Access, None when the destination is Trunk and the
    source is Trunk or Native, Remove when the destination is not Trunk
    and the source is Trunk, None in all remaining cases. *)
Theorem handle_request_mangle `{Copy} fuel p src_port request :
  handle_request NDEBUG fuel p src_port request
  = let '(o, _, d) :=
      Virtio_net_transfer.transfer NDEBUG fuel request
        {| Virtio_net_transfer.dst_queue := rx_q p;
           Virtio_net_transfer.device_error := device_failed p |}
        (mangle_spec p src_port) in
    (o, set_rx p d).
Proof. unfold handle_request. by rewrite request_mangle_spec. Qed.

Lemma trunk_ids_valid ids : forall filter set filter' set',
  trunk_ids false ids filter set = Ok (filter', set') ->
  (forall id, id ∈ set -> vlan_valid_id id = true) ->
  forall id, id ∈ set' -> vlan_valid_id id = true.
Proof.
  induction ids as [|i ids IH]; intros filter set filter' set'; simpl.
  - by intros [= <- <-].
  - unfold assert. simpl. destruct (vlan_valid_id i) eqn:Hi; [|done].
    intros Hrun Hset. eapply IH; [exact Hrun|].
    intros id [->%elem_of_singleton|Hin]%elem_of_union; eauto.
Qed.

(** With assertions on, the ids of a trunk port are valid ids. *)
Lemma set_vlan_trunk_valid p ids p' :
  set_vlan_trunk false p ids = Ok p' ->
  is_trunk p' = true /\ forall id, id ∈ _vlan_ids p' -> vlan_valid_id id = true.
Proof.
  unfold set_vlan_trunk.
  destruct (trunk_ids false ids 0 ∅) as [[filter set]|] eqn:Hids; [|done].
  intros [= <-]. split.
  - unfold is_trunk. simpl. apply Z.eqb_refl.
  - simpl. eapply trunk_ids_valid; [exact Hids|]. intros id Hid. set_solver.
Qed.

(** The ingress policy where [has_vlan] and [vlan_id] see the tag, which
    they do when it lies in the first data buffer: when [get_tx_request]
    has fetched a valid request [ret] and the port is an Access port and
    [has_vlan] is true, or the port is a Trunk port and [has_vlan] is
    false or [vlan_id] is not in the set of the port, then
    [get_tx_request] returns none, and the head of the request is finished
    on the transmission queue with zero bytes.  (The VLAN set of a port
    holds valid ids only, and the id of untagged traffic is not one of
    them.) *)
Lemma ingress_policy_drops self p ret q :
  vlan_valid_id VLAN_ID_NATIVE = false ->
  (forall id, id ∈ _vlan_ids p -> vlan_valid_id id = true) ->
  Virtio_net_request.get_request self (tx_q p) = (Ok (Some ret), q) ->
  (is_access p = true /\ Virtio_net_request.has_vlan ret = true)
  \/ (is_trunk p = true
      /\ (Virtio_net_request.has_vlan ret = false
          \/ Virtio_net_request.vlan_id ret ∉ _vlan_ids p)) ->
  Virtio_net_request.valid ret = true
  /\ Virtio_net_request._head ret = Some (Virtqueue.current_avail (tx_q p))
  /\ get_tx_request self p
     = (Ok None,
        set_tx_q p
          {| Virtqueue.is_ready := Virtqueue.is_ready (tx_q p);
             Virtqueue.ring := Virtqueue.ring (tx_q p);
             Virtqueue.current_avail := S (Virtqueue.current_avail (tx_q p));
             Virtqueue.used :=
               Virtqueue.used (tx_q p)
               ++ [Virtqueue.Finish_head
                     (Some (Virtqueue.current_avail (tx_q p))) 0] |}).
Proof.
  intros Hnative Hids Hget Hpolicy.
  unfold get_tx_request. rewrite Hget.
  unfold Virtio_net_request.get_request in Hget.
  destruct (negb (Virtqueue.ready (tx_q p))); [done|].
  unfold Virtqueue.next_avail in Hget.
  destruct (Virtqueue.ring (tx_q p) !! Virtqueue.current_avail (tx_q p))
    as [c|] eqn:Hc; [|done].
  destruct (Virtio_net_request.create self _) as [request|] eqn:Hcreate; [|done].
  destruct (Virtio_net_request.valid request) eqn:Hvalid; [|done].
  inversion Hget; subst; clear Hget.
  assert (Hhead : Virtio_net_request._head ret
                  = Some (Virtqueue.current_avail (tx_q p))).
  { unfold Virtio_net_request.create, Request_processor.start in Hcreate.
    simpl in Hcreate. destruct (fst c); [|done].
    destruct (Buffer.skip _ _) as [skipped pkt1].
    destruct (negb _); [by inversion Hcreate|].
    destruct (Buffer.done pkt1).
    - destruct (Request_processor.next _ _) as [[[[] ?] ?]|];
        by inversion Hcreate.
    - by inversion Hcreate. }
  split; [done|]. split; [done|].
  unfold Virtio_net_request.finish, Virtqueue.finish. rewrite Hhead. simpl.
  destruct Hpolicy as [[Hacc Htag]|[Htrunk Htag]].
  - unfold is_access in Hacc. apply andb_true_iff in Hacc as [Hnt Hnn].
    apply negb_true_iff in Hnt. rewrite Hnt.
    unfold is_access. rewrite Hnt, Hnn, Htag. done.
  - rewrite Htrunk. rewrite bool_decide_eq_false_2; [done|].
    destruct Htag as [Htag|Htag]; [|done].
    unfold Virtio_net_request.vlan_id. rewrite Htag. simpl.
    intros Hin. apply Hids in Hin. congruence.
Qed.

(** C9, as amended: after [set_monitor] the port is a Trunk port with a
    zero Bloom filter and the VLAN set it had before, which is empty on a
    new port; on such a port [match_vlan id] is true for the Trunk marker
    only and false for every other id. *)
Theorem monitor_matches_marker_only p id :
  is_trunk (set_monitor p) = true
  /\ _vlan_bloom_filter (set_monitor p) = 0
  /\ _vlan_ids (set_monitor p) = _vlan_ids p
  /\ _vlan_ids (set_monitor (create None)) = ∅
  /\ match_vlan (set_monitor p) id = (id =? VLAN_ID_TRUNK).
Proof.
  unfold is_trunk, match_vlan, set_monitor. simpl.
  rewrite Z.eqb_refl. split_and!; try done.
  by destruct (id =? VLAN_ID_TRUNK).
Qed.

(** *** The VLAN classifier *)

Lemma bloom_hash_bit vid :
  Z.testbit (vlan_bloom_hash vid) (Z.land vid 31) = true.
Proof.
  unfold vlan_bloom_hash.
  assert (0 <= Z.land vid 31) by (apply Z.land_nonneg; lia).
  rewrite Z.shiftl_spec by done. by rewrite Z.sub_diag.
Qed.

Lemma bloom_hit filter vid :
  Z.testbit filter (Z.land vid 31) = true ->
  Z.land filter (vlan_bloom_hash vid) <> 0.
Proof.
  intros Hbit Hzero.
  assert (Hland : Z.testbit (Z.land filter (vlan_bloom_hash vid)) (Z.land vid 31)
                  = true).
  { by rewrite Z.land_spec, Hbit, bloom_hash_bit. }
  rewrite Hzero, Z.bits_0 in Hland. discriminate Hland.
Qed.

(** The loop of [set_vlan_trunk] collects the given ids, and the filter
    has the bit of every id collected. *)
Lemma trunk_ids_spec ids : forall filter set filter' set',
  trunk_ids NDEBUG ids filter set = Ok (filter', set') ->
  (forall id, id ∈ set -> Z.testbit filter (Z.land id 31) = true) ->
  (forall id, id ∈ set' <-> id ∈ ids \/ id ∈ set)
  /\ (forall id, id ∈ set' -> Z.testbit filter' (Z.land id 31) = true).
Proof.
  induction ids as [|i ids IH]; intros filter set filter' set'; simpl.
  - intros [= <- <-] Hset. split; [|done].
    intros id. rewrite elem_of_nil. tauto.
  - destruct (assert NDEBUG (vlan_valid_id i)); [|done].
    intros Hrun Hset. apply IH in Hrun as [Hin Hbits].
    + split; [|done]. intros id. rewrite Hin, elem_of_cons.
      rewrite elem_of_union, elem_of_singleton. tauto.
    + intros id [->%elem_of_singleton|Hid]%elem_of_union.
      * by rewrite Z.lor_spec, bloom_hash_bit, orb_true_r.
      * by rewrite Z.lor_spec, Hset.
Qed.

(** X14: after [set_vlan_trunk(ids)] the port is a trunk port, and
    [match_vlan] is true exactly for the ids of the list and for the
    trunk marker itself: the Bloom filter never rejects an id of the
    list, and an id that passes the filter by a collision is rejected by
    the set. *)
Theorem trunk_matches_configured_ids p ids p' id :
  set_vlan_trunk NDEBUG p ids = Ok p' ->
  is_trunk p' = true
  /\ match_vlan p' id = bool_decide (id = VLAN_ID_TRUNK \/ id ∈ ids).
Proof.
  unfold set_vlan_trunk.
  destruct (trunk_ids NDEBUG ids 0 ∅) as [[filter set]|] eqn:Hids; [|done].
  intros [= <-].
  apply trunk_ids_spec in Hids as [Hin Hbits];
    [|intros ? Hempty; by apply not_elem_of_empty in Hempty].
  unfold is_trunk, match_vlan. simpl. rewrite Z.eqb_refl. split; [done|].
  destruct (Z.eqb_spec id VLAN_ID_TRUNK) as [->|Hne].
  { symmetry. apply bool_decide_eq_true_2. by left. }
  destruct (decide (id ∈ set)) as [Hid|Hid].
  - destruct (Z.eqb_spec (Z.land filter (vlan_bloom_hash id)) 0) as [Hz|_].
    { by apply bloom_hit in Hz; [|apply Hbits]. }
    rewrite bool_decide_eq_true_2 by done.
    symmetry. apply bool_decide_eq_true_2. right.
    apply Hin in Hid as [?|Hempty]; [done|]. by apply not_elem_of_empty in Hempty.
  - assert (Hno : ~ (id = VLAN_ID_TRUNK \/ id ∈ ids)).
    { intros [?|Hid']; [done|]. apply Hid, Hin. by left. }
    rewrite (bool_decide_eq_false_2 _ Hno), (bool_decide_eq_false_2 _ Hid).
    by destruct (_ =? 0).
Qed.

(** X15: after [set_vlan_access(id)] the port has VLAN [id] and
    [match_vlan] is true for [id] alone; with assertions on, where the
    call goes through for valid ids only, it is an access port, the two
    reserved ids not being valid ones. *)
Theorem access_matches_own_id p id p' v :
  set_vlan_access NDEBUG p id = Ok p' ->
  get_vlan p' = id
  /\ match_vlan p' v = (v =? id)
  /\ (NDEBUG = false ->
      vlan_valid_id VLAN_ID_NATIVE = false ->
      vlan_valid_id VLAN_ID_TRUNK = false ->
      is_access p' = true).
Proof.
  unfold set_vlan_access, assert.
  destruct (NDEBUG || vlan_valid_id id) eqn:Hvalid; [|done]. intros [= <-].
  unfold match_vlan, get_vlan, is_access, is_trunk, is_native. simpl.
  split; [done|]. split; [by destruct (v =? id)|].
  intros -> Hnative Htrunk. simpl in Hvalid.
  destruct (Z.eqb_spec id VLAN_ID_TRUNK) as [->|_]; [congruence|].
  destruct (Z.eqb_spec id VLAN_ID_NATIVE) as [->|_]; [congruence|done].
Qed.

(** Where [has_vlan] is false, the first data buffer of the request does
    not hold the bytes 81 00 at offset 12. *)
Lemma has_vlan_false_bytes r pre rest :
  Virtio_net_request.has_vlan r = false ->
  Virtio_net_request.bytes_from (Virtio_net_request.first_buffer r) 0
  = pre ++ [Byte.x81; Byte.x00] ++ rest ->
  length pre <> 12%nat.
Proof.
  unfold Virtio_net_request.has_vlan, Virtio_net_request.bytes_from,
    Virtio_net_request.first_buffer, Virtio_net_request.pos_set,
    Buffer.left, Buffer.byte_at.
  destruct (Buffer.pos (Virtio_net_request._pkt r)) as [bs|].
  - rewrite drop_0. intros Htag -> Hlen. cbn [negb orb] in Htag.
    rewrite length_app in Htag. cbn [length app] in Htag.
    destruct (Nat.ltb_spec (length pre + S (S (length rest))) 14) as [Hlt|_];
      [lia|].
    rewrite !lookup_app_r in Htag by lia. rewrite Hlen in Htag.
    discriminate Htag.
  - intros _ Hnil. by destruct pre.
Qed.

(** X16: a request that [get_tx_request] returns is valid and has
    passed the checks of the port as the code makes them: on a trunk port
    [vlan_id] of the request is one of the port's set; on an access port
    [has_vlan] of the request is false, that is, its first data buffer
    does not hold the bytes 81 00 at offset 12.  (Only the first data
    buffer is looked at; a tag in a later descriptor is not seen.)  The
    port has taken one chain from its transmission queue and finished
    nothing. *)
Theorem accepted_request_obeys_policy self p ret p' :
  get_tx_request self p = (Ok (Some ret), p') ->
  Virtio_net_request.valid ret = true
  /\ (is_trunk p = true -> Virtio_net_request.vlan_id ret ∈ _vlan_ids p)
  /\ (is_access p = true ->
      Virtio_net_request.has_vlan ret = false
      /\ forall pre rest,
           Virtio_net_request.bytes_from
             (Virtio_net_request.first_buffer ret) 0
           = pre ++ [Byte.x81; Byte.x00] ++ rest ->
           length pre <> 12%nat)
  /\ p' = set_tx_q p
            {| Virtqueue.is_ready := Virtqueue.is_ready (tx_q p);
               Virtqueue.ring := Virtqueue.ring (tx_q p);
               Virtqueue.current_avail := S (Virtqueue.current_avail (tx_q p));
               Virtqueue.used := Virtqueue.used (tx_q p) |}.
Proof.
  unfold get_tx_request.
  destruct (Virtio_net_request.get_request self (tx_q p)) as [[[r|]|e] q] eqn:Hget;
    [|done|done].
  apply Virtio_net_request_facts.get_request_some
    in Hget as (_ & Hvalid & _ & _ & _ & ->).
  destruct (is_trunk p) eqn:Htrunk.
  - case_bool_decide as Hin; [|done]. intros [= <- <-].
    split_and!; try done. unfold is_access. by rewrite Htrunk.
  - destruct (is_access p) eqn:Hacc; simpl.
    + destruct (Virtio_net_request.has_vlan r) eqn:Htag; [done|].
      intros [= <- <-]. split_and!; try done.
      intros _. split; [done|]. intros pre rest.
      by apply has_vlan_false_bytes.
    + intros [= <- <-]. done.
Qed.

End Port.

(** X17: when the head descriptor of every available chain loads,
    [drop_requests] finishes each available chain of the transmission
    queue with zero bytes, in the order of the ring, and no transmission
    work is pending afterwards; on a queue that is not ready it does
    nothing.  The loop needs one round more than there are chains. *)
Theorem drop_requests_finishes_all fuel p :
  (forall i c, (Virtqueue.current_avail (tx_q p) <= i)%nat ->
               Virtqueue.ring (tx_q p) !! i = Some c -> is_Some (fst c)) ->
  (Virtqueue.current_avail (tx_q p) <= length (Virtqueue.ring (tx_q p)))%nat ->
  (length (Virtqueue.ring (tx_q p)) - Virtqueue.current_avail (tx_q p) < fuel)%nat ->
  exists q,
    drop_requests fuel p = (Ok tt, set_tx_q p q)
    /\ tx_work_pending (set_tx_q p q) = false
    /\ q = if Virtqueue.ready (tx_q p)
           then {| Virtqueue.is_ready := true;
                   Virtqueue.ring := Virtqueue.ring (tx_q p);
                   Virtqueue.current_avail := length (Virtqueue.ring (tx_q p));
                   Virtqueue.used :=
                     Virtqueue.used (tx_q p)
                     ++ ((fun i => Virtqueue.Finish_head (Some i) 0)
                           <$> seq (Virtqueue.current_avail (tx_q p))
                                 (length (Virtqueue.ring (tx_q p))
                                  - Virtqueue.current_avail (tx_q p))) |}
           else tx_q p.
Proof.
  intros Hgood Hle Hfuel.
  unfold drop_requests, Virtio_net_request.drop_requests, tx_work_pending.
  destruct (Virtqueue.ready (tx_q p)) eqn:Hready; simpl.
  - rewrite Virtio_net_request_facts.drop_loop_all by done.
    unfold Virtqueue.ready in Hready. rewrite Hready.
    eexists. split; [done|]. split; [|done].
    unfold Virtqueue.ready, Virtqueue.desc_avail. simpl.
    by rewrite Nat.ltb_irrefl.
  - eexists. split; [done|]. split; [|done]. simpl. by rewrite Hready.
Qed.

(** X18: [drop_requests] stops at the first available chain whose
    head descriptor fails validation: it throws [Bad_descriptor]; the
    chains before that one are finished with zero bytes, the chain itself
    is taken and not finished, and the chains behind it stay available. *)
Theorem drop_requests_stops_at_bad_head fuel p k (c : Virtqueue.Chain) :
  Virtqueue.ready (tx_q p) = true ->
  (Virtqueue.current_avail (tx_q p) <= k)%nat ->
  Virtqueue.ring (tx_q p) !! k = Some c -> fst c = None ->
  (forall i c', (Virtqueue.current_avail (tx_q p) <= i < k)%nat ->
                Virtqueue.ring (tx_q p) !! i = Some c' -> is_Some (fst c')) ->
  (k - Virtqueue.current_avail (tx_q p) < fuel)%nat ->
  drop_requests fuel p
  = (Throw Bad_descriptor,
     set_tx_q p
       {| Virtqueue.is_ready := true;
          Virtqueue.ring := Virtqueue.ring (tx_q p);
          Virtqueue.current_avail := S k;
          Virtqueue.used :=
            Virtqueue.used (tx_q p)
            ++ ((fun i => Virtqueue.Finish_head (Some i) 0)
                  <$> seq (Virtqueue.current_avail (tx_q p))
                        (k - Virtqueue.current_avail (tx_q p))) |}).
Proof.
  intros Hready Hle Hk Hbad Hgood Hfuel.
  unfold drop_requests, Virtio_net_request.drop_requests.
  rewrite Hready. cbn [negb].
  rewrite (Virtio_net_request_facts.drop_loop_bad fuel (tx_q p) k c) by done.
  unfold Virtqueue.ready in Hready. by rewrite Hready.
Qed.

(** A tagged frame on an access port. *)
Lemma ingress_policy_drops_witness :
  fst (get_tx_request (H := Scenario.ids) 0 Scenario.access_port) = Ok None
  /\ Virtqueue.used
       (tx_q (snd (get_tx_request (H := Scenario.ids) 0 Scenario.access_port)))
     = [Virtqueue.Finish_head (Some 0%nat) 0].
Proof.
  destruct (ingress_policy_drops (H := Scenario.ids) 0%nat Scenario.access_port
              Scenario.tagged_request
              (snd (Virtqueue.next_avail (tx_q Scenario.access_port))))
    as (_ & _ & ->).
  - reflexivity.
  - intros id Hid. unfold Scenario.access_port in Hid. simpl in Hid.
    by apply not_elem_of_empty in Hid.
  - vm_compute. reflexivity.
  - left. split; vm_compute; reflexivity.
  - split; reflexivity.
Defined.

(** C5 fails on the code.  The client of an Access port offers one chain
    of two descriptors: the virtio-net header and the two addresses in the
    first, the frame from its 802.1Q tag on in the second.  The frame
    carries a tag, its bytes 12 and 13 are 81 00; but [has_vlan] looks at
    the first data buffer only, where 12 bytes are left, and so
    [get_tx_request] returns the request instead of dropping it: the chain
    is taken and nothing is finished on the transmission queue. *)
Theorem tag_beyond_first_buffer_not_seen :
  is_access (H := Scenario.ids) Scenario.access_port_split = true
  /\ (exists first second,
        Virtqueue.ring (tx_q Scenario.access_port_split)
        = [(Some first, [Some second])]
        /\ length first = (Virtio_net.Hdr_size + 12)%nat
        /\ take 2 (drop 12 (drop Virtio_net.Hdr_size (first ++ second)))
           = [Byte.x81; Byte.x00])
  /\ exists r p',
       get_tx_request (H := Scenario.ids) 0 Scenario.access_port_split
       = (Ok (Some r), p')
       /\ Virtio_net_request.has_vlan r = false
       /\ Buffer.left (Virtio_net_request.first_buffer r) = 12%nat
       /\ Virtqueue.current_avail (tx_q p') = 1%nat
       /\ Virtqueue.used (tx_q p') = [].
Proof.
  split; [reflexivity|]. split.
  - eexists _, _. split; [reflexivity|]. split; reflexivity.
  - eexists _, _. split; [vm_compute; reflexivity|].
    repeat split; reflexivity.
Qed.

(** C9, as stated, fails: a monitor port does not match VLAN 10. *)
Lemma monitor_rejects_vlan_10 :
  match_vlan (set_monitor (H := Scenario.ids) (create (H := Scenario.ids) None)) 10
  = false.
Proof. reflexivity. Qed.

(** The trunk port for the VLANs 10 and 20 matches 20 and not 30. *)
Lemma trunk_matches_configured_ids_witness :
  (is_trunk (H := Scenario.ids) Scenario.trunk_port = true
   /\ match_vlan Scenario.trunk_port 20
      = bool_decide (20 = VLAN_ID_TRUNK (Ids := Scenario.ids) \/ 20 ∈ [10; 20]))
  /\ (is_trunk (H := Scenario.ids) Scenario.trunk_port = true
      /\ match_vlan Scenario.trunk_port 30
         = bool_decide (30 = VLAN_ID_TRUNK (Ids := Scenario.ids) \/ 30 ∈ [10; 20])).
Proof.
  split.
  - apply (trunk_matches_configured_ids (H := Scenario.ids) false
             (Scenario.native_port
                [Scenario.one (Scenario.frame Byte.x02 Byte.x01
                                 (Scenario.tagged Byte.x0a (Scenario.zeros 10)))] [])
             [10; 20] Scenario.trunk_port 20).
    vm_compute. reflexivity.
  - apply (trunk_matches_configured_ids (H := Scenario.ids) false
             (Scenario.native_port
                [Scenario.one (Scenario.frame Byte.x02 Byte.x01
                                 (Scenario.tagged Byte.x0a (Scenario.zeros 10)))] [])
             [10; 20] Scenario.trunk_port 30).
    vm_compute. reflexivity.
Defined.

Lemma access_matches_own_id_witness :
  get_vlan Scenario.access_port_10 = 10
  /\ match_vlan Scenario.access_port_10 20 = (20 =? 10)
  /\ (false = false ->
      vlan_valid_id (VLAN_ID_NATIVE (Ids := Scenario.ids)) = false ->
      vlan_valid_id (VLAN_ID_TRUNK (Ids := Scenario.ids)) = false ->
      is_access (H := Scenario.ids) Scenario.access_port_10 = true).
Proof.
  apply (access_matches_own_id (H := Scenario.ids) false
           (Scenario.native_port [] []) 10 Scenario.access_port_10 20).
  vm_compute. reflexivity.
Defined.

(** The trunk port takes the frame with the tag of VLAN 10. *)
Lemma accepted_request_obeys_policy_witness :
  Virtio_net_request.valid Scenario.tagged_request = true
  /\ (is_trunk (H := Scenario.ids) Scenario.trunk_port = true ->
      Virtio_net_request.vlan_id (H := Scenario.ids) Scenario.tagged_request
      ∈ _vlan_ids Scenario.trunk_port).
Proof.
  destruct (accepted_request_obeys_policy (H := Scenario.ids) 0%nat
              Scenario.trunk_port Scenario.tagged_request
              (snd (get_tx_request (H := Scenario.ids) 0 Scenario.trunk_port)))
    as (Hvalid & Htrunk & _ & _).
  - vm_compute. reflexivity.
  - split; [exact Hvalid|exact Htrunk].
Defined.

(** The second chain of the port has a head descriptor that fails
    validation. *)
Lemma drop_requests_stops_at_bad_head_witness :
  drop_requests 3 Scenario.monitor_with_bad_tx
  = (Throw Bad_descriptor,
     set_tx_q Scenario.monitor_with_bad_tx
       {| Virtqueue.is_ready := true;
          Virtqueue.ring := Virtqueue.ring (tx_q Scenario.monitor_with_bad_tx);
          Virtqueue.current_avail := 2;
          Virtqueue.used := [] ++ [Virtqueue.Finish_head (Some 0%nat) 0] |}).
Proof.
  apply (drop_requests_stops_at_bad_head 3 Scenario.monitor_with_bad_tx 1%nat
           (None, [])).
  - reflexivity.
  - simpl. lia.
  - reflexivity.
  - reflexivity.
  - intros i c' Hi Hc'. simpl in Hi.
    destruct i as [|i]; [|lia]. simpl in Hc'. injection Hc' as <-. by eexists.
  - simpl. lia.
Defined.

(** The two chains of the monitor port are finished. *)
Lemma drop_requests_finishes_all_witness :
  exists q,
    drop_requests 3 Scenario.monitor_with_tx
    = (Ok tt, set_tx_q Scenario.monitor_with_tx q)
    /\ Virtqueue.used q
       = [Virtqueue.Finish_head (Some 0%nat) 0; Virtqueue.Finish_head (Some 1%nat) 0].
Proof.
  destruct (drop_requests_finishes_all 3 Scenario.monitor_with_tx)
    as (q & Hrun & _ & Hq).
  - intros i c _ Hc.
    destruct i as [|[|i]]; simpl in Hc; [| |done]; injection Hc as <-; by eexists.
  - simpl. lia.
  - simpl. lia.
  - exists q. split; [exact Hrun|]. rewrite Hq. reflexivity.
Defined.

End Virtio_port_facts.

(** ** The switch *)

Module Virtio_switch_facts.
Import Vlan Virtio_switch.

Section Switch.

Context `{Ids} `{Copy}.
Variable NDEBUG : bool.
Variable filter_request : Virtio_net_request.t -> bool.
Variable fuel : nat.

Local Abbreviation handle_request := (handle_request NDEBUG fuel).
Local Abbreviation mirror := (mirror NDEBUG filter_request fuel).
Local Abbreviation flood := (flood NDEBUG fuel).
Local Abbreviation forward := (forward NDEBUG filter_request fuel).
Local Abbreviation handle_tx_queue := (handle_tx_queue NDEBUG filter_request fuel).

Lemma handle_request_calls site target port request w :
  exists o,
    calls (snd (handle_request site target port request w))
    = calls w ++ [{| call_site := site; call_target := target;
                     call_src_port := port; call_outcome := o |}].
Proof.
  unfold Virtio_switch.handle_request.
  destruct (ports w !! target) as [p|]; [|by eauto].
  destruct (ports w !! port) as [src_port|]; [|by eauto].
  destruct (Virtio_port.handle_request _ _ _ _ _) as [o p'].
  exists o. by destruct o.
Qed.

Lemma flood_calls sw slots port vlan request : forall w,
  exists cs,
    calls (snd (flood slots port vlan request w)) = calls w ++ cs
    /\ Forall (fun c => call_site c = Flood /\ allowed_call sw port c) cs.
Proof.
  induction slots as [|[target|] rest IH]; intros w; simpl.
  - exists []. by rewrite app_nil_r.
  - case_decide as Hself; [apply IH|].
    destruct (ports w !! target) as [p|]; [|by exists []; rewrite app_nil_r].
    destruct (Virtio_port.match_vlan p vlan); [|apply IH].
    destruct (handle_request_calls Flood target port request w) as [o Ho].
    destruct (handle_request Flood target port request w) as [[[]|e] w'];
      simpl in Ho.
    + destruct (IH w') as (cs & Hcs & Hall).
      eexists (_ :: cs). rewrite Hcs, Ho, <- app_assoc. split; [done|].
      constructor; [|done]. by repeat split.
    + eexists [_]. split; [exact Ho|]. constructor; [|done]. by repeat split.
  - exists []. by rewrite app_nil_r.
Qed.

Lemma mirror_calls sw port request w :
  exists cs,
    calls (snd (mirror sw port request w)) = calls w ++ cs
    /\ Forall (fun c => call_site c = Mirror /\ allowed_call sw port c) cs.
Proof.
  unfold Virtio_switch.mirror.
  destruct (_monitor sw) as [m|] eqn:Hm; [|by exists []; rewrite app_nil_r].
  destruct (negb _); [|by exists []; rewrite app_nil_r].
  destruct (handle_request_calls Mirror m port request w) as [o Ho].
  eexists [_]. split; [exact Ho|]. constructor; [|done]. by repeat split.
Qed.

Lemma forward_calls sw port request dst vlan w :
  exists cs,
    calls (snd (forward sw port request dst vlan w)) = calls w ++ cs
    /\ Forall (allowed_call sw port) cs.
Proof.
  unfold Virtio_switch.forward.
  destruct (if negb _ then _ else _) as [target|].
  - case_decide as Hself; [by exists []; rewrite app_nil_r|].
    destruct (ports w !! target) as [p|]; [|by exists []; rewrite app_nil_r].
    destruct (Virtio_port.match_vlan p vlan); [|by exists []; rewrite app_nil_r].
    destruct (handle_request_calls Unicast target port request w) as [o Ho].
    destruct (handle_request Unicast target port request w) as [[[]|e] w'];
      simpl in Ho.
    + destruct (mirror_calls sw port request w') as (cs & Hcs & Hall).
      eexists (_ :: cs). rewrite Hcs, Ho, <- app_assoc. split; [done|].
      constructor; [by repeat split|].
      eapply Forall_impl; [exact Hall|]. by intros c [_ Hc].
    + eexists [_]. split; [exact Ho|]. constructor; [|done]. by repeat split.
  - destruct (flood_calls sw (take (_max_used sw) (_ports sw)) port vlan request w)
      as (cs & Hcs & Hall).
    destruct (flood _ _ _ _ _) as [[[]|e] w']; simpl in Hcs.
    + destruct (mirror_calls sw port request w') as (cs' & Hcs' & Hall').
      exists (cs ++ cs'). rewrite Hcs', Hcs, <- app_assoc. split; [done|].
      apply Forall_app. split.
      * eapply Forall_impl; [exact Hall|]. by intros c [_ Hc].
      * eapply Forall_impl; [exact Hall'|]. by intros c [_ Hc].
    + exists cs. split; [done|].
      eapply Forall_impl; [exact Hall|]. by intros c [_ Hc].
Qed.

Lemma destroy_calls request r w : calls (destroy request r w) = calls w.
Proof.
  unfold destroy. destruct (ports w !! _); [|done].
  by destruct (match r with Ok _ => _ | Throw e => _ end).
Qed.

(** A call of [handle_request] leaves the VLAN configuration of every
    port as it is. *)
Lemma handle_request_keeps_vlan site target port request w a p :
  ports w !! a = Some p ->
  exists p',
    ports (snd (handle_request site target port request w)) !! a = Some p'
    /\ forall id, Virtio_port.match_vlan p' id = Virtio_port.match_vlan p id.
Proof.
  intros Ha. unfold Virtio_switch.handle_request.
  destruct (ports w !! target) as [tp|] eqn:Htp; [|by eauto].
  destruct (ports w !! port) as [src_port|]; [|by eauto].
  unfold Virtio_port.handle_request.
  destruct (Virtio_net_transfer.transfer _ _ _ _ _) as [[o l] d].
  assert (Hports : exists p',
             <[target := Virtio_port.set_rx tp d]> (ports w) !! a = Some p'
             /\ forall id, Virtio_port.match_vlan p' id = Virtio_port.match_vlan p id).
  { destruct (decide (target = a)) as [->|Hne].
    - rewrite lookup_insert_eq. eexists. split; [done|].
      rewrite Htp in Ha. by inversion Ha.
    - rewrite lookup_insert_ne by done. eauto. }
  by destruct o.
Qed.

(** Where no empty slot comes before them, the loop over the port array
    does reach every port: if it ends without an exception, each port of
    the list that is not the source and matches the VLAN was called. *)
Lemma flood_reaches_all_without_holes targets port vlan request : forall w w',
  flood (Some <$> targets) port vlan request w = (Ok tt, w') ->
  forall target p,
    target ∈ targets -> target <> port ->
    ports w !! target = Some p -> Virtio_port.match_vlan p vlan = true ->
    exists cs o,
      calls w' = calls w ++ cs
      /\ {| call_site := Flood; call_target := target;
            call_src_port := port; call_outcome := o |} ∈ cs.
Proof.
  induction targets as [|t0 rest IH]; intros w w' Hrun target p Hin Hne Hp Hvlan.
  - by apply elem_of_nil in Hin.
  - rewrite fmap_cons in Hrun. cbn [Virtio_switch.flood] in Hrun.
    case_decide as Hself.
    + subst t0. apply elem_of_cons in Hin as [->|Hin]; [done|]. eauto.
    + destruct (ports w !! t0) as [p0|] eqn:Hp0; [|done].
      destruct (Virtio_port.match_vlan p0 vlan) eqn:Hv0.
      * destruct (handle_request_calls Flood t0 port request w)
          as [o Ho].
        destruct (handle_request_keeps_vlan Flood t0 port request w _ _ Hp)
          as (p' & Hp' & Hsame).
        destruct (handle_request Flood t0 port request w) as [[[]|e] w1];
          [|done]. simpl in Ho, Hp'.
        apply elem_of_cons in Hin as [->|Hin].
        -- destruct (flood_calls
                       {| _ports := []; _monitor := None; _max_ports := 0;
                          _max_used := 0; _mac_table := Mac_table.create 0 |}
                       (Some <$> rest) port vlan request w1) as (cs & Hcs & _).
           rewrite Hrun in Hcs. simpl in Hcs.
           eexists (_ :: cs), o. rewrite Hcs, Ho, <- app_assoc.
           split; [done|]. apply list_elem_of_here.
        -- destruct (IH w1 w' Hrun target p' Hin Hne Hp') as (cs & o' & Hcs & Hc).
           { by rewrite Hsame. }
           eexists (_ :: cs), o'. rewrite Hcs, Ho, <- app_assoc.
           split; [done|]. by apply list_elem_of_further.
      * apply elem_of_cons in Hin as [->|Hin]; [congruence|]. eauto.
Qed.

(** C7: every call of [handle_request] that [handle_tx_queue] makes for a
    frame of [port] has [port] as its source, and the calls made for the
    target the MAC table gives and in the loop over the port array are
    never on [port] itself; the call for the mirror is on the monitor
    port. *)
Theorem no_delivery_to_source sw port w :
  exists cs,
    calls (snd (handle_tx_queue sw port w)) = calls w ++ cs
    /\ Forall (allowed_call sw port) cs.
Proof.
  unfold Virtio_switch.handle_tx_queue.
  destruct (ports w !! port) as [p|]; [|by exists []; rewrite app_nil_r].
  destruct (Virtio_port.get_tx_request port p) as [[[request|]|e] p'];
    [|by exists []; rewrite app_nil_r..].
  set (sw1 := set_mac_table sw _).
  set (dst := Virtio_net_request.dst_mac request).
  set (vlan := if Virtio_net_request.has_vlan request then _ else _).
  destruct (forward_calls sw1 port request dst vlan (set_port w port p'))
    as (cs & Hcs & Hall).
  destruct (forward _ _ _ _ _ _) as [r w2]. simpl in *.
  exists cs. by rewrite destroy_calls.
Qed.

(** C10: when the destination of a frame is not broadcast and the MAC
    table, after the source was learned, gives a target that is the
    source port itself or does not match the VLAN of the frame, then
    [handle_tx_queue] returns with the source learned and without any call
    of [handle_request]: no delivery and no copy for the monitor, whatever
    the monitor and the filter are. *)
Theorem suppressed_unicast_not_mirrored sw port w p request p' target :
  ports w !! port = Some p ->
  Virtio_port.get_tx_request port p = (Ok (Some request), p') ->
  Mac_addr.is_broadcast (Virtio_net_request.dst_mac request) = false ->
  Mac_table.lookup
    (Mac_table.learn Mac_table_size (_mac_table sw)
       (Virtio_net_request.src_mac request) (Some port))
    (Virtio_net_request.dst_mac request) = Some target ->
  target = port
  \/ (exists tp, ports w !! target = Some tp
        /\ Virtio_port.match_vlan tp
             (if Virtio_net_request.has_vlan request
              then Virtio_net_request.vlan_id request
              else Virtio_port.get_vlan p') = false) ->
  exists w',
    handle_tx_queue sw port w
    = (Ok tt,
       set_mac_table sw
         (Mac_table.learn Mac_table_size (_mac_table sw)
            (Virtio_net_request.src_mac request) (Some port)),
       w')
    /\ calls w' = calls w.
Proof.
  intros Hport Hget Hnb Hlookup Hsuppress.
  unfold Virtio_switch.handle_tx_queue. rewrite Hport, Hget.
  unfold Virtio_switch.forward. simpl. rewrite Hnb. simpl. rewrite Hlookup.
  case_decide as Hself.
  - eexists. split; [done|]. by rewrite destroy_calls.
  - destruct Hsuppress as [->|(tp & Htp & Hvlan)]; [done|].
    rewrite lookup_insert_ne by done. rewrite Htp, Hvlan.
    eexists. split; [done|]. by rewrite destroy_calls.
Qed.

(** *** What [handle_tx_queue] does to the ports *)

Lemma same_but_rx_refl p : Virtio_port.same_but_rx p p.
Proof. by repeat split. Qed.

Lemma same_but_rx_trans p1 p2 p3 :
  Virtio_port.same_but_rx p1 p2 -> Virtio_port.same_but_rx p2 p3 ->
  Virtio_port.same_but_rx p1 p3.
Proof.
  intros (? & ? & ? & ? & ?) (? & ? & ? & ? & ?).
  repeat split; congruence.
Qed.


Lemma same_ports_refl w : same_ports w w.
Proof.
  intros a. destruct (ports w !! a); constructor. apply same_but_rx_refl.
Qed.

Lemma same_ports_trans w1 w2 w3 :
  same_ports w1 w2 -> same_ports w2 w3 -> same_ports w1 w3.
Proof.
  intros H12 H23 a. specialize (H12 a). specialize (H23 a).
  destruct H12 as [p1 p2 Hp|]; inversion H23; subst; constructor.
  by eapply same_but_rx_trans.
Qed.

Lemma same_ports_lookup w w' a p :
  same_ports w w' -> ports w !! a = Some p ->
  exists p', ports w' !! a = Some p' /\ Virtio_port.same_but_rx p p'.
Proof.
  intros Hsame Ha. specialize (Hsame a). rewrite Ha in Hsame.
  inversion Hsame; subst. eauto.
Qed.


Lemma handle_request_same site target port request w :
  same_ports w (snd (handle_request site target port request w)).
Proof.
  unfold Virtio_switch.handle_request.
  destruct (ports w !! target) as [tp|] eqn:Htp; [|exact (same_ports_refl w)].
  destruct (ports w !! port) as [src_port|]; [|exact (same_ports_refl w)].
  unfold Virtio_port.handle_request.
  destruct (Virtio_net_transfer.transfer _ _ _ _ _) as [[o l] d].
  assert (Hsame : same_ports w (set_port w target (Virtio_port.set_rx tp d))).
  { intros a. simpl. destruct (decide (target = a)) as [<-|Hne].
    - rewrite lookup_insert_eq, Htp. constructor. by repeat split.
    - rewrite lookup_insert_ne by done. apply same_ports_refl. }
  by destruct o.
Qed.

Lemma flood_same slots port vlan request : forall w,
  same_ports w (snd (flood slots port vlan request w)).
Proof.
  induction slots as [|[target|] rest IH]; intros w; simpl;
    [apply same_ports_refl| |apply same_ports_refl].
  case_decide as Hself; [apply IH|].
  destruct (ports w !! target) as [p|]; [|apply same_ports_refl].
  destruct (Virtio_port.match_vlan p vlan); [|apply IH].
  pose proof (handle_request_same Flood target port request w) as Hsame.
  destruct (handle_request Flood target port request w) as [[[]|e] w'];
    simpl in Hsame; [|done].
  eapply same_ports_trans; [exact Hsame|apply IH].
Qed.

Lemma mirror_same sw port request w :
  same_ports w (snd (mirror sw port request w)).
Proof.
  unfold Virtio_switch.mirror.
  destruct (_monitor sw) as [m|]; [|apply same_ports_refl].
  destruct (negb _); [|apply same_ports_refl].
  apply handle_request_same.
Qed.

Lemma forward_same sw port request dst vlan w :
  same_ports w (snd (forward sw port request dst vlan w)).
Proof.
  unfold Virtio_switch.forward.
  destruct (if negb _ then _ else _) as [target|].
  - case_decide as Hself; [apply same_ports_refl|].
    destruct (ports w !! target) as [p|]; [|apply same_ports_refl].
    destruct (Virtio_port.match_vlan p vlan); [|apply same_ports_refl].
    pose proof (handle_request_same Unicast target port request w) as Hsame.
    destruct (handle_request Unicast target port request w) as [[[]|e] w'];
      simpl in Hsame; [|done].
    eapply same_ports_trans; [exact Hsame|apply mirror_same].
  - pose proof (flood_same (take (_max_used sw) (_ports sw)) port vlan request w)
      as Hsame.
    destruct (flood _ _ _ _ _) as [[[]|e] w']; simpl in Hsame; [|done].
    eapply same_ports_trans; [exact Hsame|apply mirror_same].
Qed.

Lemma set_port_id w a p : ports w !! a = Some p -> set_port w a p = w.
Proof.
  intros Ha. destruct w as [ps cs]. unfold set_port. simpl in *.
  by rewrite insert_id.
Qed.

Lemma set_tx_q_id p : Virtio_port.set_tx_q p (Virtio_port.tx_q p) = p.
Proof. by destruct p. Qed.

(** Without work on the transmission queue, [handle_tx_queue] does
    nothing. *)
Lemma handle_tx_queue_idle sw port w p :
  ports w !! port = Some p -> Virtio_port.tx_work_pending p = false ->
  handle_tx_queue sw port w = (Ok tt, sw, w).
Proof.
  intros Hport Hidle. unfold Virtio_switch.handle_tx_queue. rewrite Hport.
  unfold Virtio_port.get_tx_request.
  pose proof (Virtio_net_request_facts.get_request_cases port (Virtio_port.tx_q p))
    as Hget.
  destruct (Virtio_net_request.get_request port (Virtio_port.tx_q p)) as [r q].
  unfold Virtio_port.tx_work_pending in Hidle. rewrite Hidle in Hget.
  destruct Hget as [-> ->]. by rewrite set_tx_q_id, set_port_id.
Qed.

(** The forwarding of a request and its end leave the transmission queue
    of the source port as it is, but for the request that is finished. *)
Lemma forward_destroy_tx sw port request dst vlan w p cur :
  ports w !! port = Some p ->
  Virtio_net_request._head request = Some cur ->
  Virtio_net_request.dev request = port ->
  exists p',
    ports (destroy request (fst (forward sw port request dst vlan w))
             (snd (forward sw port request dst vlan w))) !! port = Some p'
    /\ Virtio_port.tx_q p'
       = {| Virtqueue.is_ready := Virtqueue.is_ready (Virtio_port.tx_q p);
            Virtqueue.ring := Virtqueue.ring (Virtio_port.tx_q p);
            Virtqueue.current_avail := Virtqueue.current_avail (Virtio_port.tx_q p);
            Virtqueue.used :=
              Virtqueue.used (Virtio_port.tx_q p)
              ++ if match fst (forward sw port request dst vlan w) with
                    | Ok _ => true
                    | Throw e => unwinds e
                    end
                 then [Virtqueue.Finish_head (Some cur) 0] else [] |}.
Proof.
  intros Hport Hhead Hdev.
  pose proof (forward_same sw port request dst vlan w) as Hsame.
  destruct (forward sw port request dst vlan w) as [r w2]. cbn [fst snd] in *.
  destruct (same_ports_lookup _ _ port p Hsame Hport)
    as (p2 & Hp2 & _ & _ & _ & _ & Htx).
  unfold destroy. rewrite Hdev, Hp2.
  destruct (match r with Ok _ => true | Throw e => unwinds e end).
  - eexists. simpl. rewrite lookup_insert_eq. split; [done|]. simpl.
    unfold Virtio_net_request.finish, Virtqueue.finish.
    by rewrite Hhead, Htx.
  - exists p2. split; [done|]. rewrite app_nil_r, Htx. by destruct (Virtio_port.tx_q p).
Qed.

(** With work on the transmission queue, [handle_tx_queue] takes one
    chain, and what it finishes depends on how it ends. *)
Lemma handle_tx_queue_tx sw port w p :
  ports w !! port = Some p -> Virtio_port.tx_work_pending p = true ->
  exists p' us,
    ports (snd (handle_tx_queue sw port w)) !! port = Some p'
    /\ Virtio_port.tx_q p' = taken (Virtio_port.tx_q p) us
    /\ returned (fst (Virtio_port.get_tx_request port p))
         (fst (fst (handle_tx_queue sw port w)))
         (Virtqueue.current_avail (Virtio_port.tx_q p)) us.
Proof.
  intros Hport Hwork. unfold Virtio_switch.handle_tx_queue. rewrite Hport.
  unfold Virtio_port.get_tx_request.
  pose proof (Virtio_net_request_facts.get_request_cases port (Virtio_port.tx_q p))
    as Hget.
  destruct (Virtio_net_request.get_request port (Virtio_port.tx_q p)) as [r q].
  unfold Virtio_port.tx_work_pending in Hwork. rewrite Hwork in Hget.
  set (cur := Virtqueue.current_avail (Virtio_port.tx_q p)) in *.
  assert (Hdrop : forall req : Virtio_net_request.t,
             Virtio_net_request._head req = Some cur ->
             q = taken (Virtio_port.tx_q p) [] ->
             exists p' us,
               ports (set_port w port
                        (Virtio_port.set_tx_q p (Virtio_net_request.finish req q)))
               !! port = Some p'
               /\ Virtio_port.tx_q p' = taken (Virtio_port.tx_q p) us
               /\ us = [Virtqueue.Finish_head (Some cur) 0]).
  { intros req Hhead ->. eexists _, _. simpl. rewrite lookup_insert_eq.
    split; [done|]. simpl. unfold Virtio_net_request.finish. rewrite Hhead.
    unfold taken, Virtqueue.finish. simpl. by rewrite app_nil_r. }
  destruct r as [[request|]|e].
  - destruct Hget as (Hvalid & Hhead & Hdev & Hq).
    assert (Hq' : q = taken (Virtio_port.tx_q p) []).
    { rewrite Hq. unfold taken. by rewrite app_nil_r. }
    assert (Hfwd : forall sw1 dst vlan got,
               exists p' us,
                 ports (snd (let '(r, w2) :=
                               forward sw1 port request dst vlan
                                 (set_port w port (Virtio_port.set_tx_q p q)) in
                             (r, sw1, destroy request r w2))) !! port = Some p'
                 /\ Virtio_port.tx_q p' = taken (Virtio_port.tx_q p) us
                 /\ returned (Ok got)
                      (fst (fst (let '(r, w2) :=
                                   forward sw1 port request dst vlan
                                     (set_port w port (Virtio_port.set_tx_q p q)) in
                                 (r, sw1, destroy request r w2)))) cur us).
    { intros sw1 dst vlan got.
      destruct (forward_destroy_tx sw1 port request dst vlan
                  (set_port w port (Virtio_port.set_tx_q p q))
                  (Virtio_port.set_tx_q p q) cur) as (p' & Hp' & Htx);
        [simpl; apply lookup_insert_eq|done|done|].
      destruct (forward sw1 port request dst vlan _) as [r w2].
      cbn [fst snd] in *. simpl in Htx.
      eexists p', _. split; [done|]. rewrite Htx, Hq. unfold taken. simpl.
      split; [done|]. by destruct r as [[]|[]]; simpl; eauto. }
    destruct (Virtio_port.is_trunk p).
    + case_bool_decide.
      * apply Hfwd.
      * destruct (Hdrop request Hhead Hq') as (p' & us & ? & ? & ->).
        by exists p', [Virtqueue.Finish_head (Some cur) 0].
    + destruct (Virtio_port.is_access p && Virtio_net_request.has_vlan request).
      * destruct (Hdrop request Hhead Hq') as (p' & us & ? & ? & ->).
        by exists p', [Virtqueue.Finish_head (Some cur) 0].
      * apply Hfwd.
  - exists (Virtio_port.set_tx_q p q), [Virtqueue.Finish_head (Some cur) 0].
    simpl. rewrite lookup_insert_eq. split; [done|]. split; [|done].
    simpl. by rewrite Hget.
  - destruct Hget as [-> ->]. eexists _, []. simpl.
    rewrite lookup_insert_eq. split; [done|]. split; [|done].
    unfold taken. simpl. by rewrite app_nil_r.
Qed.

(** X19: what [handle_tx_queue] does to the transmission queue of the
    port.  Without pending work it does nothing at all.  With pending
    work it takes exactly one chain; that chain is finished with zero
    bytes, once, when the function returns (the frame was forwarded,
    suppressed or dropped) and when [Runtime_error] or [Bad_descriptor]
    leaves it while the frame is forwarded; it is not finished when the
    program stops, and not when [Bad_descriptor] comes from
    [get_tx_request], before the request exists.  Nothing else of the
    queue changes. *)
Theorem handle_tx_queue_takes_one_chain sw port w p :
  ports w !! port = Some p ->
  if Virtio_port.tx_work_pending p
  then exists p' us,
         ports (snd (handle_tx_queue sw port w)) !! port = Some p'
         /\ Virtio_port.tx_q p' = taken (Virtio_port.tx_q p) us
         /\ returned (fst (Virtio_port.get_tx_request port p))
              (fst (fst (handle_tx_queue sw port w)))
              (Virtqueue.current_avail (Virtio_port.tx_q p)) us
  else handle_tx_queue sw port w = (Ok tt, sw, w).
Proof.
  intros Hport. destruct (Virtio_port.tx_work_pending p) eqn:Hwork.
  - by apply handle_tx_queue_tx.
  - by eapply handle_tx_queue_idle.
Qed.

(** X20: [handle_tx_queue] learns the source address of every request
    it accepts, whatever becomes of the frame afterwards: the address is
    then found with the source port.  A request that is not accepted (none
    pending, not valid, or dropped by the policy of the port) leaves the
    switch as it is.  The port array and the monitor port never change. *)
Theorem handle_tx_queue_learns_accepted_source sw port w p :
  ports w !! port = Some p ->
  Mac_table.reachable Mac_table_size (_mac_table sw) ->
  let sw' := snd (fst (handle_tx_queue sw port w)) in
  Mac_table.reachable Mac_table_size (_mac_table sw')
  /\ _ports sw' = _ports sw /\ _monitor sw' = _monitor sw
  /\ match fst (Virtio_port.get_tx_request port p) with
     | Ok (Some request) =>
         Mac_table.lookup (_mac_table sw') (Virtio_net_request.src_mac request)
         = Some port
     | _ => sw' = sw
     end.
Proof.
  intros Hport Hreach. unfold Virtio_switch.handle_tx_queue. rewrite Hport.
  destruct (Virtio_port.get_tx_request port p) as [[[request|]|e] p']; simpl;
    [|done|done].
  destruct (forward _ _ _ _ _ _) as [r w2]. simpl.
  split; [by constructor|]. split; [done|]. split; [done|].
  apply Mac_table_facts.lookup_learn_same; [unfold Mac_table_size; lia|].
  apply Mac_table_facts.reachable_inv; [unfold Mac_table_size; lia|done].
Qed.




(** *** The transmission loop of [handle_port_irq] *)

Local Abbreviation tx_loop := (tx_loop NDEBUG filter_request fuel).
Local Abbreviation try_tx := (try_tx NDEBUG filter_request fuel).

(** The source port is still there after the loop. *)
Lemma tx_loop_port n port : forall sw w p,
  ports w !! port = Some p ->
  exists p', ports (snd (tx_loop n sw port w)) !! port = Some p'.
Proof.
  induction n as [|n IH]; intros sw w p Hport; cbn [Virtio_switch.tx_loop].
  { by eauto. }
  rewrite Hport. destruct (Virtio_port.tx_work_pending p) eqn:Hwork; [|by eauto].
  destruct (handle_tx_queue_tx sw port w p Hport Hwork) as (p1 & us & Hp1 & _).
  destruct (handle_tx_queue sw port w) as [[[[]|e] sw1] w1]; cbn [fst snd] in *.
  - by eapply IH.
  - by eauto.
Qed.

Lemma tx_loop_spec n port : forall sw w p,
  ports w !! port = Some p ->
  Virtqueue.is_ready (Virtio_port.tx_q p) = true ->
  (Virtqueue.current_avail (Virtio_port.tx_q p)
   <= length (Virtqueue.ring (Virtio_port.tx_q p)))%nat ->
  (length (Virtqueue.ring (Virtio_port.tx_q p))
   - Virtqueue.current_avail (Virtio_port.tx_q p) < n)%nat ->
  (forall k, tx_loop (n + k) sw port w = tx_loop n sw port w)
  /\ (forall sw' w',
        tx_loop n sw port w = (Ok tt, sw', w') ->
        exists p',
          ports w' !! port = Some p'
          /\ Virtio_port.tx_q p'
             = {| Virtqueue.is_ready := true;
                  Virtqueue.ring := Virtqueue.ring (Virtio_port.tx_q p);
                  Virtqueue.current_avail :=
                    length (Virtqueue.ring (Virtio_port.tx_q p));
                  Virtqueue.used :=
                    Virtqueue.used (Virtio_port.tx_q p)
                    ++ ((fun i => Virtqueue.Finish_head (Some i) 0)
                          <$> seq (Virtqueue.current_avail (Virtio_port.tx_q p))
                                (length (Virtqueue.ring (Virtio_port.tx_q p))
                                 - Virtqueue.current_avail (Virtio_port.tx_q p))) |}).
Proof.
  induction n as [|n IH]; intros sw w p Hport Hready Hle Hn; [lia|].
  change (S n + ?k)%nat with (S (n + k)). cbn [Virtio_switch.tx_loop].
  rewrite Hport.
  destruct (Virtio_port.tx_work_pending p) eqn:Hwork.
  - assert (Hlt : (Virtqueue.current_avail (Virtio_port.tx_q p)
                   < length (Virtqueue.ring (Virtio_port.tx_q p)))%nat).
    { unfold Virtio_port.tx_work_pending, Virtqueue.ready, Virtqueue.desc_avail
        in Hwork.
      rewrite Hready in Hwork. by apply Nat.ltb_lt. }
    destruct (handle_tx_queue_tx sw port w p Hport Hwork)
      as (p1 & us & Hp1 & Htx & Hret).
    destruct (handle_tx_queue sw port w) as [[[[]|e] sw1] w1]; cbn [fst snd] in *.
    2:{ split; [done|]. by intros sw' w' [=]. }
    unfold returned in Hret. subst us.
    destruct (IH sw1 w1 p1 Hp1) as [Hmore Hdone].
    { by rewrite Htx. }
    { rewrite Htx. simpl. lia. }
    { rewrite Htx. simpl. lia. }
    split; [done|]. intros sw' w' Hrun.
    destruct (Hdone sw' w' Hrun) as (p' & Hp' & Htx').
    exists p'. split; [done|]. rewrite Htx', Htx. simpl.
    f_equal. rewrite <- app_assoc. f_equal.
    replace (length (Virtqueue.ring (Virtio_port.tx_q p))
             - Virtqueue.current_avail (Virtio_port.tx_q p))%nat
      with (S (length (Virtqueue.ring (Virtio_port.tx_q p))
               - S (Virtqueue.current_avail (Virtio_port.tx_q p)))) by lia.
    done.
  - assert (Hge : (length (Virtqueue.ring (Virtio_port.tx_q p))
                   <= Virtqueue.current_avail (Virtio_port.tx_q p))%nat).
    { unfold Virtio_port.tx_work_pending, Virtqueue.ready, Virtqueue.desc_avail
        in Hwork.
      rewrite Hready in Hwork. by apply Nat.ltb_ge. }
    split; [done|]. intros sw' w' [= <- <-]. exists p. split; [done|].
    replace (length (Virtqueue.ring (Virtio_port.tx_q p))
             - Virtqueue.current_avail (Virtio_port.tx_q p))%nat with 0%nat by lia.
    simpl. rewrite app_nil_r.
    destruct (Virtio_port.tx_q p). simpl in *. f_equal; [done|lia].
Qed.

(** X22: the transmission loop of [handle_port_irq] serves the queue
    in order and to the end.  On a ready queue, when the loop returns,
    every chain that was available has been finished with zero bytes
    exactly once, in the order of the ring, and no chain is left; one
    round more than there are chains is enough, and more rounds change
    nothing. *)
Theorem tx_loop_serves_every_chain n k sw port w p sw' w' :
  ports w !! port = Some p ->
  Virtqueue.is_ready (Virtio_port.tx_q p) = true ->
  (Virtqueue.current_avail (Virtio_port.tx_q p)
   <= length (Virtqueue.ring (Virtio_port.tx_q p)))%nat ->
  (length (Virtqueue.ring (Virtio_port.tx_q p))
   - Virtqueue.current_avail (Virtio_port.tx_q p) < n)%nat ->
  tx_loop n sw port w = (Ok tt, sw', w') ->
  tx_loop (n + k) sw port w = (Ok tt, sw', w')
  /\ exists p',
       ports w' !! port = Some p'
       /\ Virtio_port.tx_work_pending p' = false
       /\ Virtqueue.used (Virtio_port.tx_q p')
          = Virtqueue.used (Virtio_port.tx_q p)
            ++ ((fun i => Virtqueue.Finish_head (Some i) 0)
                  <$> seq (Virtqueue.current_avail (Virtio_port.tx_q p))
                        (length (Virtqueue.ring (Virtio_port.tx_q p))
                         - Virtqueue.current_avail (Virtio_port.tx_q p))).
Proof.
  intros Hport Hready Hle Hn Hrun.
  destruct (tx_loop_spec n port sw w p Hport Hready Hle Hn) as [Hmore Hdone].
  split; [by rewrite Hmore|].
  destruct (Hdone sw' w' Hrun) as (p' & Hp' & Htx).
  exists p'. split; [done|]. rewrite Htx. split; [|done].
  unfold Virtio_port.tx_work_pending, Virtqueue.ready, Virtqueue.desc_avail.
  rewrite Htx. simpl. by rewrite Nat.ltb_irrefl.
Qed.

(** X23: a [Bad_descriptor] raised while the transmission queue of a
    port is served does not leave the [try] block of [handle_port_irq]:
    the device error of that port is flagged and the function returns;
    the other ports and the switch are as the loop left them. *)
Theorem try_tx_flags_bad_descriptor n sw port w p :
  ports w !! port = Some p ->
  fst (fst (try_tx n sw port w)) <> Throw Bad_descriptor
  /\ forall sw' w',
       tx_loop n sw port w = (Throw Bad_descriptor, sw', w') ->
       exists p',
         ports w' !! port = Some p'
         /\ try_tx n sw port w
            = (Ok tt, sw', set_port w' port (Virtio_port.device_error p'))
         /\ Virtio_port.device_failed (Virtio_port.device_error p') = true.
Proof.
  intros Hport. unfold Virtio_switch.try_tx.
  destruct (tx_loop_port n port sw w p Hport) as [p' Hp'].
  destruct (tx_loop n sw port w) as [[[[]|e] sw1] w1] eqn:Hrun; cbn [fst snd] in *.
  - split; [done|]. by intros sw' w' [=].
  - destruct e; try (split; [done|]; by intros sw' w' [=]).
    rewrite Hp'. split; [done|]. intros sw' w' [= <- <-]. by eauto.
Qed.

(** *** Where a frame goes *)

(** X24: a frame whose destination is broadcast or is not in the MAC
    table reaches every port, as long as the port array has no empty slot
    below [_max_used]: when [handle_tx_queue] returns, [handle_request]
    was called, from the loop over the array, on each registered port
    that is not the source and matches the VLAN of the frame. *)
Theorem flood_reaches_every_port_without_holes
    sw port w p request p' targets target tp :
  ports w !! port = Some p ->
  Virtio_port.get_tx_request port p = (Ok (Some request), p') ->
  Mac_addr.is_broadcast (Virtio_net_request.dst_mac request) = true
  \/ Mac_table.lookup
       (Mac_table.learn Mac_table_size (_mac_table sw)
          (Virtio_net_request.src_mac request) (Some port))
       (Virtio_net_request.dst_mac request) = None ->
  take (_max_used sw) (_ports sw) = Some <$> targets ->
  fst (fst (handle_tx_queue sw port w)) = Ok tt ->
  target ∈ targets -> target <> port ->
  ports w !! target = Some tp ->
  Virtio_port.match_vlan tp
    (if Virtio_net_request.has_vlan request
     then Virtio_net_request.vlan_id request
     else Virtio_port.get_vlan p') = true ->
  exists cs o,
    calls (snd (handle_tx_queue sw port w)) = calls w ++ cs
    /\ {| call_site := Flood; call_target := target;
          call_src_port := port; call_outcome := o |} ∈ cs.
Proof.
  intros Hport Hget Hmiss Htargets Hok Hin Hne Htp Hvlan. revert Hok.
  unfold Virtio_switch.handle_tx_queue. rewrite Hport, Hget.
  unfold Virtio_switch.forward. cbn [_mac_table set_mac_table _max_used _ports].
  assert (Hnone : (if negb (Mac_addr.is_broadcast
                              (Virtio_net_request.dst_mac request))
                   then Mac_table.lookup
                          (Mac_table.learn Mac_table_size (_mac_table sw)
                             (Virtio_net_request.src_mac request) (Some port))
                          (Virtio_net_request.dst_mac request)
                   else None) = None).
  { destruct Hmiss as [->| ->]; [done|]. by destruct (negb _). }
  rewrite Hnone, Htargets.
  set (vlan := if Virtio_net_request.has_vlan request then _ else _) in *.
  pose proof (flood_reaches_all_without_holes targets port vlan request
                (set_port w port p')) as Hflood.
  destruct (flood (Some <$> targets) port vlan request (set_port w port p'))
    as [[[]|e] w1]; [|by intros [=]].
  destruct (Hflood w1 eq_refl target tp Hin Hne) as (cs & o & Hcs & Hc);
    [simpl; by rewrite lookup_insert_ne|done|].
  destruct (mirror_calls (set_mac_table sw
                            (Mac_table.learn Mac_table_size (_mac_table sw)
                               (Virtio_net_request.src_mac request) (Some port)))
              port request w1) as (ms & Hms & _).
  destruct (mirror _ _ _ _) as [r w2]. cbn [fst snd] in *. intros _.
  exists (cs ++ ms), o. rewrite destroy_calls, Hms, Hcs. simpl.
  split; [by rewrite app_assoc|]. apply elem_of_app. by left.
Qed.

(** X25: a frame whose destination the MAC table knows is not
    flooded: besides the copy for the monitor port, the only call of
    [handle_request] that [handle_tx_queue] can make is the one on the
    port the table gives for the destination. *)
Theorem known_unicast_is_not_flooded sw port w p request p' target :
  ports w !! port = Some p ->
  Virtio_port.get_tx_request port p = (Ok (Some request), p') ->
  Mac_addr.is_broadcast (Virtio_net_request.dst_mac request) = false ->
  Mac_table.lookup
    (Mac_table.learn Mac_table_size (_mac_table sw)
       (Virtio_net_request.src_mac request) (Some port))
    (Virtio_net_request.dst_mac request) = Some target ->
  exists cs,
    calls (snd (handle_tx_queue sw port w)) = calls w ++ cs
    /\ Forall (fun c =>
                 call_site c = Mirror
                 \/ (call_site c = Unicast /\ call_target c = target)) cs.
Proof.
  intros Hport Hget Hnb Hlookup.
  unfold Virtio_switch.handle_tx_queue. rewrite Hport, Hget.
  unfold Virtio_switch.forward. cbn [_mac_table set_mac_table].
  rewrite Hnb. cbn [negb]. rewrite Hlookup.
  case_decide as Hself.
  { exists []. simpl. by rewrite destroy_calls, app_nil_r. }
  destruct (ports (set_port w port p') !! target) as [tp|].
  2:{ exists []. simpl. by rewrite destroy_calls, app_nil_r. }
  destruct (Virtio_port.match_vlan tp _).
  2:{ exists []. simpl. by rewrite destroy_calls, app_nil_r. }
  destruct (handle_request_calls Unicast target port request (set_port w port p'))
    as [o Ho].
  destruct (handle_request Unicast target port request (set_port w port p'))
    as [[[]|e] w1]; simpl in Ho.
  - destruct (mirror_calls (set_mac_table sw
                              (Mac_table.learn Mac_table_size (_mac_table sw)
                                 (Virtio_net_request.src_mac request) (Some port)))
                port request w1) as (ms & Hms & Hall).
    destruct (mirror _ _ _ _) as [r w2]. cbn [fst snd] in *.
    eexists (_ :: ms). rewrite destroy_calls, Hms, Ho, <- app_assoc.
    split; [done|]. constructor; [by right|].
    eapply Forall_impl; [exact Hall|]. intros c [? _]. by left.
  - eexists [_]. simpl. rewrite destroy_calls, Ho. split; [done|].
    constructor; [by right|done].
Qed.

(** The copy for the monitor port comes last and at most once. *)
Lemma mirror_last sw port request w :
  calls (snd (mirror sw port request w)) = calls w
  \/ exists m o,
       calls (snd (mirror sw port request w))
       = calls w ++ [{| call_site := Mirror; call_target := m;
                        call_src_port := port; call_outcome := o |}]
       /\ _monitor sw = Some m /\ filter_request request = false.
Proof.
  unfold Virtio_switch.mirror.
  destruct (_monitor sw) as [m|] eqn:Hm; [|by left].
  destruct (filter_request request) eqn:Hfilter; [by left|]. simpl.
  destruct (handle_request_calls Mirror m port request w) as [o Ho].
  right. by eauto.
Qed.

Lemma flood_sites slots port vlan request w :
  exists cs,
    calls (snd (flood slots port vlan request w)) = calls w ++ cs
    /\ Forall (fun c => call_site c <> Mirror) cs.
Proof.
  destruct (flood_calls (create 0) slots port vlan request w)
    as (cs & Hcs & Hall).
  exists cs. split; [done|].
  eapply Forall_impl; [exact Hall|]. intros c [-> _]. done.
Qed.

(** X26: the monitor port gets at most one copy of a frame, after all
    other deliveries of that frame, and only when there is a monitor port
    and the filter does not reject the request. *)
Theorem monitor_copy_comes_last_and_once sw port w p request p' :
  ports w !! port = Some p ->
  Virtio_port.get_tx_request port p = (Ok (Some request), p') ->
  exists cs ms,
    calls (snd (handle_tx_queue sw port w)) = calls w ++ cs ++ ms
    /\ Forall (fun c => call_site c <> Mirror) cs
    /\ (ms = []
        \/ exists m o,
             ms = [{| call_site := Mirror; call_target := m;
                      call_src_port := port; call_outcome := o |}]
             /\ _monitor sw = Some m /\ filter_request request = false).
Proof.
  intros Hport Hget.
  unfold Virtio_switch.handle_tx_queue. rewrite Hport, Hget.
  set (sw1 := set_mac_table sw _).
  set (vlan := if Virtio_net_request.has_vlan request then _ else _).
  assert (Hmirror : forall w1 cs,
             calls w1 = calls (set_port w port p') ++ cs ->
             Forall (fun c => call_site c <> Mirror) cs ->
             exists cs ms,
               calls (snd (mirror sw1 port request w1)) = calls w ++ cs ++ ms
               /\ Forall (fun c => call_site c <> Mirror) cs
               /\ (ms = []
                   \/ exists m o,
                        ms = [{| call_site := Mirror; call_target := m;
                                 call_src_port := port; call_outcome := o |}]
                        /\ _monitor sw = Some m
                        /\ filter_request request = false)).
  { intros w1 cs Hcs Hall.
    destruct (mirror_last sw1 port request w1) as [Hm|(m & o & Hm & Hmon & Hf)].
    - exists cs, []. rewrite Hm, Hcs, app_nil_r. by eauto.
    - exists cs, [{| call_site := Mirror; call_target := m;
                     call_src_port := port; call_outcome := o |}].
      rewrite Hm, Hcs, <- app_assoc. split; [done|]. split; [done|].
      right. by eauto. }
  assert (Hnone : forall w1 cs,
             calls w1 = calls (set_port w port p') ++ cs ->
             Forall (fun c => call_site c <> Mirror) cs ->
             exists cs ms,
               calls w1 = calls w ++ cs ++ ms
               /\ Forall (fun c => call_site c <> Mirror) cs
               /\ (ms = []
                   \/ exists m o,
                        ms = [{| call_site := Mirror; call_target := m;
                                 call_src_port := port; call_outcome := o |}]
                        /\ _monitor sw = Some m
                        /\ filter_request request = false)).
  { intros w1 cs Hcs Hall. exists cs, []. rewrite Hcs, app_nil_r. by eauto. }
  assert (Hfwd : exists cs ms,
             calls (snd (forward sw1 port request
                           (Virtio_net_request.dst_mac request) vlan
                           (set_port w port p'))) = calls w ++ cs ++ ms
             /\ Forall (fun c => call_site c <> Mirror) cs
             /\ (ms = []
                 \/ exists m o,
                      ms = [{| call_site := Mirror; call_target := m;
                               call_src_port := port; call_outcome := o |}]
                      /\ _monitor sw = Some m
                      /\ filter_request request = false)).
  { unfold Virtio_switch.forward.
    destruct (if negb _ then _ else _) as [target|].
    - case_decide as Hself; [apply (Hnone _ []); [by rewrite app_nil_r|done]|].
      destruct (ports (set_port w port p') !! target) as [tp|];
        [|apply (Hnone _ []); [by rewrite app_nil_r|done]].
      destruct (Virtio_port.match_vlan tp vlan);
        [|apply (Hnone _ []); [by rewrite app_nil_r|done]].
      destruct (handle_request_calls Unicast target port request
                  (set_port w port p')) as [o Ho].
      destruct (handle_request Unicast target port request (set_port w port p'))
        as [[[]|e] w1]; simpl in Ho.
      + eapply Hmirror; [exact Ho|]. by constructor.
      + eapply Hnone; [exact Ho|]. by constructor.
    - destruct (flood_sites (take (_max_used sw1) (_ports sw1)) port vlan
                  request (set_port w port p')) as (cs & Hcs & Hall).
      destruct (flood _ _ _ _ _) as [[[]|e] w1]; simpl in Hcs.
      + by eapply Hmirror.
      + by eapply Hnone. }
  destruct (forward _ _ _ _ _ _) as [r w2]. simpl in *.
  by rewrite destroy_calls.
Qed.

End Switch.

(** C1 fails on the code: the loop over the port array ends at the first
    empty slot.  After [check_ports] has removed port 1 of three, a
    broadcast of port 0 is handed to no port, although port 2 is
    registered, is not the source and matches the VLAN of the frame. *)
Theorem flood_stops_at_removed_port :
  let '(sw, w) :=
    check_ports Scenario.port_1_gone Scenario.switch Scenario.world in
  _ports sw = [Some 0%nat; None; Some 2%nat; None]
  /\ _max_used sw = 3%nat
  /\ match ports w !! 2%nat with
     | Some p => Virtio_port.match_vlan p 0xffff
     | None => false
     end = true
  /\ let '(r, _, w') :=
       handle_tx_queue (H := Scenario.ids) (H0 := Scenario.copy)
         false Scenario.no_filter 100 sw 0 w in
     r = Ok tt /\ calls w' = [].
Proof. vm_compute. done. Qed.

(** *** The port array *)

Lemma lookup_free_slot_Some sw i :
  slots_inv sw ->
  lookup_free_slot sw = Some i <->
  _ports sw !! i = Some None
  /\ forall j, (j < i)%nat -> exists a, _ports sw !! j = Some (Some a).
Proof.
  intros [Hlen _ _]. unfold lookup_free_slot.
  rewrite take_ge by lia.
  destruct (list_find _ (_ports sw)) as [[k s]|] eqn:Hfind; simpl.
  - apply list_find_Some in Hfind as (Hk & -> & Hbefore).
    split.
    + intros [= <-]. split; [done|]. intros j Hj.
      destruct (lookup_lt_is_Some_2 (_ports sw) j) as [[a|] Ha];
        [apply lookup_lt_Some in Hk; lia|by eauto|].
      by destruct (Hbefore _ _ Ha Hj).
    + intros [Hi Hocc]. f_equal.
      destruct (Nat.lt_trichotomy k i) as [Hlt|[->|Hgt]]; [|done|].
      * destruct (Hocc _ Hlt) as [a Ha]. congruence.
      * by destruct (Hbefore _ _ Hi Hgt).
  - apply list_find_None in Hfind. split; [done|]. intros [Hi _].
    apply list_elem_of_lookup_2 in Hi.
    rewrite Forall_forall in Hfind. by destruct (Hfind _ Hi).
Qed.

Lemma lookup_free_slot_None sw :
  slots_inv sw ->
  lookup_free_slot sw = None <->
  forall i, (i < _max_ports sw)%nat -> exists a, _ports sw !! i = Some (Some a).
Proof.
  intros Hinv. pose proof Hinv as [Hlen _ _]. unfold lookup_free_slot.
  rewrite take_ge by lia.
  destruct (list_find _ (_ports sw)) as [[k s]|] eqn:Hfind; simpl.
  - apply list_find_Some in Hfind as (Hk & -> & _).
    split; [done|]. intros Hall.
    destruct (Hall k) as [a Ha]; [apply lookup_lt_Some in Hk; lia|congruence].
  - apply list_find_None in Hfind. split; [|done]. intros _ i Hi.
    destruct (lookup_lt_is_Some_2 (_ports sw) i) as [[a|] Ha]; [lia|by eauto|].
    apply list_elem_of_lookup_2 in Ha.
    rewrite Forall_forall in Hfind. by destruct (Hfind _ Ha).
Qed.

Lemma slots_inv_create n : slots_inv (create n).
Proof.
  split; simpl.
  - apply length_replicate.
  - lia.
  - intros i a Hi. apply lookup_replicate in Hi as [Hi _]. discriminate Hi.
Qed.

Lemma slots_inv_add_port sw w port sw' :
  slots_inv sw -> add_port sw w port = Ok (true, sw') -> slots_inv sw'.
Proof.
  intros Hinv. pose proof Hinv as [Hlen Hmax Hused]. unfold add_port.
  destruct (ports w !! port) as [p|]; [|done].
  destruct (negb _ && _); [done|].
  destruct (lookup_free_slot sw) as [uidx|] eqn:Hfree; [|done].
  intros [= <-].
  apply (lookup_free_slot_Some _ _ Hinv) in Hfree as [Hslot Hocc].
  pose proof (lookup_lt_Some _ _ _ Hslot) as Hlt.
  assert (Hle : (uidx <= _max_used sw)%nat).
  { destruct (Nat.le_gt_cases uidx (_max_used sw)) as [|Hgt]; [done|].
    destruct (Hocc _ Hgt) as [a Ha]. apply Hused in Ha. lia. }
  split; simpl.
  - by rewrite length_insert.
  - destruct (Nat.eqb_spec (_max_used sw) uidx); lia.
  - intros i a Hi. destruct (decide (uidx = i)) as [<-|Hne].
    + destruct (Nat.eqb_spec (_max_used sw) uidx); lia.
    + rewrite list_lookup_insert_ne in Hi by done. apply Hused in Hi.
      destruct (Nat.eqb_spec (_max_used sw) uidx); lia.
Qed.

Lemma mac_in_use_false sw w m :
  slots_inv sw ->
  mac_in_use sw w m = false <->
  forall i a p, _ports sw !! i = Some (Some a) -> ports w !! a = Some p ->
                Virtio_port.mac p <> m.
Proof.
  intros [Hlen _ _]. unfold mac_in_use. rewrite take_ge by lia.
  rewrite <- not_true_iff_false, existsb_exists. split.
  - intros Hno i a p Hi Ha Hm. apply Hno.
    exists (Some a). split.
    + apply list_elem_of_In. by eapply list_elem_of_lookup_2.
    + rewrite Ha. by apply Z.eqb_eq.
  - intros Hall ([a|] & Hin & Hm); [|done].
    apply list_elem_of_In, list_elem_of_lookup_1 in Hin as [i Hi].
    destruct (ports w !! a) as [p|] eqn:Ha; [|done].
    apply Z.eqb_eq in Hm. by eapply Hall.
Qed.

(** X27: [add_port] keeps the known MAC addresses of the registered
    ports distinct: when no two slots hold ports with the same known
    address, this is still so after a port was added (a port whose known
    address is in use is refused); and every port stays in a slot below
    [_max_used]. *)
Theorem add_port_keeps_macs_distinct sw w port sw' :
  slots_inv sw -> macs_distinct sw w ->
  add_port sw w port = Ok (true, sw') ->
  slots_inv sw' /\ macs_distinct sw' w.
Proof.
  intros Hinv Hdist Hadd.
  split; [by eapply slots_inv_add_port|].
  revert Hadd. unfold add_port.
  destruct (ports w !! port) as [p|] eqn:Hp; [|done].
  destruct (negb (Mac_addr.is_unknown (Virtio_port.mac p))
            && mac_in_use sw w (Virtio_port.mac p)) eqn:Hdup; [done|].
  destruct (lookup_free_slot sw) as [uidx|] eqn:Hfree; [|done].
  intros [= <-].
  apply (lookup_free_slot_Some _ _ Hinv) in Hfree as [Hslot _].
  assert (Hnew : forall i a pa,
             _ports sw !! i = Some (Some a) -> ports w !! a = Some pa ->
             Mac_addr.is_unknown (Virtio_port.mac pa) = false
             \/ Mac_addr.is_unknown (Virtio_port.mac p) = false ->
             Virtio_port.mac pa <> Virtio_port.mac p).
  { intros i a pa Hi Ha Hknown Heq.
    assert (Hk : Mac_addr.is_unknown (Virtio_port.mac p) = false).
    { destruct Hknown as [Hk|Hk]; [by rewrite <- Heq|done]. }
    rewrite Hk in Hdup. simpl in Hdup.
    by eapply (proj1 (mac_in_use_false _ _ _ Hinv) Hdup). }
  intros i j a b pa pb Hij Hi Hj Ha Hb Hknown. simpl in Hi, Hj.
  destruct (decide (uidx = i)) as [<-|Hni]; destruct (decide (uidx = j)) as [<-|Hnj].
  - done.
  - rewrite list_lookup_insert_eq in Hi by (by eapply lookup_lt_Some).
    rewrite list_lookup_insert_ne in Hj by done.
    injection Hi as <-. rewrite Hp in Ha. injection Ha as <-.
    apply not_eq_sym. eapply Hnew; eauto.
  - rewrite list_lookup_insert_ne in Hi by done.
    rewrite list_lookup_insert_eq in Hj by (by eapply lookup_lt_Some).
    injection Hj as <-. rewrite Hp in Hb. injection Hb as <-.
    eapply Hnew; eauto.
  - rewrite list_lookup_insert_ne in Hi by done.
    rewrite list_lookup_insert_ne in Hj by done.
    by eapply (Hdist i j).
Qed.

(** X28: a port that [add_port] accepts is put into the first free slot
    of the array, the one [port_available] announces: the slot was empty,
    all slots before it are occupied, no other slot changes, the slot is
    below [_max_used] afterwards, and the monitor port and the MAC table
    are as they were. *)
Theorem add_port_fills_first_free_slot sw w port sw' :
  slots_inv sw ->
  add_port sw w port = Ok (true, sw') ->
  exists i,
    port_available sw false = Some i
    /\ _ports sw !! i = Some None
    /\ (forall j, (j < i)%nat -> exists a, _ports sw !! j = Some (Some a))
    /\ _ports sw' = <[i := Some port]> (_ports sw)
    /\ (i < _max_used sw')%nat
    /\ _monitor sw' = _monitor sw /\ _mac_table sw' = _mac_table sw.
Proof.
  intros Hinv Hadd.
  pose proof (slots_inv_add_port _ _ _ _ Hinv Hadd) as [_ _ Hused'].
  revert Hadd. unfold add_port, port_available.
  destruct (ports w !! port) as [p|]; [|done].
  destruct (negb _ && _); [done|].
  destruct (lookup_free_slot sw) as [uidx|] eqn:Hfree; [|done].
  intros [= <-]. simpl in *.
  apply (lookup_free_slot_Some _ _ Hinv) in Hfree as [Hslot Hocc].
  exists uidx. split_and!; try done.
  apply (Hused' uidx port). apply list_lookup_insert_eq.
  by eapply lookup_lt_Some.
Qed.

Section Check.

Variable gone : nat -> bool.
Variable sw0 : t.
Variable w0 : World.

Local Abbreviation checked := (Virtio_switch.checked gone).
Local Abbreviation check_inv := (Virtio_switch.check_inv gone sw0 w0).
Local Abbreviation check_table := (Virtio_switch.check_table gone sw0).

Lemma elem_of_take_S {A} (l : list A) (x : A) (idx : nat) :
  x ∈ take (S idx) l <-> x ∈ take idx l \/ l !! idx = Some x.
Proof.
  destruct (l !! idx) as [y|] eqn:Hy.
  - rewrite (take_S_r _ _ _ Hy), elem_of_app, list_elem_of_singleton.
    split; (intros [?|?]; [by left|right; congruence]).
  - apply lookup_ge_None in Hy. rewrite !take_ge by lia.
    split; [by left|]. by intros [?|?].
Qed.

Lemma check_inv_start : slots_inv sw0 -> check_inv 0 sw0 w0.
Proof.
  intros Hslots. split; try done.
  intros a. rewrite bool_decide_eq_false_2, andb_false_r; [done|].
  simpl. apply not_elem_of_nil.
Qed.

Lemma check_table_start :
  Mac_table.reachable Mac_table_size (_mac_table sw0) -> check_table 0 sw0.
Proof.
  intros Hreach. split; [done|].
  intros addr. destruct (Mac_table.lookup _ addr) as [q|]; [|done].
  rewrite bool_decide_eq_false_2, andb_false_r; [done|].
  simpl. apply not_elem_of_nil.
Qed.

(** An element of the first [S idx] slots is one of the first [idx]
    slots unless it is the port of slot [idx]. *)
Lemma take_S_other (idx : nat) (a port : nat) (s : option nat) :
  _ports sw0 !! idx = Some s -> s <> Some a ->
  bool_decide (Some a ∈ take (S idx) (_ports sw0))
  = bool_decide (Some a ∈ take idx (_ports sw0)).
Proof.
  intros Hs Hne. apply bool_decide_ext. rewrite elem_of_take_S.
  split; [|by left]. intros [?|Ha]; [done|]. congruence.
Qed.

Lemma check_slot_step idx sw w :
  check_inv idx sw w -> (idx < _max_used sw)%nat ->
  check_inv (S idx) (fst (check_slot gone idx sw w)) (snd (check_slot gone idx sw w))
  /\ (_max_used (fst (check_slot gone idx sw w)) <= _max_used sw)%nat.
Proof.
  intros [Hslots Hmon Hmax Hports Hworld Hcalls] Hidx.
  pose proof Hslots as [Hlen Hle Hused].
  assert (Hsame : _ports sw !! idx = _ports sw0 !! idx).
  { rewrite Hports. by rewrite Nat.ltb_irrefl. }
  assert (Hkeep : forall s : option nat,
             _ports sw0 !! idx = Some s -> checked s = s ->
             (forall q, s = Some q -> gone q = false) ->
             check_inv (S idx) sw w).
  { intros s Hs Hchecked Hnot. split; try done.
    - intros i. rewrite Hports.
      destruct (Nat.ltb_spec i idx) as [Hlt|Hge].
      + by rewrite (proj2 (Nat.ltb_lt i (S idx))) by lia.
      + destruct (decide (i = idx)) as [->|Hne].
        * rewrite (proj2 (Nat.ltb_lt idx (S idx))) by lia.
          rewrite Hs. simpl. by rewrite Hchecked.
        * by rewrite (proj2 (Nat.ltb_ge i (S idx))) by lia.
    - intros a. rewrite Hworld.
      destruct (gone a) eqn:Ha; [|done]. simpl.
      rewrite (take_S_other idx a a s Hs); [done|].
      intros ->. rewrite (Hnot a eq_refl) in Ha. done. }
  unfold check_slot.
  destruct (_ports sw !! idx) as [[port|]|] eqn:Hslot.
  - destruct (gone port) eqn:Hgone.
    + (* the port is removed *)
      cbn [fst snd]. split; [|cbn; destruct (Nat.eqb_spec idx (_max_used sw - 1)); lia].
      assert (Hlt : (idx < length (_ports sw))%nat) by (by eapply lookup_lt_Some).
      split; cbn [_ports _monitor _max_ports _max_used _mac_table ports calls];
        try done.
      * split; cbn [_ports _monitor _max_ports _max_used _mac_table].
        -- by rewrite length_insert.
        -- destruct (Nat.eqb_spec idx (_max_used sw - 1)); lia.
        -- intros i a Hi. destruct (decide (idx = i)) as [<-|Hne].
           ++ rewrite list_lookup_insert_eq in Hi by done. discriminate Hi.
           ++ rewrite list_lookup_insert_ne in Hi by done. apply Hused in Hi.
              destruct (Nat.eqb_spec idx (_max_used sw - 1)); lia.
      * intros i. destruct (decide (idx = i)) as [<-|Hne].
        -- rewrite list_lookup_insert_eq by done.
           rewrite (proj2 (Nat.ltb_lt idx (S idx))) by lia.
           rewrite <- Hsame. simpl. unfold checked. simpl. by rewrite Hgone.
        -- rewrite list_lookup_insert_ne by done. rewrite Hports.
           destruct (Nat.ltb_spec i idx) as [Hl|Hg].
           ++ by rewrite (proj2 (Nat.ltb_lt i (S idx))) by lia.
           ++ by rewrite (proj2 (Nat.ltb_ge i (S idx))) by lia.
      * intros a. destruct (decide (a = port)) as [->|Hap].
        -- rewrite lookup_delete_eq, Hgone. simpl.
           rewrite bool_decide_eq_true_2; [done|].
           apply elem_of_take_S. right. congruence.
        -- rewrite lookup_delete_ne by done. rewrite Hworld.
           rewrite (take_S_other idx a a (Some port)); [done|congruence|congruence].
    + split; [|cbn; lia]. cbn [fst snd].
      apply (Hkeep (Some port)); [congruence| |].
      * unfold checked. simpl. by rewrite Hgone.
      * by intros q [= <-].
  - split; [|cbn; lia]. cbn [fst snd].
    apply (Hkeep None); [congruence|done|done].
  - apply lookup_ge_None in Hslot. lia.
Qed.

Lemma check_slot_table idx sw w :
  check_inv idx sw w -> check_table idx sw -> (idx < _max_used sw)%nat ->
  check_table (S idx) (fst (check_slot gone idx sw w)).
Proof.
  intros [Hslots Hmon Hmax Hports Hworld Hcalls] [Hreach Htable] Hidx.
  assert (Hsame : _ports sw !! idx = _ports sw0 !! idx).
  { rewrite Hports. by rewrite Nat.ltb_irrefl. }
  assert (Hkeep : forall s : option nat,
             _ports sw0 !! idx = Some s ->
             (forall q, s = Some q -> gone q = false) ->
             check_table (S idx) sw).
  { intros s Hs Hnot. split; [done|].
    intros addr. rewrite Htable.
    destruct (Mac_table.lookup _ addr) as [q|]; [|done].
    destruct (gone q) eqn:Hq; [|done]. simpl.
    rewrite (take_S_other idx q q s Hs); [done|].
    intros ->. rewrite (Hnot q eq_refl) in Hq. done. }
  unfold check_slot.
  destruct (_ports sw !! idx) as [[port|]|] eqn:Hslot.
  - destruct (gone port) eqn:Hgone.
    + cbn [fst]. split; cbn [_mac_table].
      * apply Mac_table.reach_flush; [done|]. apply merge_sort_Permutation.
      * intros addr.
        rewrite (Mac_table_facts.flush_lookup_all Mac_table_size);
          [|apply (Mac_table_facts.reachable_inv Mac_table_size);
              [unfold Mac_table_size; lia|done]
           |apply merge_sort_Permutation].
        rewrite Htable.
        destruct (Mac_table.lookup (_mac_table sw0) addr) as [q|];
          [|by case_bool_decide].
        destruct (decide (q = port)) as [->|Hqp].
        -- rewrite Hgone. simpl.
           rewrite (bool_decide_eq_true_2 (Some port ∈ take (S idx) (_ports sw0)));
             [|apply elem_of_take_S; right; congruence].
           by repeat case_bool_decide.
        -- rewrite (take_S_other idx q q (Some port)); [|congruence|congruence].
           destruct (gone q && bool_decide (Some q ∈ take idx (_ports sw0)));
             case_bool_decide; congruence.
    + cbn [fst]. apply (Hkeep (Some port)); [congruence|]. by intros q [= <-].
  - cbn [fst]. apply (Hkeep None); [congruence|done].
  - apply lookup_ge_None in Hslot. destruct Hslots. lia.
Qed.

Lemma check_slots_spec n : forall idx sw w,
  check_inv idx sw w -> (_max_used sw <= idx + n)%nat ->
  exists idx',
    check_inv idx' (fst (check_slots gone n idx sw w))
      (snd (check_slots gone n idx sw w))
    /\ (_max_used (fst (check_slots gone n idx sw w)) <= idx')%nat
    /\ (check_table idx sw -> check_table idx' (fst (check_slots gone n idx sw w))).
Proof.
  induction n as [|n IH]; intros idx sw w Hinv Hn; cbn [check_slots].
  { exists idx. cbn [fst snd]. split; [done|]. split; [lia|done]. }
  destruct (Nat.ltb_spec idx (_max_used sw)) as [Hlt|Hge].
  - destruct (check_slot_step idx sw w Hinv Hlt) as [Hinv1 Hmax1].
    pose proof (check_slot_table idx sw w Hinv) as Htable1.
    destruct (check_slot gone idx sw w) as [sw1 w1]. cbn [fst snd] in *.
    destruct (IH (S idx) sw1 w1 Hinv1 ltac:(lia)) as (idx' & Hinv' & Hmax' & Htable').
    exists idx'. split; [done|]. split; [done|]. intros Ht. apply Htable'.
    by apply Htable1.
  - exists idx. cbn [fst snd]. split; [done|]. split; [lia|done].
Qed.

(** Beyond the slots that are in use there is no port. *)
Lemma beyond_max_used idx sw w a :
  check_inv idx sw w -> (_max_used sw <= idx)%nat ->
  Some a ∈ take idx (_ports sw0) <-> Some a ∈ _ports sw0.
Proof.
  intros [[Hlen Hle Hused] _ _ Hports _ _] Hmax. split.
  - intros Hin. rewrite <- (take_drop idx). apply elem_of_app. by left.
  - intros [i Hi]%list_elem_of_lookup_1.
    destruct (Nat.lt_ge_cases i idx) as [Hlt|Hge].
    + apply (list_elem_of_lookup_2 _ i). by rewrite lookup_take_lt.
    + specialize (Hports i). rewrite (proj2 (Nat.ltb_ge i idx)) in Hports by done.
      rewrite Hi in Hports. apply Hused in Hports. lia.
Qed.

Lemma checked_all idx sw w :
  check_inv idx sw w -> (_max_used sw <= idx)%nat ->
  _ports sw = checked <$> _ports sw0.
Proof.
  intros Hinv Hmax. pose proof Hinv as [[Hlen Hle Hused] _ _ Hports _ _].
  apply list_eq. intros i. rewrite list_lookup_fmap, Hports.
  destruct (Nat.ltb_spec i idx) as [Hlt|Hge]; [done|].
  destruct (_ports sw0 !! i) as [[a|]|] eqn:Hi; [|done|done].
  specialize (Hports i). rewrite (proj2 (Nat.ltb_ge i idx)) in Hports by done.
  rewrite Hi in Hports. apply Hused in Hports. lia.
Qed.

End Check.

(** X29: [check_ports] removes exactly the ports whose clients have
    gone: every slot that held such a port is empty afterwards and every
    other slot is as it was, holes included; the monitor port is removed
    if its client has gone; the removed ports are destroyed and no other
    port is touched. *)
Theorem check_ports_removes_gone gone sw w :
  slots_inv sw ->
  let '(sw', w') := check_ports gone sw w in
  slots_inv sw'
  /\ _ports sw' = checked gone <$> _ports sw
  /\ _monitor sw' = checked gone (_monitor sw)
  /\ forall a,
       ports w' !! a
       = if gone a && bool_decide (Some a ∈ _ports sw \/ _monitor sw = Some a)
         then None else ports w !! a.
Proof.
  intros Hslots. unfold check_ports.
  destruct (check_slots_spec gone sw w (_max_used sw) 0 sw w
              (check_inv_start gone sw w Hslots) ltac:(lia))
    as (idx & Hinv & Hmax & _).
  destruct (check_slots gone (_max_used sw) 0 sw w) as [sw1 w1]. cbn [fst snd] in *.
  pose proof (checked_all gone sw w idx sw1 w1 Hinv Hmax) as Hports.
  pose proof (fun a => beyond_max_used gone sw w idx sw1 w1 a Hinv Hmax) as Hbeyond.
  destruct Hinv as [Hslots1 Hmon _ _ Hworld _].
  assert (Hw1 : forall a,
             ports w1 !! a
             = if gone a && bool_decide (Some a ∈ _ports sw) then None
               else ports w !! a).
  { intros a. rewrite Hworld.
    by rewrite (bool_decide_ext _ _ (Hbeyond a)). }
  rewrite Hmon. destruct (_monitor sw) as [m|] eqn:Hm; simpl.
  - destruct (gone m) eqn:Hgone.
    + split_and!; cbn [_ports _monitor ports]; try done.
      * by destruct Hslots1.
      * intros a. destruct (decide (a = m)) as [->|Hne].
        -- rewrite lookup_delete_eq, Hgone. simpl.
           rewrite bool_decide_eq_true_2; [done|]. by right.
        -- rewrite lookup_delete_ne by done. rewrite Hw1.
           rewrite (bool_decide_ext (Some a ∈ _ports sw \/ Some m = Some a)
                      (Some a ∈ _ports sw)); [done|].
           split; [|by left]. intros [?|?]; [done|congruence].
    + split_and!; try done. intros a. rewrite Hw1.
      destruct (gone a) eqn:Ha; [|done]. simpl.
      rewrite (bool_decide_ext (Some a ∈ _ports sw \/ Some m = Some a)
                 (Some a ∈ _ports sw)); [done|].
      split; [|by left]. intros [?|?]; [done|congruence].
  - split_and!; try done. intros a. rewrite Hw1.
    rewrite (bool_decide_ext (Some a ∈ _ports sw \/ None = Some a)
               (Some a ∈ _ports sw)); [done|].
    split; [|by left]. intros [?|?]; [done|congruence].
Qed.

(** X30: [check_ports] flushes the ports it removes from the MAC
    table: an address that pointed to a removed port is forgotten, every
    other address is found as before, and so an address whose port was
    registered before is never found with a port that is not registered
    any more. *)
Theorem check_ports_flushes_removed gone sw w addr :
  slots_inv sw ->
  Mac_table.reachable Mac_table_size (_mac_table sw) ->
  let sw' := fst (check_ports gone sw w) in
  Mac_table.reachable Mac_table_size (_mac_table sw')
  /\ Mac_table.lookup (_mac_table sw') addr
     = match Mac_table.lookup (_mac_table sw) addr with
       | Some q => if gone q && bool_decide (Some q ∈ _ports sw) then None
                   else Some q
       | None => None
       end
  /\ forall q, Mac_table.lookup (_mac_table sw') addr = Some q ->
               Some q ∈ _ports sw -> Some q ∈ _ports sw'.
Proof.
  intros Hslots Hreach. unfold check_ports.
  destruct (check_slots_spec gone sw w (_max_used sw) 0 sw w
              (check_inv_start gone sw w Hslots) ltac:(lia))
    as (idx & Hinv & Hmax & Htable).
  specialize (Htable (check_table_start gone sw Hreach)).
  destruct (check_slots gone (_max_used sw) 0 sw w) as [sw1 w1]. cbn [fst snd] in *.
  pose proof (checked_all gone sw w idx sw1 w1 Hinv Hmax) as Hports.
  pose proof (fun a => beyond_max_used gone sw w idx sw1 w1 a Hinv Hmax) as Hbeyond.
  destruct Htable as [Hreach1 Hlookup].
  assert (Hsw1 : Mac_table.reachable Mac_table_size (_mac_table sw1)
                 /\ Mac_table.lookup (_mac_table sw1) addr
                    = match Mac_table.lookup (_mac_table sw) addr with
                      | Some q =>
                          if gone q && bool_decide (Some q ∈ _ports sw) then None
                          else Some q
                      | None => None
                      end
                 /\ forall q, Mac_table.lookup (_mac_table sw1) addr = Some q ->
                              Some q ∈ _ports sw -> Some q ∈ _ports sw1).
  { split; [done|].
    assert (Heq : Mac_table.lookup (_mac_table sw1) addr
                  = match Mac_table.lookup (_mac_table sw) addr with
                    | Some q =>
                        if gone q && bool_decide (Some q ∈ _ports sw) then None
                        else Some q
                    | None => None
                    end).
    { rewrite Hlookup. destruct (Mac_table.lookup _ addr) as [q|]; [|done].
      by rewrite (bool_decide_ext _ _ (Hbeyond q)). }
    split; [done|]. intros q Hq Hin. rewrite Heq in Hq.
    destruct (Mac_table.lookup (_mac_table sw) addr) as [q'|]; [|done].
    rewrite (bool_decide_eq_true_2 (Some q' ∈ _ports sw)) in Hq.
    2:{ destruct (gone q' && _); [done|]. by injection Hq as ->. }
    destruct (gone q') eqn:Hgone; [done|]. injection Hq as ->.
    rewrite Hports. apply list_elem_of_fmap. exists (Some q). split; [|done].
    unfold checked. simpl. by rewrite Hgone. }
  destruct (_monitor sw1) as [m|]; [|done].
  by destruct (gone m).
Qed.

(** A frame a port sends to its own address, with a monitor port and no
    filter. *)
Lemma suppressed_unicast_not_mirrored_witness :
  exists w',
    handle_tx_queue (H := Scenario.ids) (H0 := Scenario.copy)
      false Scenario.no_filter 100
      Scenario.switch_with_monitor 0 Scenario.world_with_monitor
    = (Ok tt,
       set_mac_table Scenario.switch_with_monitor
         (Mac_table.learn Mac_table_size
            (_mac_table Scenario.switch_with_monitor)
            (Virtio_net_request.src_mac Scenario.own_request) (Some 0%nat)),
       w')
    /\ calls w' = calls Scenario.world_with_monitor.
Proof.
  apply (suppressed_unicast_not_mirrored (H := Scenario.ids)
           (H0 := Scenario.copy) false Scenario.no_filter 100
           Scenario.switch_with_monitor 0%nat Scenario.world_with_monitor
           Scenario.sender Scenario.own_request
           (snd (Virtio_port.get_tx_request (H := Scenario.ids) 0 Scenario.sender))
           0%nat).
  - vm_compute. reflexivity.
  - vm_compute. reflexivity.
  - vm_compute. reflexivity.
  - vm_compute. reflexivity.
  - left. reflexivity.
Defined.

(** *** The theorems on the small installation *)

Lemma macs_distinct_create n w : macs_distinct (create n) w.
Proof.
  intros i j a b pa pb _ Hi. simpl in Hi.
  apply lookup_replicate in Hi as [Hi _]. discriminate Hi.
Qed.

Lemma switch_slots : slots_inv Scenario.switch.
Proof.
  apply (slots_inv_add_port
           (Scenario.add (Scenario.add (create 4) 0) 1) Scenario.world 2%nat);
    [|vm_compute; reflexivity].
  apply (slots_inv_add_port (Scenario.add (create 4) 0) Scenario.world 1%nat);
    [|vm_compute; reflexivity].
  apply (slots_inv_add_port (create 4) Scenario.world 0%nat);
    [|vm_compute; reflexivity].
  apply slots_inv_create.
Qed.

(** Port 1 is added after port 0. *)
Lemma add_port_keeps_macs_distinct_witness :
  slots_inv (Scenario.add_with_mac (Scenario.add_with_mac (create 4) 0) 1)
  /\ macs_distinct (Scenario.add_with_mac (Scenario.add_with_mac (create 4) 0) 1)
       Scenario.world_with_macs.
Proof.
  destruct (add_port_keeps_macs_distinct (create 4) Scenario.world_with_macs 0%nat
              (Scenario.add_with_mac (create 4) 0))
    as [Hslots Hmacs].
  - apply slots_inv_create.
  - apply macs_distinct_create.
  - vm_compute. reflexivity.
  - apply (add_port_keeps_macs_distinct (Scenario.add_with_mac (create 4) 0)
             Scenario.world_with_macs 1%nat).
    + exact Hslots.
    + exact Hmacs.
    + vm_compute. reflexivity.
Defined.

Lemma add_port_fills_first_free_slot_witness :
  exists i,
    port_available (Scenario.add_with_mac (create 4) 0) false = Some i
    /\ _ports (Scenario.add_with_mac (Scenario.add_with_mac (create 4) 0) 1)
       = <[i := Some 1%nat]> (_ports (Scenario.add_with_mac (create 4) 0)).
Proof.
  destruct (add_port_fills_first_free_slot (Scenario.add_with_mac (create 4) 0)
              Scenario.world_with_macs 1%nat
              (Scenario.add_with_mac (Scenario.add_with_mac (create 4) 0) 1))
    as (i & Havail & _ & _ & Hports & _).
  - apply (slots_inv_add_port (create 4) Scenario.world_with_macs 0%nat);
      [apply slots_inv_create|vm_compute; reflexivity].
  - vm_compute. reflexivity.
  - exists i. split; [exact Havail|exact Hports].
Defined.

(** The client of port 1 has gone. *)
Lemma check_ports_removes_gone_witness :
  _ports (fst (check_ports Scenario.port_1_gone Scenario.switch Scenario.world))
  = checked Scenario.port_1_gone <$> _ports Scenario.switch.
Proof.
  pose proof (check_ports_removes_gone Scenario.port_1_gone Scenario.switch
                Scenario.world switch_slots) as Hcheck.
  destruct (check_ports Scenario.port_1_gone Scenario.switch Scenario.world)
    as [sw' w'].
  destruct Hcheck as (_ & Hports & _). exact Hports.
Defined.

(** The address learned from port 1 is forgotten with the port. *)
Lemma check_ports_flushes_removed_witness :
  Mac_table.lookup
    (_mac_table (fst (check_ports Scenario.port_1_gone Scenario.learned_switch
                        Scenario.world))) 77
  = match Mac_table.lookup (_mac_table Scenario.learned_switch) 77 with
    | Some q =>
        if Scenario.port_1_gone q
           && bool_decide (Some q ∈ _ports Scenario.learned_switch)
        then None else Some q
    | None => None
    end.
Proof.
  destruct (check_ports_flushes_removed Scenario.port_1_gone
              Scenario.learned_switch Scenario.world 77)
    as (_ & Hlookup & _).
  - destruct switch_slots as [Hlen Hmax Hused]. by split.
  - unfold Scenario.learned_switch. simpl. repeat constructor.
  - exact Hlookup.
Defined.

(** The second descriptor of the frame of port 0 fails validation while
    the frame is copied to port 1: [Bad_descriptor] leaves
    [handle_tx_queue], and the chain of port 0 is finished. *)
Lemma handle_tx_queue_takes_one_chain_witness :
  fst (fst (handle_tx_queue (H := Scenario.ids) (H0 := Scenario.copy)
              false Scenario.no_filter 100 Scenario.switch 0
              Scenario.world_bad_second))
  = Throw Bad_descriptor
  /\ exists p',
       ports (snd (handle_tx_queue (H := Scenario.ids) (H0 := Scenario.copy)
                     false Scenario.no_filter 100 Scenario.switch 0
                     Scenario.world_bad_second))
       !! 0%nat = Some p'
       /\ Virtqueue.current_avail (Virtio_port.tx_q p') = 1%nat
       /\ Virtqueue.used (Virtio_port.tx_q p')
          = [Virtqueue.Finish_head (Some 0%nat) 0].
Proof.
  pose proof (handle_tx_queue_takes_one_chain (H := Scenario.ids)
                (H0 := Scenario.copy) false Scenario.no_filter 100
                Scenario.switch 0%nat Scenario.world_bad_second
                Scenario.port_bad_second eq_refl) as Hone.
  assert (Hwork : Virtio_port.tx_work_pending Scenario.port_bad_second = true)
    by reflexivity.
  rewrite Hwork in Hone. destruct Hone as (p' & us & Hp' & Htx & Hret).
  assert (Hres : fst (fst (handle_tx_queue (H := Scenario.ids)
                             (H0 := Scenario.copy) false Scenario.no_filter 100
                             Scenario.switch 0 Scenario.world_bad_second))
                 = Throw Bad_descriptor) by (vm_compute; reflexivity).
  assert (Hgot : fst (Virtio_port.get_tx_request (H := Scenario.ids) 0
                        Scenario.port_bad_second)
                 = Ok (Some Scenario.broken_request))
    by (vm_compute; reflexivity).
  rewrite Hres, Hgot in Hret. unfold returned in Hret. subst us.
  split; [exact Hres|]. exists p'. split; [exact Hp'|].
  rewrite Htx. split; reflexivity.
Defined.

Lemma handle_tx_queue_learns_accepted_source_witness :
  Mac_table.lookup
    (_mac_table
       (snd (fst (handle_tx_queue (H := Scenario.ids) (H0 := Scenario.copy)
                    false Scenario.no_filter 100 Scenario.switch 0
                    Scenario.world))))
    (Virtio_net_request.src_mac Scenario.request)
  = Some 0%nat.
Proof.
  destruct (handle_tx_queue_learns_accepted_source (H := Scenario.ids)
              (H0 := Scenario.copy) false Scenario.no_filter 100
              Scenario.switch 0%nat Scenario.world
              (Scenario.native_port
                 [Scenario.one
                    (Scenario.broadcast_frame Byte.x01 (Scenario.zeros 10))] []))
    as (_ & _ & _ & Hlearned).
  - vm_compute. reflexivity.
  - simpl. constructor.
  - exact Hlearned.
Defined.


(** The loop serves the one chain of port 0. *)
Lemma tx_loop_serves_every_chain_witness :
  exists p',
    ports (snd (tx_loop (H := Scenario.ids) (H0 := Scenario.copy)
                  false Scenario.no_filter 100 2 Scenario.switch 0 Scenario.world))
    !! 0%nat = Some p'
    /\ Virtio_port.tx_work_pending p' = false
    /\ Virtqueue.used (Virtio_port.tx_q p') = [Virtqueue.Finish_head (Some 0%nat) 0].
Proof.
  destruct (tx_loop_serves_every_chain (H := Scenario.ids) (H0 := Scenario.copy)
              false Scenario.no_filter 100 2 0 Scenario.switch 0%nat
              Scenario.world
              (Scenario.native_port
                 [Scenario.one
                    (Scenario.broadcast_frame Byte.x01 (Scenario.zeros 10))] [])
              (snd (fst (tx_loop (H := Scenario.ids) (H0 := Scenario.copy)
                           false Scenario.no_filter 100 2 Scenario.switch 0
                           Scenario.world)))
              (snd (tx_loop (H := Scenario.ids) (H0 := Scenario.copy)
                      false Scenario.no_filter 100 2 Scenario.switch 0
                      Scenario.world)))
    as (_ & p' & Hp' & Hidle & Hused).
  - vm_compute. reflexivity.
  - reflexivity.
  - simpl. lia.
  - simpl. lia.
  - vm_compute. reflexivity.
  - exists p'. split; [exact Hp'|]. split; [exact Hidle|exact Hused].
Defined.

(** The chain of port 0 has a head descriptor that fails validation. *)
Lemma try_tx_flags_bad_descriptor_witness :
  fst (fst (try_tx (H := Scenario.ids) (H0 := Scenario.copy)
              false Scenario.no_filter 100 2 Scenario.switch 0
              Scenario.world_bad_tx))
  <> Throw Bad_descriptor.
Proof.
  apply (try_tx_flags_bad_descriptor (H := Scenario.ids) (H0 := Scenario.copy)
           false Scenario.no_filter 100 2 Scenario.switch 0%nat
           Scenario.world_bad_tx
           (Scenario.native_port [(None, [])] [])).
  vm_compute. reflexivity.
Defined.

(** The broadcast of port 0 reaches port 2. *)
Lemma flood_reaches_every_port_without_holes_witness :
  exists cs o,
    calls (snd (handle_tx_queue (H := Scenario.ids) (H0 := Scenario.copy)
                  false Scenario.no_filter 100 Scenario.switch 0 Scenario.world))
    = calls Scenario.world ++ cs
    /\ {| call_site := Flood; call_target := 2%nat;
          call_src_port := 0%nat; call_outcome := o |} ∈ cs.
Proof.
  apply (flood_reaches_every_port_without_holes (H := Scenario.ids)
           (H0 := Scenario.copy) false Scenario.no_filter 100
           Scenario.switch 0%nat Scenario.world
           (Scenario.native_port
              [Scenario.one (Scenario.broadcast_frame Byte.x01 (Scenario.zeros 10))]
              [])
           Scenario.request
           (snd (Virtio_port.get_tx_request (H := Scenario.ids) 0
                   (Scenario.native_port
                      [Scenario.one
                         (Scenario.broadcast_frame Byte.x01 (Scenario.zeros 10))]
                      [])))
           [0%nat; 1%nat; 2%nat] 2%nat
           (Scenario.native_port [] [Scenario.one (Scenario.zeros 100)])).
  - vm_compute. reflexivity.
  - vm_compute. reflexivity.
  - left. vm_compute. reflexivity.
  - vm_compute. reflexivity.
  - vm_compute. reflexivity.
  - apply (bool_decide_unpack _). vm_compute. exact I.
  - lia.
  - vm_compute. reflexivity.
  - vm_compute. reflexivity.
Defined.

(** The frame for the address learned from port 1 goes to port 1 only. *)
Lemma known_unicast_is_not_flooded_witness :
  exists cs,
    calls (snd (handle_tx_queue (H := Scenario.ids) (H0 := Scenario.copy)
                  false Scenario.no_filter 100 Scenario.unicast_switch 0
                  Scenario.world_unicast))
    = calls Scenario.world_unicast ++ cs
    /\ Forall (fun c =>
                 call_site c = Mirror
                 \/ (call_site c = Unicast /\ call_target c = 1%nat)) cs.
Proof.
  apply (known_unicast_is_not_flooded (H := Scenario.ids)
           (H0 := Scenario.copy) false Scenario.no_filter 100
           Scenario.unicast_switch 0%nat Scenario.world_unicast
           (Scenario.native_port
              [Scenario.one (Scenario.frame Byte.x02 Byte.x01 (Scenario.zeros 10))]
              [])
           Scenario.unicast_request
           (snd (Virtio_port.get_tx_request (H := Scenario.ids) 0
                   (Scenario.native_port
                      [Scenario.one
                         (Scenario.frame Byte.x02 Byte.x01 (Scenario.zeros 10))]
                      [])))
           1%nat).
  - vm_compute. reflexivity.
  - vm_compute. reflexivity.
  - vm_compute. reflexivity.
  - vm_compute. reflexivity.
Defined.

(** The broadcast of port 0 with port 3 as monitor port. *)
Lemma monitor_copy_comes_last_and_once_witness :
  exists cs ms,
    calls (snd (handle_tx_queue (H := Scenario.ids) (H0 := Scenario.copy)
                  false Scenario.no_filter 100 Scenario.mirrored_switch 0
                  Scenario.world_mirrored))
    = calls Scenario.world_mirrored ++ cs ++ ms
    /\ Forall (fun c => call_site c <> Mirror) cs
    /\ (ms = []
        \/ exists m o,
             ms = [{| call_site := Mirror; call_target := m;
                      call_src_port := 0%nat; call_outcome := o |}]
             /\ _monitor Scenario.mirrored_switch = Some m
             /\ Scenario.no_filter Scenario.request = false).
Proof.
  apply (monitor_copy_comes_last_and_once (H := Scenario.ids)
           (H0 := Scenario.copy) false Scenario.no_filter 100
           Scenario.mirrored_switch 0%nat Scenario.world_mirrored
           (Scenario.native_port
              [Scenario.one (Scenario.broadcast_frame Byte.x01 (Scenario.zeros 10))]
              [])
           Scenario.request
           (snd (Virtio_port.get_tx_request (H := Scenario.ids) 0
                   (Scenario.native_port
                      [Scenario.one
                         (Scenario.broadcast_frame Byte.x01 (Scenario.zeros 10))]
                      [])))).
  - vm_compute. reflexivity.
  - vm_compute. reflexivity.
Defined.

End Virtio_switch_facts.
